(** * The asynchronous CSV / Excel job pipeline

    A shallow embedding of the upload API ([src/api/app.js]), the CSV worker
    (the second listing of [unnamed/part_003]) and the Excel worker
    ([src/worker/worker_2.js]), with the properties of the pipeline proved
    about it.

    - JavaScript strings are sequences of UTF-16 code units ([list N]).
    - JavaScript objects used as records are finite maps ([gmap]).
    - Numbers that hold counters and indices are integers ([Z], [nat]); the
      two divisions of the code ([Math.floor((p + f) / total * 100)] and
      [Math.ceil(jobs.length / pageSize)]) are evaluated in IEEE 754
      binary64 with the executable specification of [SpecFloat].
    - [async] functions are computations in a state and exception monad
      over the world the process can touch (files, the job, the logs). *)

From Stdlib Require Import ZArith NArith List String Ascii Bool Lia.
From Stdlib Require Import DecimalString DecimalZ DecimalPos.
From Stdlib Require Import SpecFloat Sorted.
From stdpp Require Import base option list gmap.

Import ListNotations.
Local Open Scope Z_scope.

#[local] Set Warnings "-register-all".

(* ================================================================== *)
(** * JavaScript strings *)
(* ================================================================== *)

Module JsString.

(** A string is the list of its UTF-16 code units. *)
Abbreviation jsstring := (list N).

(** A literal, written as a Rocq string of one-byte characters. *)
Definition str (s : string) : jsstring :=
  map N_of_ascii (list_ascii_of_string s).

(** WhiteSpace and LineTerminator code points of ECMAScript, the ones
    [String.prototype.trim] removes. *)
Definition is_line_terminator (c : N) : bool :=
  ((c =? 10) || (c =? 13) || (c =? 8232) || (c =? 8233))%N.

Definition is_white_space (c : N) : bool :=
  ((c =? 9) || (c =? 11) || (c =? 12) || (c =? 32) || (c =? 160)
   || (c =? 5760) || ((8192 <=? c) && (c <=? 8202))
   || (c =? 8239) || (c =? 8287) || (c =? 12288) || (c =? 65279))%N.

Definition is_trimmable (c : N) : bool :=
  is_white_space c || is_line_terminator c.

Fixpoint drop_while (p : N -> bool) (s : jsstring) : jsstring :=
  match s with
  | [] => []
  | c :: s' => if p c then drop_while p s' else s
  end.

(** [s.trim()] *)
Definition trim (s : jsstring) : jsstring :=
  rev (drop_while is_trimmable (rev (drop_while is_trimmable s))).

(** [s.split(re)] for a regular expression [re] that matches exactly one
    code unit, the ones [sep] accepts. *)
Fixpoint split_on (sep : N -> bool) (s : jsstring) : list jsstring :=
  match s with
  | [] => [[]]
  | c :: s' =>
      if sep c then [] :: split_on sep s'
      else match split_on sep s' with
           | [] => [[c]]
           | t :: ts => (c :: t) :: ts
           end
  end.

(** Truthiness of a string: [filter((v) => v)] keeps the non-empty ones. *)
Definition non_empty (s : jsstring) : bool :=
  match s with [] => false | _ :: _ => true end.

(** [s.includes(sub)] *)
Fixpoint is_prefix (p s : jsstring) : bool :=
  match p, s with
  | [], _ => true
  | _ :: _, [] => false
  | a :: p', b :: s' => (a =? b)%N && is_prefix p' s'
  end.

Fixpoint includes (sub s : jsstring) : bool :=
  is_prefix sub s ||
  match s with
  | [] => false
  | _ :: s' => includes sub s'
  end.

(** [arr.join(sep)] on strings. *)
Fixpoint join (sep : jsstring) (l : list jsstring) : jsstring :=
  match l with
  | [] => []
  | [s] => s
  | s :: l' => s ++ sep ++ join sep l'
  end.

(** [s.toLowerCase()] on the letters A to Z.  Other code units are left as
    they are; no code point outside A-Z lowers to one of the letters of
    [.csv], [.xlsx] or [.xls], so comparing the result with these
    literals decides as the full Unicode mapping does. *)
Definition lower_unit (c : N) : N :=
  if ((65 <=? c) && (c <=? 90))%N then (c + 32)%N else c.

Definition toLowerCase (s : jsstring) : jsstring := map lower_unit s.

(** Decimal text of an integer-valued Number, [n.toString()], for
    [|n| < 10^21] (beyond, JavaScript switches to the exponent form). *)
Definition int_to_string (n : Z) : jsstring :=
  str (NilZero.string_of_int (Z.to_int n)).

End JsString.
Import JsString.

(* ================================================================== *)
(** * Values, errors and results *)
(* ================================================================== *)

(** The values a record field or a spreadsheet cell can hold. *)
Inductive value : Type :=
| VUndefined
| VNull
| VBool (b : bool)
| VNum (n : Z)                (* a Number holding an integer *)
| VStr (s : jsstring)
| VArr (items : list value)
| VOther (repr : jsstring).   (* any other truthy value that is neither a
                                 string nor an array (a Date, a cell error
                                 or formula object, a fractional number),
                                 given by what its toString() returns *)

(** A thrown [Error], by its message. *)
Record js_error : Type := Err { message : jsstring }.

(** The result of a call: a value, or a thrown error. *)
Inductive result (A : Type) : Type :=
| Ret (a : A)
| Throw (e : js_error).
Arguments Ret {A} a.
Arguments Throw {A} e.

Definition rbind {A B} (r : result A) (f : A -> result B) : result B :=
  match r with
  | Ret a => f a
  | Throw e => Throw e
  end.

Fixpoint rmap_list {A B} (f : A -> result B) (l : list A) : result (list B) :=
  match l with
  | [] => Ret []
  | x :: l' => rbind (f x) (fun y => rbind (rmap_list f l') (fun ys => Ret (y :: ys)))
  end.

(** [!value]: JavaScript falsiness. *)
Definition truthy (v : value) : bool :=
  match v with
  | VUndefined | VNull => false
  | VBool b => b
  | VNum n => negb (n =? 0)
  | VStr s => non_empty s
  | VArr _ | VOther _ => true
  end.

(** [value.toString()].  On [undefined] and [null] the member access throws
    a TypeError.  An array prints its elements joined by commas, where
    [undefined] and [null] elements print as the empty string. *)
Definition cannot_read : js_error :=
  Err (str "Cannot read properties of undefined (reading 'toString')").

Fixpoint to_text (v : value) : jsstring :=
  match v with
  | VUndefined | VNull => []
  | VBool b => if b then str "true" else str "false"
  | VNum n => int_to_string n
  | VStr s => s
  | VArr items => join (str ",") (map to_text items)
  | VOther repr => repr
  end.

Definition toString (v : value) : result jsstring :=
  match v with
  | VUndefined | VNull => Throw cannot_read
  | _ => Ret (to_text v)
  end.

(** Structural equality of values, the equality a [Set] of strings and
    other primitives uses. *)
Fixpoint value_eqb (a b : value) : bool :=
  match a, b with
  | VUndefined, VUndefined => true
  | VNull, VNull => true
  | VBool x, VBool y => Bool.eqb x y
  | VNum x, VNum y => x =? y
  | VStr x, VStr y => bool_decide (x = y)
  | VArr xs, VArr ys =>
      (fix all2 (xs ys : list value) : bool :=
         match xs, ys with
         | [], [] => true
         | x :: xs', y :: ys' => value_eqb x y && all2 xs' ys'
         | _, _ => false
         end) xs ys
  | VOther x, VOther y => bool_decide (x = y)
  | _, _ => false
  end.

(** [String(v)], the conversion a computed property key goes through. *)
Definition to_key (v : value) : jsstring :=
  match v with
  | VUndefined => str "undefined"
  | VNull => str "null"
  | _ => to_text v
  end.

(* ================================================================== *)
(** * Numbers: IEEE 754 binary64 *)
(* ================================================================== *)

Module Number.

Definition prec : Z := 53.
Definition emax : Z := 1024.

(** The double nearest to an integer (exact below [2^53]). *)
Definition of_int (z : Z) : spec_float := binary_normalize prec emax z 0 false.

(** [x / y], [x * y], [x + y] and [x - y] *)
Definition div (x y : spec_float) : spec_float := SFdiv prec emax x y.
Definition mul (x y : spec_float) : spec_float := SFmul prec emax x y.
Definition add (x y : spec_float) : spec_float := SFadd prec emax x y.
Definition sub (x y : spec_float) : spec_float := SFsub prec emax x y.

(** The integer part of a finite double, rounded down and rounded up. *)
Definition signed (s : bool) (m : positive) : Z := if s then Zneg m else Zpos m.

Definition floor_int (s : bool) (m : positive) (e : Z) : Z :=
  if 0 <=? e then signed s m * 2 ^ e else signed s m / 2 ^ (- e).

Definition ceil_int (s : bool) (m : positive) (e : Z) : Z :=
  if 0 <=? e then signed s m * 2 ^ e else - ((- signed s m) / 2 ^ (- e)).

(** The integer part of a finite double, rounded towards zero. *)
Definition trunc_int (s : bool) (m : positive) (e : Z) : Z :=
  if s then ceil_int s m e else floor_int s m e.

(** [Math.floor(x)] and [Math.ceil(x)]: zeros, infinities, NaN and doubles
    without fractional part are returned as they are. *)
Definition floor (x : spec_float) : spec_float :=
  match x with
  | S754_finite s m e =>
      if 0 <=? e then x else binary_normalize prec emax (floor_int s m e) 0 s
  | _ => x
  end.

Definition ceil (x : spec_float) : spec_float :=
  match x with
  | S754_finite s m e =>
      if 0 <=? e then x else binary_normalize prec emax (ceil_int s m e) 0 s
  | _ => x
  end.

(** [x <= y] on doubles. *)
Definition le (x y : spec_float) : Prop := SFleb x y = true.
Definition lt (x y : spec_float) : Prop := SFltb x y = true.

(** [!x]: NaN and the two zeros are falsy. *)
Definition falsy (x : spec_float) : bool :=
  match x with
  | S754_nan | S754_zero _ => true
  | _ => false
  end.

End Number.

(** [Math.floor(((processed + failed) / total) * 100)], as both workers
    compute the progress of a job. *)
Definition progress_percent (done total : Z) : spec_float :=
  Number.floor
    (Number.mul (Number.div (Number.of_int done) (Number.of_int total))
                (Number.of_int 100)).

(* ================================================================== *)
(** * Multi-value field normalisation *)
(* ================================================================== *)

Definition is_quote (c : N) : bool := ((c =? 34) || (c =? 39))%N.

Definition is_separator (c : N) : bool := ((c =? 44) || (c =? 124))%N.

(** [s.replace(/^["'](.+)["']$/, "$1")]: the pattern is anchored at both
    ends, so it matches exactly when the first and the last code unit are
    quote characters and what lies between is non-empty and free of line
    terminators (which [.] does not match). *)
Definition strip_outer_quotes (s : jsstring) : jsstring :=
  match s with
  | [] => s
  | q1 :: rest =>
      match rev rest with
      | [] => s
      | q2 :: inner_rev =>
          if is_quote q1 && is_quote q2 && non_empty inner_rev
             && forallb (fun c => negb (is_line_terminator c)) inner_rev
          then rev inner_rev
          else s
      end
  end.

(** [s.split(/[,|]/).map((v) => v.trim()).filter((v) => v)] *)
Definition split_tokens (s : jsstring) : list jsstring :=
  List.filter non_empty (map trim (split_on is_separator s)).

(* ================================================================== *)
(** * Jobs, files and the world of a worker *)
(* ================================================================== *)

(** A record: one row of the parsed file, field name to value. *)
Abbreviation record := (gmap (list N) value).

(** What [processRecord] returns: [{ success: true, data }]. *)
Record processed_record : Type := {
  success : bool;
  data : gmap (list N) value
}.

(** The statistics kept per multi-value field.  [uniqueValues] is the
    [Set] of the source, in insertion order. *)
Record Stats : Type := {
  totalValues : nat;
  uniqueValues : list value;
  maxValuesInField : nat
}.

(** The [results] object of a job handler. *)
Record Results : Type := {
  processed : nat;
  failed : nat;
  total : nat;
  records : list processed_record;
  summary : gmap (list N) Stats
}.

Definition initial_results : Results :=
  {| processed := 0; failed := 0; total := 0; records := []; summary := ∅ |}.

Module Bull.

Inductive job_state : Type := Waiting | Active | Completed | Failed | Delayed.

(** [job.data], as the upload endpoint builds it. *)
Record JobData : Type := {
  filePath : jsstring;
  originalName : jsstring;
  fileType : jsstring;
  timestamp : Z
}.

(** A job of a Bull queue, with the fields the API reads. *)
Record Job : Type := {
  id : Z;
  data : JobData;
  progress : spec_float;            (* [job._progress] *)
  state : job_state;                (* [job.getState()] *)
  returnvalue : option Results;
  failedReason : option jsstring;
  created : Z;                      (* [job.timestamp] *)
  processedOn : option Z;
  finishedOn : option Z
}.

Definition set_progress (p : spec_float) (j : Job) : Job :=
  {| id := id j; data := data j; progress := p; state := state j;
     returnvalue := returnvalue j; failedReason := failedReason j;
     created := created j; processedOn := processedOn j;
     finishedOn := finishedOn j |}.

Definition start (now : Z) (j : Job) : Job :=
  {| id := id j; data := data j; progress := progress j; state := Active;
     returnvalue := returnvalue j; failedReason := failedReason j;
     created := created j; processedOn := Some now;
     finishedOn := finishedOn j |}.



End Bull.

(** A spreadsheet cell value as ExcelJS hands it out: never an array. *)
Inductive scalar : Type :=
| SNull
| SBool (b : bool)
| SNum (n : Z)
| SStr (s : jsstring)
| SOther (repr : jsstring).       (* a date, an error or a formula value *)

Definition scalar_value (x : scalar) : value :=
  match x with
  | SNull => VNull
  | SBool b => VBool b
  | SNum n => VNum n
  | SStr s => VStr s
  | SOther repr => VOther repr
  end.

Inductive cell : Type :=
| CPlain (v : scalar)             (* number, string, boolean, date, ... *)
| CRich (runs : list jsstring)    (* [{ richText: [{ text }, ...] }] *)
| CLink (text : jsstring).        (* [{ text, hyperlink }] *)

#[global] Instance scalar_eq_dec : EqDecision scalar.
Proof. solve_decision. Defined.

#[global] Instance cell_eq_dec : EqDecision cell.
Proof. solve_decision. Defined.

(** A row is [row.values.slice(1)]: the cells by column, [None] where the
    sparse array has a hole.  A worksheet is the list of its non-empty
    rows with their row numbers, in the order [eachRow] visits them. *)
Abbreviation row := (list (option cell)).
Abbreviation worksheet := (list (Z * list (option cell))).

(** A file on disk, by what the two library readers make of its bytes:
    csv-parse with [columns: true] yields one string-valued object per
    data line or fails; ExcelJS loads a workbook, whose worksheet 1 may
    be missing, or fails. *)
Record File : Type := {
  as_csv : result (list (gmap (list N) (list N)));
  as_xlsx : result (option (list (Z * list (option cell))))
}.

(** What the worker writes to the console and to the winston logger. *)
Inductive sink : Type := Console | LoggerInfo | LoggerError.

Inductive log_event : Type :=
| Starting (filePath : jsstring)
| Found (total : nat)
| ProcessingRecord (jobId : Z) (original processed : gmap (list N) value)
| ProcessedRecord (jobId : Z) (productId : option value)
| RecordError (jobId : Z) (e : js_error) (r : gmap (list N) value)
| ProgressUpdate (processed failed total : nat)
| FailedToProcessRecord (e : js_error) (r : gmap (list N) value)
| ProcessingComplete (jobId : Z) (processed failed total : nat)
| JobCompleted (jobId : Z) (res : Results)
| JobFailed (jobId : Z) (e : js_error)
| ParseError (e : js_error).

(** The world a job handler runs in.  The three tapes are the answers of
    the environment to the calls made while a record is handled, where
    [Some e] makes the call throw [e] and an exhausted tape lets every
    further call succeed:
    - [io_faults] answers the console and logger output of the calls of
      [processRecord];
    - [handler_faults] answers the output the handler itself writes inside
      the loop, the progress message after every tenth processed record
      and the error entry of the per-record [catch];
    - [progress_faults] answers the calls of [job.progress].
    Each tape is read in the order of the calls it answers, so every
    pattern of failing calls is given by some tapes.  The messages the
    handler and the parsers write outside the loop have no tape: they are
    written. *)
Record World : Type := {
  files : gmap (list N) File;
  job : Bull.Job;
  emitted : list spec_float;        (* progress events, oldest first *)
  log : list (sink * log_event);    (* oldest first *)
  io_faults : list (option js_error);
  handler_faults : list (option js_error);
  progress_faults : list (option js_error);
  now : Z
}.

(** The state of a running handler: its [results] object and the world. *)
Record St : Type := { results : Results; world : World }.

(** ** The monad of [async] functions: state and exceptions.  A [throw]
    keeps the state reached, as a [catch] block sees it. *)
Definition M (A : Type) : Type := St -> result A * St.

Definition ret {A} (a : A) : M A := fun st => (Ret a, st).

Definition throw {A} (e : js_error) : M A := fun st => (Throw e, st).

Definition bind {A B} (m : M A) (k : A -> M B) : M B :=
  fun st =>
    match m st with
    | (Ret a, st') => k a st'
    | (Throw e, st') => (Throw e, st')
    end.

Definition try_catch {A} (body : M A) (handler : js_error -> M A) : M A :=
  fun st =>
    match body st with
    | (Ret a, st') => (Ret a, st')
    | (Throw e, st') => handler e st'
    end.

Declare Scope js_scope.
Delimit Scope js_scope with js.
Notation "x <- m ;; k" := (bind m (fun x => k))
  (at level 100, m at next level, right associativity) : js_scope.
Notation "m ;; k" := (bind m (fun _ => k))
  (at level 100, right associativity) : js_scope.
Local Open Scope js_scope.

Definition get_world : M World := fun st => (Ret (world st), st).

Definition get_results : M Results := fun st => (Ret (results st), st).

Definition put_results (r : Results) : M unit :=
  fun st => (Ret tt, {| results := r; world := world st |}).

Definition modify_results (f : Results -> Results) : M unit :=
  fun st => (Ret tt, {| results := f (results st); world := world st |}).

Definition modify_world (f : World -> World) : M unit :=
  fun st => (Ret tt, {| results := results st; world := f (world st) |}).

(** [for (const x of xs) { body }] *)
Fixpoint for_of {A} (xs : list A) (body : A -> M unit) : M unit :=
  match xs with
  | [] => ret tt
  | x :: xs' => body x ;; for_of xs' body
  end.

(** *** World updates *)

Definition with_files (f : gmap (list N) File) (w : World) : World :=
  {| files := f; job := job w; emitted := emitted w; log := log w;
     io_faults := io_faults w; handler_faults := handler_faults w;
     progress_faults := progress_faults w; now := now w |}.

Definition with_job (j : Bull.Job) (w : World) : World :=
  {| files := files w; job := j; emitted := emitted w; log := log w;
     io_faults := io_faults w; handler_faults := handler_faults w;
     progress_faults := progress_faults w; now := now w |}.

Definition with_emitted (l : list spec_float) (w : World) : World :=
  {| files := files w; job := job w; emitted := l; log := log w;
     io_faults := io_faults w; handler_faults := handler_faults w;
     progress_faults := progress_faults w; now := now w |}.

Definition with_log (l : list (sink * log_event)) (w : World) : World :=
  {| files := files w; job := job w; emitted := emitted w; log := l;
     io_faults := io_faults w; handler_faults := handler_faults w;
     progress_faults := progress_faults w; now := now w |}.

Definition with_io_faults (l : list (option js_error)) (w : World) : World :=
  {| files := files w; job := job w; emitted := emitted w; log := log w;
     io_faults := l; handler_faults := handler_faults w;
     progress_faults := progress_faults w; now := now w |}.

Definition with_handler_faults (l : list (option js_error)) (w : World) : World :=
  {| files := files w; job := job w; emitted := emitted w; log := log w;
     io_faults := io_faults w; handler_faults := l;
     progress_faults := progress_faults w; now := now w |}.

Definition with_progress_faults (l : list (option js_error)) (w : World) : World :=
  {| files := files w; job := job w; emitted := emitted w; log := log w;
     io_faults := io_faults w; handler_faults := handler_faults w;
     progress_faults := l; now := now w |}.

(** [console.log(...)], [logger.info(...)], [logger.error(...)] *)
Definition write_log (s : sink) (ev : log_event) : M unit :=
  modify_world (fun w => with_log (log w ++ [(s, ev)]) w).

(** The point of [processRecord] where output is written: the next answer
    of [io_faults] says whether it throws. *)
Definition io_point : M unit :=
  fun st =>
    match io_faults (world st) with
    | [] => (Ret tt, st)
    | o :: rest =>
        let st' := {| results := results st;
                      world := with_io_faults rest (world st) |} in
        match o with
        | None => (Ret tt, st')
        | Some e => (Throw e, st')
        end
    end.

(** The point of the handler where it writes output of its own inside the
    loop: the next answer of [handler_faults] says whether it throws. *)
Definition handler_point : M unit :=
  fun st =>
    match handler_faults (world st) with
    | [] => (Ret tt, st)
    | o :: rest =>
        let st' := {| results := results st;
                      world := with_handler_faults rest (world st) |} in
        match o with
        | None => (Ret tt, st')
        | Some e => (Throw e, st')
        end
    end.

(** [await job.progress(p)]: stores the value in the job and publishes a
    progress event, unless the backend rejects the call. *)
Definition job_progress (p : spec_float) : M unit :=
  fun st =>
    let w := world st in
    match progress_faults w with
    | Some e :: rest =>
        (Throw e, {| results := results st; world := with_progress_faults rest w |})
    | _ =>
        (Ret tt,
         {| results := results st;
            world := with_progress_faults (tail (progress_faults w))
                       (with_emitted (emitted w ++ [p])
                          (with_job (Bull.set_progress p (job w)) w)) |})
    end.

Definition enoent : js_error := Err (str "ENOENT: no such file or directory").

(** [fs.unlinkSync(path)] *)
Definition unlinkSync (path : jsstring) : M unit :=
  fun st =>
    let w := world st in
    match files w !! path with
    | None => (Throw enoent, st)
    | Some _ =>
        (Ret tt, {| results := results st;
                    world := with_files (delete path (files w)) w |})
    end.

(** A thrown result of a pure helper, inside an [async] function. *)
Definition lift {A} (r : result A) : M A :=
  match r with
  | Ret a => ret a
  | Throw e => throw e
  end.

(** [record[field]] *)
Definition field_of (r : gmap (list N) value) (field : jsstring) : value :=
  default VUndefined (r !! field).

(* ================================================================== *)
(** * The job handler (the function given to [queue.process]) *)
(* ================================================================== *)

(** The two workers run the same handler text around their own parser and
    their own [processRecord]. *)

(** ** Statistics about multi-value fields *)

Definition empty_stats : Stats :=
  {| totalValues := 0; uniqueValues := []; maxValuesInField := 0 |}.

(** [set.add(v)] *)
Definition set_add (l : list value) (v : value) : list value :=
  if existsb (value_eqb v) l then l else l ++ [v].

Definition update_stats (values : list value) (s : Stats) : Stats :=
  {| totalValues := totalValues s + length values;
     uniqueValues := fold_left set_add values (uniqueValues s);
     maxValuesInField := Nat.max (maxValuesInField s) (length values) |}.

(** [Object.entries(data).filter(([_, value]) => Array.isArray(value))
      .forEach(([field, values]) => ...)] *)
Definition collect_stats (d : gmap (list N) value) (sm : gmap (list N) Stats)
  : gmap (list N) Stats :=
  map_fold
    (fun field v acc =>
       match v with
       | VArr values =>
           <[field := update_stats values (default empty_stats (acc !! field))]> acc
       | _ => acc
       end)
    sm d.

(** ** Updates of the [results] object *)

Definition incr_processed (r : Results) : Results :=
  {| processed := S (processed r); failed := failed r; total := total r;
     records := records r; summary := summary r |}.

Definition incr_failed (r : Results) : Results :=
  {| processed := processed r; failed := S (failed r); total := total r;
     records := records r; summary := summary r |}.

Definition set_total (n : nat) (r : Results) : Results :=
  {| processed := processed r; failed := failed r; total := n;
     records := records r; summary := summary r |}.

Definition push_record (p : processed_record) (r : Results) : Results :=
  {| processed := processed r; failed := failed r; total := total r;
     records := records r ++ [p]; summary := summary r |}.

Definition add_stats (p : processed_record) (r : Results) : Results :=
  {| processed := processed r; failed := failed r; total := total r;
     records := records r; summary := collect_stats (data p) (summary r) |}.

Section Handler.

Variable parse : jsstring -> M (list (gmap (list N) value)).
Variable processRecord : gmap (list N) value -> Z -> M processed_record.

(** The [try { ... } catch (error) { ... }] around one record.  The
    progress message is written inside the [try], after [processed] has
    gone up: when writing it throws, the [catch] counts the same record
    as failed.  When writing the error entry throws, the error leaves the
    [catch]. *)
Definition attempt_record (jobId : Z) (r : gmap (list N) value) : M unit :=
  try_catch
    (processedRecord <- processRecord r jobId ;;
     modify_results incr_processed ;;
     modify_results (push_record processedRecord) ;;
     modify_results (add_stats processedRecord) ;;
     res <- get_results ;;
     if (processed res mod 10 =? 0)%nat
     then handler_point ;;
          write_log Console
            (ProgressUpdate (processed res) (failed res) (total res))
     else ret tt)
    (fun error =>
       modify_results incr_failed ;;
       handler_point ;;
       write_log LoggerError (FailedToProcessRecord error r)).

(** The progress report that follows every record. *)
Definition report_progress : M unit :=
  res <- get_results ;;
  job_progress
    (progress_percent (Z.of_nat (processed res + failed res))
                      (Z.of_nat (total res))).

(** The body of [for (const record of records)]. *)
Definition record_step (jobId : Z) (r : gmap (list N) value) : M unit :=
  attempt_record jobId r ;;
  report_progress.

(** The steps of the outer [try] block. *)
Definition process_body (jobId : Z) (filePath : jsstring) : M Results :=
  write_log LoggerInfo (Starting filePath) ;;
  write_log Console (Starting filePath) ;;
  recs <- parse filePath ;;
  modify_results (set_total (length recs)) ;;
  write_log Console (Found (length recs)) ;;
  for_of recs (record_step jobId) ;;
  (* the Sets of the summary become arrays here: [uniqueValues] is
     already the list of the elements in insertion order *)
  unlinkSync filePath ;;
  res <- get_results ;;
  write_log Console
    (ProcessingComplete jobId (processed res) (failed res) (total res)) ;;
  write_log LoggerInfo (JobCompleted jobId res) ;;
  ret res.

(** [queue.process(async (job) => { ... })] *)
Definition process : M Results :=
  w <- get_world ;;
  let jobId := Bull.id (job w) in
  let filePath := Bull.filePath (Bull.data (job w)) in
  put_results initial_results ;;
  try_catch
    (process_body jobId filePath)
    (fun error =>
       write_log LoggerError (JobFailed jobId error) ;;
       throw error).

End Handler.

(** ** What Bull does with a handler: the job becomes active, the handler
    runs, and the job is moved to completed with the returned value or to
    failed with the message of the thrown error. *)
Definition run_handler (handler : M Results) (w : World) : result Results * St :=
  handler {| results := initial_results;
             world := with_job (Bull.start (now w) (job w)) w |}.



(* ================================================================== *)
(** * The CSV worker *)
(* ================================================================== *)

Module CsvWorker.

(** [parseMultiValueField] *)
Definition parseMultiValueField (v : value) : list jsstring :=
  if negb (truthy v) then []
  else match v with
       | VStr s => split_tokens (strip_outer_quotes s)
       | _ => []
       end.

Definition multiValueFields : list jsstring :=
  [str "Tags"; str "Categories"; str "Attributes"].

(** [{ ...record, ...Object.fromEntries(multiValueFields
        .filter((field) => record[field])
        .map((field) => [field, parseMultiValueField(record[field])])) }] *)
Definition normalise_fields (r : gmap (list N) value) : gmap (list N) value :=
  fold_left
    (fun acc field =>
       <[field := VArr (map VStr (parseMultiValueField (field_of r field)))]> acc)
    (List.filter (fun field => truthy (field_of r field)) multiValueFields)
    r.

Definition processRecord (r : gmap (list N) value) (jobId : Z) : M processed_record :=
  try_catch
    (let processedRecord := normalise_fields r in
     io_point ;;
     write_log Console (ProcessingRecord jobId r processedRecord) ;;
     write_log LoggerInfo (ProcessedRecord jobId (r !! str "ProductID")) ;;
     ret {| success := true; data := processedRecord |})
    (fun error =>
       write_log LoggerError (RecordError jobId error r) ;;
       throw error).

(** [parseCSV]: the promise is rejected by the error of the read stream
    (no such file) or, after logging it, by the error of the parser. *)
Definition parseCSV (filePath : jsstring) : M (list (gmap (list N) value)) :=
  w <- get_world ;;
  match files w !! filePath with
  | None => throw enoent
  | Some f =>
      match as_csv f with
      | Throw err => write_log LoggerError (ParseError err) ;; throw err
      | Ret rows => ret (map (fmap VStr) rows)
      end
  end.

Definition process : M Results := process parseCSV processRecord.

End CsvWorker.

(* ================================================================== *)
(** * The Excel worker *)
(* ================================================================== *)

Module ExcelWorker.

(** [parseMultiValueField] *)
Definition parseMultiValueField (v : value) : result (list jsstring) :=
  if negb (truthy v) then Ret []
  else match v with
       | VArr items =>
           rbind (rmap_list (fun x => rbind (toString x) (fun s => Ret (trim s))) items)
                 (fun l => Ret (List.filter non_empty l))
       | _ =>
           rbind (toString v)
                 (fun stringValue =>
                    Ret (split_tokens (strip_outer_quotes stringValue)))
       end.

Definition multiValueFields : list jsstring := [str "Tags"; str "Categories"].

Definition normalise_fields (r : gmap (list N) value) : result (gmap (list N) value) :=
  rbind
    (rmap_list
       (fun field =>
          rbind (parseMultiValueField (field_of r field))
                (fun tokens => Ret (field, VArr (map VStr tokens))))
       (List.filter (fun field => truthy (field_of r field)) multiValueFields))
    (fun entries =>
       Ret (fold_left (fun acc fv => <[fst fv := snd fv]> acc) entries r)).

Definition processRecord (r : gmap (list N) value) (jobId : Z) : M processed_record :=
  try_catch
    (processedRecord <- lift (normalise_fields r) ;;
     io_point ;;
     write_log Console (ProcessingRecord jobId r processedRecord) ;;
     write_log LoggerInfo (ProcessedRecord jobId (r !! str "ProductID")) ;;
     ret {| success := true; data := processedRecord |})
    (fun error =>
       write_log LoggerError (RecordError jobId error r) ;;
       throw error).

Definition requiredColumns : list jsstring :=
  [str "ProductID"; str "ProductName"; str "Price"; str "Quantity"].

(** [worksheet.getRow(1).values.slice(1)] *)
Definition header_row (ws : list (Z * list (option cell))) : list (option cell) :=
  match find (fun nr => fst nr =? 1) ws with
  | Some nr => snd nr
  | None => []
  end.

(** [headers.includes(col)]: some header cell is the string [col]. *)
Definition is_header (col : jsstring) (c : option cell) : bool :=
  match c with
  | Some (CPlain (SStr s)) => bool_decide (s = col)
  | _ => false
  end.

Definition headers_include (headers : list (option cell)) (col : jsstring) : bool :=
  existsb (is_header col) headers.

Definition missingColumns (headers : list (option cell)) : list jsstring :=
  List.filter (fun col => negb (headers_include headers col)) requiredColumns.

Definition object_text : jsstring := str "[object Object]".

(** What a cell contributes to the record: the text of rich text, the
    text of a hyperlink when it is not empty, the cell value otherwise. *)
Definition cell_value (c : cell) : value :=
  match c with
  | CPlain v => scalar_value v
  | CRich runs => VStr (concat runs)
  | CLink text => if non_empty text then VStr text else VOther object_text
  end.

(** [headers[index]] as a property key. *)
Definition header_key (headers : list (option cell)) (index : nat) : jsstring :=
  match headers !! index with
  | Some (Some (CPlain v)) => to_key (scalar_value v)
  | Some (Some _) => object_text
  | _ => str "undefined"
  end.

(** [record[header] = value] on a record made by an object literal: the
    record gets or updates a property of its own, except under the key
    [__proto__], which is an accessor of [Object.prototype]: its setter
    runs and the record gets no property. *)
Definition assign (header : jsstring) (v : value) (record : gmap (list N) value)
  : gmap (list N) value :=
  if bool_decide (header = str "__proto__") then record
  else <[header := v]> record.

(** [row.values.slice(1).forEach((value, index) => { record[header] = ... })] *)
Fixpoint fill_record (headers : list (option cell)) (index : nat)
    (cells : list (option cell)) (acc : gmap (list N) value) : gmap (list N) value :=
  match cells with
  | [] => acc
  | None :: rest => fill_record headers (S index) rest acc
  | Some c :: rest =>
      fill_record headers (S index) rest
        (assign (header_key headers index) (cell_value c) acc)
  end.

(** [worksheet.eachRow((row, rowNumber) => { ... })] *)
Definition data_rows (ws : list (Z * list (option cell))) : list (list (option cell)) :=
  map snd (List.filter (fun nr => negb (fst nr =? 1)) ws).

Definition no_worksheet : js_error :=
  Err (str "Cannot read properties of undefined (reading 'getRow')").

Definition missing_columns_error (missing : list jsstring) : js_error :=
  Err (str "Missing required columns: " ++ join (str ", ") missing).

Definition parseExcel (filePath : jsstring) : M (list (gmap (list N) value)) :=
  try_catch
    (w <- get_world ;;
     match files w !! filePath with
     | None => throw enoent
     | Some f =>
         workbook <- lift (as_xlsx f) ;;
         match workbook with
         | None => throw no_worksheet
         | Some ws =>
             let headers := header_row ws in
             let missing := missingColumns headers in
             if (0 <? length missing)%nat
             then throw (missing_columns_error missing)
             else ret (map (fun cells => fill_record headers 0 cells ∅)
                           (data_rows ws))
         end
     end)
    (fun error =>
       write_log LoggerError (ParseError error) ;;
       throw error).

Definition process : M Results := process parseExcel processRecord.

End ExcelWorker.

(* ================================================================== *)
(** * The API server *)
(* ================================================================== *)

Module Api.

(** ** [path.extname] of Node.js (POSIX), which scans the path from its
    end: [startDot] is the right-most dot of the last path component,
    [end_] the end of that component, [preDotState] tells whether
    anything but dots precedes the dot. *)
Record ext_state : Type := {
  startDot : Z;
  startPart : Z;
  end_ : Z;
  matchedSlash : bool;
  preDotState : Z;
  stopped : bool                  (* the [break] was taken *)
}.

Definition ext_init : ext_state :=
  {| startDot := -1; startPart := 0; end_ := -1; matchedSlash := true;
     preDotState := 0; stopped := false |}.

Definition ext_step (st : ext_state) (i : Z) (code : N) : ext_state :=
  if stopped st then st
  else if (code =? 47)%N then
    if negb (matchedSlash st)
    then {| startDot := startDot st; startPart := i + 1; end_ := end_ st;
            matchedSlash := matchedSlash st; preDotState := preDotState st;
            stopped := true |}
    else st
  else
    let matched := if end_ st =? -1 then false else matchedSlash st in
    let e := if end_ st =? -1 then i + 1 else end_ st in
    if (code =? 46)%N then
      if startDot st =? -1
      then {| startDot := i; startPart := startPart st; end_ := e;
              matchedSlash := matched; preDotState := preDotState st;
              stopped := false |}
      else {| startDot := startDot st; startPart := startPart st; end_ := e;
              matchedSlash := matched; preDotState := 1; stopped := false |}
    else
      {| startDot := startDot st; startPart := startPart st; end_ := e;
         matchedSlash := matched;
         preDotState := if startDot st =? -1 then preDotState st else -1;
         stopped := false |}.

(** The loop [for (let i = path.length - 1; i >= 0; --i)], on the reversed
    path. *)
Fixpoint ext_scan (st : ext_state) (i : Z) (rev_path : jsstring) : ext_state :=
  match rev_path with
  | [] => st
  | code :: rest => ext_scan (ext_step st i code) (i - 1) rest
  end.

(** [s.slice(from, to)] for [0 <= from <= to <= s.length] *)
Definition substring (s : jsstring) (from to : Z) : jsstring :=
  take (Z.to_nat (to - from)) (drop (Z.to_nat from) s).

Definition extname (path : jsstring) : jsstring :=
  let st := ext_scan ext_init (Z.of_nat (length path) - 1) (rev path) in
  if (startDot st =? -1) || (end_ st =? -1) || (preDotState st =? 0)
     || ((preDotState st =? 1) && (startDot st =? end_ st - 1)
         && (startDot st =? startPart st + 1))
  then []
  else substring path (startDot st) (end_ st).

(** ** Classification of an upload *)

Inductive queue_name : Type := CsvQueue | ExcelQueue.

Record queue_info : Type := { queue : queue_name; type : jsstring }.

Definition unsupported_file_type : js_error := Err (str "Unsupported file type").

(** [getQueueForFile] *)
Definition getQueueForFile (filename : jsstring) : result queue_info :=
  let ext := toLowerCase (extname filename) in
  if bool_decide (ext = str ".csv")
  then Ret {| queue := CsvQueue; type := str "csv" |}
  else if bool_decide (ext = str ".xlsx") || bool_decide (ext = str ".xls")
  then Ret {| queue := ExcelQueue; type := str "excel" |}
  else Throw unsupported_file_type.

(** [req.file], as multer fills it in. *)
Record upload_file : Type := {
  originalname : jsstring;
  mimetype : jsstring;
  size : Z;                       (* bytes *)
  path : jsstring                 (* where multer stored the upload *)
}.

(** [fileFilter]: [true] when the callback accepts the file. *)
Definition fileFilter (file : upload_file) : bool :=
  let ext := toLowerCase (extname (originalname file)) in
  let extname_ok :=                         (* /csv|xlsx|xls/.test(ext) *)
    includes (str "csv") ext || includes (str "xlsx") ext
    || includes (str "xls") ext in
  let mimetype_ok :=
    includes (str "csv") (mimetype file)
    || includes (str "spreadsheetml") (mimetype file)
    || includes (str "excel") (mimetype file) in
  extname_ok && mimetype_ok.

Definition fileSizeLimit : Z := 1024 * 1024 * 5.

(** ** The queues as the API sees them *)

Record Queue : Type := {
  waitingJobs : list Bull.Job;
  activeJobs : list Bull.Job;
  completedJobs : list Bull.Job;
  failedJobs : list Bull.Job;
  delayedJobs : list Bull.Job;
  next_id : Z
}.

Record Queues : Type := {
  csvQueue : Queue;
  excelQueue : Queue;
  clock : Z                       (* [Date.now()] *)
}.

Definition get_queue (name : queue_name) (qs : Queues) : Queue :=
  match name with
  | CsvQueue => csvQueue qs
  | ExcelQueue => excelQueue qs
  end.

Definition set_queue (name : queue_name) (q : Queue) (qs : Queues) : Queues :=
  match name with
  | CsvQueue => {| csvQueue := q; excelQueue := excelQueue qs; clock := clock qs |}
  | ExcelQueue => {| csvQueue := csvQueue qs; excelQueue := q; clock := clock qs |}
  end.

(** [queue.add(data)]: a new waiting job with the next id. *)
Definition new_job (q : Queue) (d : Bull.JobData) (now : Z) : Bull.Job :=
  {| Bull.id := next_id q; Bull.data := d; Bull.progress := Number.of_int 0;
     Bull.state := Bull.Waiting; Bull.returnvalue := None;
     Bull.failedReason := None; Bull.created := now;
     Bull.processedOn := None; Bull.finishedOn := None |}.

Definition queue_add (q : Queue) (j : Bull.Job) : Queue :=
  {| waitingJobs := waitingJobs q ++ [j]; activeJobs := activeJobs q;
     completedJobs := completedJobs q; failedJobs := failedJobs q;
     delayedJobs := delayedJobs q; next_id := next_id q + 1 |}.

(** ** Responses *)

Record pagination : Type := {
  page : spec_float;
  pageSize : spec_float;
  totalJobs : nat;
  totalPages : spec_float
}.

Inductive body : Type :=
| ErrorBody (error : jsstring)
| ErrorDetails (error details : jsstring)
| Queued (jobId : Z) (originalName fileType : jsstring)
| JobsPage (queue_label status : jsstring) (p : pagination) (jobs : list Bull.Job).

Record response : Type := { status : Z; content : body }.

(** [res.json(b)] answers 200; [res.status(c).json(b)] answers [c]. *)
Definition json (b : body) : response := {| status := 200; content := b |}.
Definition status_json (c : Z) (b : body) : response := {| status := c; content := b |}.

(** [a || b] on strings *)
Definition or_else (a b : jsstring) : jsstring := if non_empty a then a else b.

(** ** [POST /upload] *)

(** What reaches the error-handling middleware. *)
Inductive middleware_error : Type :=
| MulterError (code : jsstring) (msg : jsstring)
| PlainError (e : js_error).

(** [app.use((error, req, res, next) => { ... })] *)
Definition error_middleware (e : middleware_error) : response :=
  match e with
  | MulterError code msg =>
      if bool_decide (code = str "LIMIT_FILE_SIZE")
      then status_json 400 (ErrorBody (str "File size is too large. Max size is 5MB"))
      else status_json 500 (ErrorBody (or_else msg (str "Internal server error")))
  | PlainError err =>
      status_json 500 (ErrorBody (or_else (message err) (str "Internal server error")))
  end.

(** The route handler [async (req, res) => { ... }]. *)
Definition upload_handler (file : option upload_file) (qs : Queues)
  : response * Queues :=
  match file with
  | None => (status_json 400 (ErrorBody (str "No file uploaded")), qs)
  | Some f =>
      match getQueueForFile (originalname f) with
      | Throw error =>
          (status_json 500
             (ErrorBody (or_else (message error) (str "Error processing upload"))),
           qs)
      | Ret qi =>
          let q := get_queue (queue qi) qs in
          let j := new_job q
                     {| Bull.filePath := path f;
                        Bull.originalName := originalname f;
                        Bull.fileType := type qi;
                        Bull.timestamp := clock qs |}
                     (clock qs) in
          (json (Queued (Bull.id j) (originalname f) (type qi)),
           set_queue (queue qi) (queue_add q j) qs)
      end
  end.

(** [upload.single("file")] in front of the handler: multer asks
    [fileFilter] when the file part starts and enforces the size limit
    while it stores the file; both failures go to the error middleware.
    The limit is reached, and the upload turned away, as soon as the
    bytes read are as many as [fileSize]: only a file below the limit is
    stored. *)
Definition upload (file : option upload_file) (qs : Queues) : response * Queues :=
  match file with
  | None => upload_handler None qs
  | Some f =>
      if negb (fileFilter f)
      then (error_middleware
              (PlainError (Err (str "Only CSV and Excel files are allowed!"))), qs)
      else if fileSizeLimit <=? size f
      then (error_middleware
              (MulterError (str "LIMIT_FILE_SIZE") (str "File too large")), qs)
      else upload_handler (Some f) qs
  end.

(** ** [GET /jobs] *)

(** A parameter of [req.query]: a string when the parameter is given
    once; an array or an object when it is repeated or written with
    brackets, given by what [String(v)] returns. *)
Inductive query_value : Type :=
| QString (s : jsstring)
| QOther (text : jsstring).

(** [!v] is false: a string that is not empty, any array, any object. *)
Definition query_truthy (v : option query_value) : bool :=
  match v with
  | None => false
  | Some (QString s) => non_empty s
  | Some (QOther _) => true
  end.

(** [`${v}`] *)
Definition query_text (v : option query_value) : jsstring :=
  match v with
  | None => str "undefined"
  | Some (QString s) => s
  | Some (QOther text) => text
  end.

(** The TypeError of [workerType?.toLowerCase()] on a value that is not
    a string: the optional chain stops at [undefined] and [null] only. *)
Definition not_a_function : js_error :=
  Err (str "workerType?.toLowerCase is not a function").

(** [getQueueByWorkerType] *)
Definition getQueueByWorkerType (workerType : option query_value)
  : result (option queue_info) :=
  match workerType with
  | None => Ret None
  | Some (QOther _) => Throw not_a_function
  | Some (QString s) =>
      let t := toLowerCase s in
      if bool_decide (t = str "csv")
      then Ret (Some {| queue := CsvQueue; type := str "csv" |})
      else if bool_decide (t = str "excel")
      then Ret (Some {| queue := ExcelQueue; type := str "excel" |})
      else Ret None
  end.

(** An index of [arr.slice]: the Number is truncated to an integer, NaN
    counts as 0, a negative index counts from the end, and the result is
    clamped to the array. *)
Definition relative_index (len : Z) (x : spec_float) : Z :=
  match x with
  | S754_nan | S754_zero _ => 0
  | S754_infinity negative => if negative then 0 else len
  | S754_finite s m e =>
      let k := Number.trunc_int s m e in
      if k <? 0 then Z.max (len + k) 0 else Z.min k len
  end.

(** [arr.slice(start, end)] *)
Definition slice {A} (l : list A) (start end' : spec_float) : list A :=
  let len := Z.of_nat (length l) in
  let from := relative_index len start in
  let to := relative_index len end' in
  take (Z.to_nat (to - from)) (drop (Z.to_nat from) l).

(** The query string.  [q_page] and [q_pageSize] are what [parseInt]
    makes of the two parameters: NaN when the parameter is absent or does
    not begin with an integer, else the double nearest to that integer,
    which is an infinity for a numeral of some 309 digits or more. *)
Record jobs_query : Type := {
  q_worker : option query_value;
  q_status : option query_value;
  q_page : spec_float;
  q_pageSize : spec_float
}.

(** [parseInt(x) || d] *)
Definition number_or (x d : spec_float) : spec_float :=
  if Number.falsy x then d else x.

(** [req.query.status || "active"] *)
Definition status_or_active (v : option query_value) : query_value :=
  if query_truthy v then default (QString []) v else QString (str "active").

(** The [switch (status)] over the getters of the queue. *)
Definition jobs_by_status (q : Queue) (st : jsstring) : option (list Bull.Job) :=
  if bool_decide (st = str "active") then Some (activeJobs q)
  else if bool_decide (st = str "completed") then Some (completedJobs q)
  else if bool_decide (st = str "failed") then Some (failedJobs q)
  else if bool_decide (st = str "delayed") then Some (delayedJobs q)
  else if bool_decide (st = str "waiting") then Some (waitingJobs q)
  else None.

(** The pagination of a list of jobs: [(page - 1) * pageSize],
    [start + pageSize] and [jobs.length / pageSize] are computed on
    doubles. *)
Definition paginate (jobs : list Bull.Job) (pg sz : spec_float)
  : list Bull.Job * pagination :=
  let start := Number.mul (Number.sub pg (Number.of_int 1)) sz in
  (slice jobs start (Number.add start sz),
   {| page := pg; pageSize := sz; totalJobs := length jobs;
      totalPages :=
        Number.ceil (Number.div (Number.of_int (Z.of_nat (length jobs))) sz) |}).

Definition list_jobs (query : jobs_query) (qs : Queues) : response :=
  let workerType := q_worker query in
  let status := status_or_active (q_status query) in
  let pg := number_or (q_page query) (Number.of_int 1) in
  let sz := number_or (q_pageSize query) (Number.of_int 10) in
  if negb (query_truthy workerType)
  then status_json 400
         (ErrorBody (str "Worker type is required. Use ?worker=csv or ?worker=excel"))
  else
    match getQueueByWorkerType workerType with
    | Throw error =>
        status_json 500 (ErrorDetails (str "Error fetching jobs") (message error))
    | Ret None =>
        status_json 400 (ErrorBody (str "Invalid worker type. Use 'csv' or 'excel'"))
    | Ret (Some queueInfo) =>
        match status with
        | QOther _ => status_json 400 (ErrorBody (str "Invalid status type"))
        | QString st =>
            match jobs_by_status (get_queue (queue queueInfo) qs) st with
            | None => status_json 400 (ErrorBody (str "Invalid status type"))
            | Some jobs =>
                let '(paginatedJobs, p) := paginate jobs pg sz in
                json (JobsPage (query_text workerType) st p paginatedJobs)
            end
        end
    end.

End Api.

(* ================================================================== *)
(** * The API server: stored files and the status of a job *)
(* ================================================================== *)

Module Storage.

(** [destination]: every upload goes to [uploads/]. *)
Definition destination : jsstring := str "uploads/".

(** [filename]: [Date.now() + "-" + Math.round(Math.random() * 1e9)]
    followed by the extension of the original name; [now] and [random]
    are the two numbers. *)
Definition filename (now random : Z) (originalname : jsstring) : jsstring :=
  int_to_string now ++ str "-" ++ int_to_string random ++ Api.extname originalname.

(** [file.path], the destination joined with the file name. *)
Definition path (now random : Z) (originalname : jsstring) : jsstring :=
  destination ++ filename now random originalname.

End Storage.

Module JobStatus.

Import Api.

(** The jobs of a queue, whatever their state. *)
Definition all_jobs (q : Queue) : list Bull.Job :=
  waitingJobs q ++ activeJobs q ++ completedJobs q ++ failedJobs q ++ delayedJobs q.

(** [queue.getJob(jobId)]: the job stored under the id, which is the text
    of the path parameter. *)
Definition getJob (q : Queue) (jobId : jsstring) : option Bull.Job :=
  find (fun j => bool_decide (int_to_string (Bull.id j) = jobId)) (all_jobs q).

(** [queue.getJobCounts()] *)
Record job_counts : Type := {
  waiting : nat;
  active : nat;
  completed : nat;
  failed : nat;
  delayed : nat
}.

Definition getJobCounts (q : Queue) : job_counts :=
  {| waiting := length (waitingJobs q); active := length (activeJobs q);
     completed := length (completedJobs q); failed := length (failedJobs q);
     delayed := length (delayedJobs q) |}.

(** The body of the answer for a job that was found. *)
Record job_report : Type := {
  jobId : Z;
  state : Bull.job_state;
  progress : spec_float;
  queueType : jsstring;
  data : Bull.JobData;
  result : option Results;
  queueStats : job_counts;
  created : Z;
  started : option Z;
  finished : option Z
}.

Inductive job_answer : Type :=
| Report (r : job_report)                 (* [res.json({ jobId, ... })] *)
| Refusal (code : Z) (error : jsstring)   (* [res.status(code).json({ error })] *)
| Failure (error details : jsstring).     (* [res.status(500).json({ error, details })] *)

Definition report_of (job : Bull.Job) (queueType : jsstring) (q : Queue) : job_report :=
  {| jobId := Bull.id job; state := Bull.state job; progress := Bull.progress job;
     queueType := queueType; data := Bull.data job; result := Bull.returnvalue job;
     queueStats := getJobCounts q;
     created := Bull.created job; started := Bull.processedOn job;
     finished := Bull.finishedOn job |}.

(** [app.get("/job/:jobId", ...)]; [workerType] is [req.query.worker]. *)
Definition get_job (workerType : option query_value) (jobId : jsstring) (qs : Queues)
  : job_answer :=
  let not_found :=
    Refusal 404 (if query_truthy workerType
                 then str "Job not found in " ++ query_text workerType ++ str " queue"
                 else str "Job not found in any queue") in
  if query_truthy workerType then
    match getQueueByWorkerType workerType with
    | Throw error => Failure (str "Error fetching job status") (message error)
    | Ret None => Refusal 400 (str "Invalid worker type. Use 'csv' or 'excel'")
    | Ret (Some queueInfo) =>
        let q := get_queue (queue queueInfo) qs in
        match getJob q jobId with
        | Some job => Report (report_of job (type queueInfo) q)
        | None => not_found
        end
    end
  else
    match getJob (csvQueue qs) jobId with
    | Some job => Report (report_of job (str "csv") (csvQueue qs))
    | None =>
        match getJob (excelQueue qs) jobId with
        | Some job => Report (report_of job (str "excel") (excelQueue qs))
        | None => not_found
        end
    end.

End JobStatus.

(* ================================================================== *)
(** * Auxiliary definitions for the proofs *)
(* ================================================================== *)

(** ** Rounding to nearest even, as [SpecFloat] performs it

    The value being rounded is a non-negative rational [N / D].  All
    doubles are multiples of [2^-1074], so the value of a positive double
    with mantissa [M] and exponent [E] is the integer [M * 2^(E + 1074)]
    in that unit. *)
Module Rounding.

(** Where [N / D] lies between [N / D] rounded down and the next integer. *)
Definition loc_of (N D : Z) : location :=
  if N mod D =? 0 then loc_Exact else loc_Inexact (2 * (N mod D) ?= D).

(** [N / D] rounded to the nearest integer, ties to even. *)
Definition rne (N D : Z) : Z := round_nearest_even (N / D) (loc_of N D).

(** A shift record stands for [N / D]. *)
Definition rep (N D : Z) (mrs : shr_record) : Prop :=
  shr_m mrs = N / D /\ loc_of_shr_record mrs = loc_of N D.

(** The double with mantissa [M] in [2^52 .. 2^53] and exponent [E],
    renormalised when the rounding carried into [2^53]. *)
Definition pack (M E : Z) : spec_float :=
  if M =? 2 ^ 53 then S754_finite false (Z.to_pos (2 ^ 52)) (E + 1)
  else S754_finite false (Z.to_pos M) E.

(** [x] is the double nearest to [A / (B * 2^1074)], and [E] is the
    exponent at which that value has a 53-bit integer part. *)
Definition rounds_at (A B E : Z) (x : spec_float) : Prop :=
  -1074 <= E <= 970 /\
  2 ^ 52 * (B * 2 ^ (E + 1074)) <= A < 2 ^ 53 * (B * 2 ^ (E + 1074)) /\
  x = pack (rne A (B * 2 ^ (E + 1074))) E.

(** [x] is the positive normal double with mantissa [M] and exponent [E]. *)
Definition canon (x : spec_float) (M E : Z) : Prop :=
  x = S754_finite false (Z.to_pos M) E /\ 2 ^ 52 <= M < 2 ^ 53 /\ -1074 <= E <= 971.

(** Its value, in units of [2^-1074]. *)
Definition fval (M E : Z) : Z := M * 2 ^ (E + 1074).

(** [x] is the positive normal double of value [V], in units of
    [2^-1074]. *)
Definition holds (x : spec_float) (V : Z) : Prop :=
  exists M E, canon x M E /\ fval M E = V.

(** [x] is [+Infinity] or a positive normal double of value [K] or more. *)
Definition above (K : Z) (x : spec_float) : Prop :=
  x = S754_infinity false \/ exists V, holds x V /\ K * 2 ^ 1074 <= V.

(** [(k / t) * 100] before [Math.floor]. *)
Definition quotient100 (k t : Z) : spec_float :=
  Number.mul (Number.div (Number.of_int k) (Number.of_int t)) (Number.of_int 100).

End Rounding.
Import Rounding.

(** ** The two workers, side by side *)

Inductive worker : Type := Csv | Excel.

Definition parser_of (k : worker) : jsstring -> M (list (gmap (list N) value)) :=
  match k with
  | Csv => CsvWorker.parseCSV
  | Excel => ExcelWorker.parseExcel
  end.

Definition processor_of (k : worker) : gmap (list N) value -> Z -> M processed_record :=
  match k with
  | Csv => CsvWorker.processRecord
  | Excel => ExcelWorker.processRecord
  end.

Definition handler_of (k : worker) : M Results :=
  match k with
  | Csv => CsvWorker.process
  | Excel => ExcelWorker.process
  end.

(** The parse stage of the job of world [w]: what the parser of the worker
    returns on the file of the job. *)
Definition parse_stage (k : worker) (w : World) : result (list (gmap (list N) value)) :=
  fst (parser_of k (Bull.filePath (Bull.data (job w)))
         {| results := initial_results; world := w |}).

(** What the parsers return, as a function of the files alone. *)
Definition csv_outcome (fs : gmap (list N) File) (path : jsstring)
  : result (list (gmap (list N) value)) :=
  match fs !! path with
  | None => Throw enoent
  | Some f =>
      match as_csv f with
      | Throw e => Throw e
      | Ret rows => Ret (map (fmap VStr) rows)
      end
  end.

Definition excel_outcome (fs : gmap (list N) File) (path : jsstring)
  : result (list (gmap (list N) value)) :=
  match fs !! path with
  | None => Throw enoent
  | Some f =>
      match as_xlsx f with
      | Throw e => Throw e
      | Ret None => Throw ExcelWorker.no_worksheet
      | Ret (Some ws) =>
          let headers := ExcelWorker.header_row ws in
          let missing := ExcelWorker.missingColumns headers in
          if (0 <? length missing)%nat
          then Throw (ExcelWorker.missing_columns_error missing)
          else Ret (map (fun cells => ExcelWorker.fill_record headers 0 cells ∅)
                        (ExcelWorker.data_rows ws))
      end
  end.

Definition outcome_of (k : worker) :=
  match k with
  | Csv => csv_outcome
  | Excel => excel_outcome
  end.

(** ** Frames and traces *)

(** Between [st] and [st'] only the log and the pending faults of the
    output of [processRecord] may differ. *)
Definition quiet (st st' : St) : Prop :=
  results st' = results st /\
  files (world st') = files (world st) /\
  job (world st') = job (world st) /\
  emitted (world st') = emitted (world st) /\
  progress_faults (world st') = progress_faults (world st) /\
  now (world st') = now (world st) /\
  handler_faults (world st') = handler_faults (world st).


(** The records attempted so far. *)
Definition attempted (r : Results) : nat := processed r + failed r.

(** The progress values reported at the counts [cs] of a job of [t]
    records. *)
Definition reports (t : nat) (cs : list nat) : list spec_float :=
  map (fun c => progress_percent (Z.of_nat c) (Z.of_nat t)) cs.

(** Counts that go up from [a] on, by one or by two at each step. *)
Fixpoint climbs (a : nat) (cs : list nat) : Prop :=
  match cs with
  | [] => True
  | c :: cs' => (a < c <= a + 2)%nat /\ climbs c cs'
  end.

(** ** Strings *)

(** A string that does not begin with a code unit [trim] removes. *)
Definition starts_clean (s : jsstring) : Prop :=
  match s with
  | [] => True
  | c :: _ => is_trimmable c = false
  end.

(** The WhiteSpace and LineTerminator code points of ECMAScript: the code
    units a trimmed string neither begins nor ends with. *)
Definition white_space_units : list N :=
  [9; 10; 11; 12; 13; 32; 160; 5760; 8192; 8193; 8194; 8195; 8196; 8197; 8198;
   8199; 8200; 8201; 8202; 8232; 8233; 8239; 8287; 12288; 65279]%N.

Definition trimmed (s : jsstring) : Prop :=
  forall c, In c white_space_units -> head s <> Some c /\ last s <> Some c.

Definition no_separator (s : jsstring) : bool :=
  forallb (fun c => negb (is_separator c)) s.

(** [typeof v === "string"] and [Array.isArray(v)] *)
Definition is_string (v : value) : bool :=
  match v with VStr _ => true | _ => false end.

Definition is_array (v : value) : bool :=
  match v with VArr _ => true | _ => false end.

(** ** Positions of a list *)

(** The elements of [l] at the 0-indexed positions [lo <= i < hi]. *)
Fixpoint positions_from {A} (i lo hi : Z) (l : list A) : list A :=
  match l with
  | [] => []
  | x :: l' =>
      if (lo <=? i) && (i <? hi)
      then x :: positions_from (i + 1) lo hi l'
      else positions_from (i + 1) lo hi l'
  end.

Definition positions {A} (l : list A) (lo hi : Z) : list A :=
  positions_from 0 lo hi l.

(** ** Worksheets *)



(** ** Normalised records and their statistics *)

(** [undefined] and [null], the values without a [toString] method. *)
Definition is_nullish (v : value) : bool :=
  match v with VUndefined | VNull => true | _ => false end.

(** The statistics the handler has gathered after the processed records
    [ps], oldest first. *)
Definition summary_of (ps : list processed_record) : gmap (list N) Stats :=
  fold_left (fun sm p => collect_stats (data p) sm) ps ∅.

(** The arrays the records [ps] hold in [field], in their order. *)
Definition field_arrays (field : jsstring) (ps : list processed_record)
  : list (list value) :=
  omap (fun p => match data p !! field with
                 | Some (VArr values) => Some values
                 | _ => None
                 end) ps.

(** The statistics of a sequence of arrays: the number of values, the
    distinct values by first appearance, the longest array. *)
Definition stats_of (arrays : list (list value)) : Stats :=
  {| totalValues := list_sum (map length arrays);
     uniqueValues := fold_left set_add (concat arrays) [];
     maxValuesInField := list_max (map length arrays) |}.

(** What [processRecord] returns when its output does not fail. *)
Definition processed_of (k : worker) (r : record) : result processed_record :=
  match k with
  | Csv => Ret {| success := true; data := CsvWorker.normalise_fields r |}
  | Excel =>
      rbind (ExcelWorker.normalise_fields r)
            (fun d => Ret {| success := true; data := d |})
  end.



Definition multi_fields (k : worker) : list jsstring :=
  match k with
  | Csv => CsvWorker.multiValueFields
  | Excel => ExcelWorker.multiValueFields
  end.

Definition clean_tape (l : list (option js_error)) : Prop := Forall (fun o => o = None) l.

(** No field of the record holds an array. *)
Definition holds_no_array (r : record) : Prop :=
  forall field v, r !! field = Some v -> is_array v = false.

(** ** Queues and paths *)

(** The ids of the jobs of a queue are below the id of its next job. *)
Definition fresh_ids (q : Api.Queue) : Prop :=
  Forall (fun j => Bull.id j < Api.next_id q) (JobStatus.all_jobs q).

(** A code unit that is neither a dot nor a slash, and strings of them. *)
Definition is_plain (c : N) : bool := negb (c =? 46)%N && negb (c =? 47)%N.

Definition plain (s : jsstring) : Prop := forallb is_plain s = true.

(** What holds of the scan of [path] by [extname] when its suffix [b] has
    been read, [a] being what is left to read. *)
Definition scanned (path a b : jsstring) (st : Api.ext_state) : Prop :=
  (Api.startDot st <> -1 ->
   exists rest, Api.substring path (Api.startDot st) (Api.end_ st) = 46%N :: rest
                /\ plain rest) /\
  (Api.stopped st = false ->
   (Api.matchedSlash st = true -> Api.end_ st = -1) /\
   (Api.end_ st = -1 -> Api.startDot st = -1) /\
   (Api.startDot st = -1 -> Api.end_ st <> -1 ->
    Z.of_nat (length a) <= Api.end_ st /\
    plain (take (Z.to_nat (Api.end_ st - Z.of_nat (length a))) b))).

(** ** Sample inputs *)

Definition sample_data (path name type : string) : Bull.JobData :=
  {| Bull.filePath := str path; Bull.originalName := str name;
     Bull.fileType := str type; Bull.timestamp := 0 |}.

(** A job as [queue.add] creates it. *)
Definition waiting_job (i : Z) (d : Bull.JobData) : Bull.Job :=
  {| Bull.id := i; Bull.data := d; Bull.progress := Number.of_int 0;
     Bull.state := Bull.Waiting; Bull.returnvalue := None;
     Bull.failedReason := None; Bull.created := 0;
     Bull.processedOn := None; Bull.finishedOn := None |}.

Definition not_a_workbook : js_error := Err (str "not a workbook").
Definition not_a_csv : js_error := Err (str "Invalid Record Length").


(** A CSV file of two data lines. *)
Definition two_rows : list (gmap (list N) (list N)) :=
  [ {[ str "ProductID" := str "P001"; str "Tags" := str "red, blue" ]};
    {[ str "ProductID" := str "P002"; str "Tags" := str "green|red" ]} ].


(** A job on that file; [faults] are the answers to the output of the
    calls of [processRecord]. *)
Definition two_row_world (faults : list (option js_error)) : World :=
  {| files := {[ str "uploads/two.csv" :=
                   {| as_csv := Ret two_rows; as_xlsx := Throw not_a_workbook |} ]};
     job := waiting_job 7 (sample_data "uploads/two.csv" "two.csv" "csv");
     emitted := []; log := []; io_faults := faults; handler_faults := [];
     progress_faults := []; now := 1 |}.













(** A completed job, and twenty-five of them with the ids 0 to 24. *)
Definition sample_job (i : Z) : Bull.Job :=
  {| Bull.id := i; Bull.data := sample_data "uploads/f.csv" "f.csv" "csv";
     Bull.progress := Number.of_int 100; Bull.state := Bull.Completed;
     Bull.returnvalue := Some initial_results; Bull.failedReason := None;
     Bull.created := 0; Bull.processedOn := Some 1; Bull.finishedOn := Some 2 |}.

Definition jobs25 : list Bull.Job := map (fun i => sample_job (Z.of_nat i)) (seq 0 25).

Definition no_queues : Api.Queues :=
  let q := {| Api.waitingJobs := []; Api.activeJobs := []; Api.completedJobs := [];
              Api.failedJobs := []; Api.delayedJobs := []; Api.next_id := 1 |} in
  {| Api.csvQueue := q; Api.excelQueue := q; Api.clock := 0 |}.

(** An upload that passes the file filter (its extension contains [csv],
    its MIME type too) and that no queue accepts. *)
Definition csvx_upload : Api.upload_file :=
  {| Api.originalname := str "data.csvx"; Api.mimetype := str "text/csv";
     Api.size := 10; Api.path := str "uploads/1-1.csvx" |}.

(** An upload that the file filter turns away. *)
Definition txt_upload : Api.upload_file :=
  {| Api.originalname := str "notes.txt"; Api.mimetype := str "text/plain";
     Api.size := 10; Api.path := str "uploads/1-2.txt" |}.

(** An upload of exactly 5 MB that the file filter lets pass. *)
Definition brim_upload : Api.upload_file :=
  {| Api.originalname := str "big.csvx"; Api.mimetype := str "text/csv";
     Api.size := 5242880; Api.path := str "uploads/1-3.csvx" |}.

Definition tagged_record : record :=
  {[ str "ProductID" := VStr (str "P001"); str "Tags" := VStr (str "red, blue") ]}.

Definition idle_state : St :=
  {| results := initial_results; world := two_row_world [] |}.

(** A worksheet with the four required columns and one data row. *)
Definition priced_sheet : list (Z * list (option cell)) :=
  [ (1, [Some (CPlain (SStr (str "ProductID")));
         Some (CPlain (SStr (str "ProductName")));
         Some (CPlain (SStr (str "Price")));
         Some (CPlain (SStr (str "Quantity")))]);
    (2, [Some (CPlain (SStr (str "P001")));
         Some (CPlain (SStr (str "Lamp")));
         Some (CPlain (SNum 12));
         Some (CPlain (SNum 3))]) ].

Definition priced_file : File :=
  {| as_csv := Throw not_a_csv; as_xlsx := Ret (Some priced_sheet) |}.

Definition priced_world : World :=
  {| files := {[ str "uploads/p.xlsx" := priced_file ]};
     job := waiting_job 10 (sample_data "uploads/p.xlsx" "p.xlsx" "excel");
     emitted := []; log := []; io_faults := []; handler_faults := [];
     progress_faults := []; now := 1 |}.

(** A worksheet with a fifth column named [__proto__]. *)
Definition proto_sheet : list (Z * list (option cell)) :=
  [ (1, [Some (CPlain (SStr (str "ProductID")));
         Some (CPlain (SStr (str "ProductName")));
         Some (CPlain (SStr (str "Price")));
         Some (CPlain (SStr (str "Quantity")));
         Some (CPlain (SStr (str "__proto__")))]);
    (2, [Some (CPlain (SStr (str "P001")));
         Some (CPlain (SStr (str "Lamp")));
         Some (CPlain (SNum 12));
         Some (CPlain (SNum 3));
         Some (CPlain (SStr (str "x")))]) ].

Definition proto_file : File :=
  {| as_csv := Throw not_a_csv; as_xlsx := Ret (Some proto_sheet) |}.

Definition proto_world : World :=
  {| files := {[ str "uploads/q.xlsx" := proto_file ]};
     job := waiting_job 11 (sample_data "uploads/q.xlsx" "q.xlsx" "excel");
     emitted := []; log := []; io_faults := []; handler_faults := [];
     progress_faults := []; now := 1 |}.

(** What [processRecord] makes of [tagged_record]. *)
Definition tagged_processed : processed_record :=
  {| success := true;
     data := <[str "Tags" := VArr [VStr (str "red"); VStr (str "blue")]]> tagged_record |}.

(** The result of the job on the file of two lines, and the statistics of
    its [Tags]. *)
Definition two_row_results : Results :=
  results (snd (run_handler (handler_of Csv) (two_row_world []))).

Definition tags_stats : Stats :=
  {| totalValues := 4;
     uniqueValues := [VStr (str "red"); VStr (str "blue"); VStr (str "green")];
     maxValuesInField := 2 |}.



Definition csv_upload : Api.upload_file :=
  {| Api.originalname := str "data.csv"; Api.mimetype := str "text/csv";
     Api.size := 10; Api.path := str "uploads/1-1.csv" |}.

(* ================================================================== *)
(** * Facts about binary64 rounding *)
(* ================================================================== *)

Lemma rne_cases N D :
  0 < D -> 0 <= N ->
  (rne N D = N / D /\ (2 * (N mod D) < D \/ (2 * (N mod D) = D /\ Z.even (N / D) = true)))
  \/ (rne N D = N / D + 1 /\ (D < 2 * (N mod D) \/ (2 * (N mod D) = D /\ Z.even (N / D) = false))).
Proof.
  intros HD HN. unfold rne, loc_of, round_nearest_even.
  pose proof (Z.mod_pos_bound N D HD) as Hr.
  destruct (Z.eqb_spec (N mod D) 0) as [E0 | E0].
  - left. split; [reflexivity | lia].
  - destruct (Z.compare_spec (2 * (N mod D)) D) as [E | E | E].
    + destruct (Z.even (N / D)) eqn:Ev; [left | right]; (split; [reflexivity | lia]).
    + left. split; [reflexivity | lia].
    + right. split; [reflexivity | lia].
Qed.

Lemma rne_bounds N D :
  0 < D -> 0 <= N ->
  (2 * rne N D - 1) * D <= 2 * N <= (2 * rne N D + 1) * D.
Proof.
  intros HD HN.
  pose proof (Z.mod_pos_bound N D HD) as Hr.
  pose proof (Z.div_mod N D ltac:(lia)) as Hq.
  destruct (rne_cases N D HD HN) as [[-> H] | [-> H]]; nia.
Qed.

Lemma rne_tie_up N D :
  0 < D -> 0 <= N -> 2 * N = (2 * rne N D + 1) * D -> Z.even (rne N D) = true.
Proof.
  intros HD HN.
  pose proof (Z.mod_pos_bound N D HD) as Hr.
  pose proof (Z.div_mod N D ltac:(lia)) as Hq.
  destruct (rne_cases N D HD HN) as [[-> H] | [-> H]]; intros HE.
  - destruct H as [H | [H Hev]]; [nia | exact Hev].
  - nia.
Qed.

Lemma rne_tie_down N D :
  0 < D -> 0 <= N -> 2 * N = (2 * rne N D - 1) * D -> Z.even (rne N D) = true.
Proof.
  intros HD HN.
  pose proof (Z.mod_pos_bound N D HD) as Hr.
  pose proof (Z.div_mod N D ltac:(lia)) as Hq.
  destruct (rne_cases N D HD HN) as [[-> H] | [-> H]]; intros HE.
  - nia.
  - destruct H as [H | [H Hev]]; [nia | ].
    rewrite Z.even_add, Hev. reflexivity.
Qed.

Lemma rne_mono N1 D1 N2 D2 :
  0 < D1 -> 0 < D2 -> 0 <= N1 -> 0 <= N2 ->
  N1 * D2 <= N2 * D1 -> rne N1 D1 <= rne N2 D2.
Proof.
  intros HD1 HD2 HN1 HN2 Hle.
  destruct (Z_le_gt_dec (rne N1 D1) (rne N2 D2)) as [H | H]; [exact H | exfalso].
  pose proof (rne_bounds N1 D1 HD1 HN1) as [B1 _].
  pose proof (rne_bounds N2 D2 HD2 HN2) as [_ B2].
  set (M1 := rne N1 D1) in *. set (M2 := rne N2 D2) in *.
  assert (H1 : (2 * M2 + 1) * D1 <= 2 * N1) by nia.
  assert (Hc : (2 * M2 + 1) * D1 * D2 <= 2 * N1 * D2) by nia.
  assert (Hd : 2 * N2 * D1 <= (2 * M2 + 1) * D2 * D1) by nia.
  assert (He : 2 * N1 * D2 = (2 * M2 + 1) * D1 * D2) by nia.
  assert (E1 : 2 * N1 = (2 * M2 + 1) * D1) by nia.
  assert (E2 : 2 * N2 = (2 * M2 + 1) * D2) by nia.
  assert (EM : M1 = M2 + 1) by nia.
  pose proof (rne_tie_up N2 D2 HD2 HN2 E2) as Ev2. fold M2 in Ev2.
  assert (E3 : 2 * N1 = (2 * rne N1 D1 - 1) * D1) by (fold M1; nia).
  pose proof (rne_tie_down N1 D1 HD1 HN1 E3) as Ev1. fold M1 in Ev1.
  rewrite EM, Z.even_add, Ev2 in Ev1. discriminate.
Qed.

Lemma rne_exact K D : 0 < D -> 0 <= K -> rne (K * D) D = K.
Proof.
  intros HD HK. unfold rne, loc_of.
  rewrite Z.mod_mul by lia. rewrite Z.div_mul by lia. reflexivity.
Qed.

Lemma rne_scale N D c : 0 < D -> 0 < c -> rne (N * c) (D * c) = rne N D.
Proof.
  intros HD Hc. unfold rne, loc_of.
  rewrite Z.div_mul_cancel_r by lia.
  rewrite Z.mul_mod_distr_r by lia.
  destruct (Z.eqb_spec (N mod D * c) 0) as [E | E];
    destruct (Z.eqb_spec (N mod D) 0) as [E' | E']; try reflexivity; try nia.
  f_equal. f_equal.
  destruct (Z.compare_spec (2 * (N mod D * c)) (D * c));
    destruct (Z.compare_spec (2 * (N mod D)) D); try reflexivity; nia.
Qed.

(** ** Binary digits *)

Lemma digits2_pos_bounds p :
  2 ^ (Zpos (digits2_pos p) - 1) <= Zpos p < 2 ^ Zpos (digits2_pos p).
Proof.
  induction p as [p IH | p IH | ]; cbn [digits2_pos].
  - rewrite Pos2Z.inj_succ. replace (Z.succ (Zpos (digits2_pos p)) - 1) with (Zpos (digits2_pos p)) by lia.
    rewrite Z.pow_succ_r by lia.
    replace (Zpos (digits2_pos p)) with (Z.succ (Zpos (digits2_pos p) - 1)) at 1 by lia.
    rewrite Z.pow_succ_r by lia. lia.
  - rewrite Pos2Z.inj_succ. replace (Z.succ (Zpos (digits2_pos p)) - 1) with (Zpos (digits2_pos p)) by lia.
    rewrite Z.pow_succ_r by lia.
    replace (Zpos (digits2_pos p)) with (Z.succ (Zpos (digits2_pos p) - 1)) at 1 by lia.
    rewrite Z.pow_succ_r by lia. lia.
  - cbn. lia.
Qed.

Lemma Zdigits2_bounds m :
  0 < m -> 2 ^ (Zdigits2 m - 1) <= m < 2 ^ Zdigits2 m.
Proof.
  intros Hm. destruct m as [ | p | p]; try lia. apply digits2_pos_bounds.
Qed.

Lemma Zdigits2_unique m d :
  0 < d -> 2 ^ (d - 1) <= m < 2 ^ d -> Zdigits2 m = d.
Proof.
  intros Hd [Hlo Hhi].
  assert (Hm : 0 < m) by (pose proof (Z.pow_pos_nonneg 2 (d - 1)); lia).
  pose proof (Zdigits2_bounds m Hm) as [Hlo' Hhi'].
  assert (0 < Zdigits2 m) by (destruct m; cbn; lia).
  destruct (Z.lt_trichotomy (Zdigits2 m) d) as [Hlt | [Heq | Hgt]]; [exfalso | exact Heq | exfalso].
  - assert (2 ^ Zdigits2 m <= 2 ^ (d - 1)) by (apply Z.pow_le_mono_r; lia). lia.
  - assert (2 ^ d <= 2 ^ (Zdigits2 m - 1)) by (apply Z.pow_le_mono_r; lia). lia.
Qed.

Lemma rep_of_loc N D :
  rep N D (shr_record_of_loc (N / D) (loc_of N D)).
Proof.
  unfold rep. destruct (loc_of N D) as [ | []]; cbn; auto.
Qed.

Lemma shr_1_rep N D mrs :
  0 <= N -> 0 < D -> rep N D mrs -> rep N (D * 2) (shr_1 mrs).
Proof.
  intros HN HD [Hm Hl]. destruct mrs as [m rb sb]. cbn [shr_m] in Hm.
  pose proof (Z.mod_pos_bound N D HD) as Hr.
  pose proof (Z.div_mod N D ltac:(lia)) as Hq.
  assert (Hq0 : 0 <= N / D) by (apply Z.div_pos; lia).
  rewrite <- Hm in Hq, Hq0. clear Hm.
  set (r := N mod D) in *.
  assert (Hs : orb rb sb = negb (r =? 0)).
  { unfold loc_of in Hl. fold r in Hl. destruct rb, sb, (r =? 0); cbn in Hl |- *; congruence. }
  assert (Hdm : forall m' b, m = 2 * m' + b -> 0 <= b < 2 ->
            N / (D * 2) = m' /\ N mod (D * 2) = b * D + r).
  { intros m' b -> Hb.
    apply (Z.div_mod_unique (D * 2) (N / (D * 2)) m' (N mod (D * 2)) (b * D + r)).
    - left. apply Z.mod_pos_bound. lia.
    - left. nia.
    - rewrite <- Z.div_mod by lia. nia. }
  unfold rep, loc_of.
  destruct m as [ | [p | p | ] | p]; try lia; cbn [shr_1 shr_m loc_of_shr_record].
  - destruct (Hdm 0 0 ltac:(lia) ltac:(lia)) as [-> ->]. split; [reflexivity | ].
    rewrite Hs. replace (0 * D + r) with r by lia.
    destruct (Z.eqb_spec r 0); cbn; [reflexivity | ].
    f_equal. symmetry. apply Z.compare_lt_iff. lia.
  - destruct (Hdm (Zpos p) 1 ltac:(lia) ltac:(lia)) as [-> ->]. split; [reflexivity | ].
    rewrite Hs.
    destruct (Z.eqb_spec (1 * D + r) 0); [lia | ].
    destruct (Z.eqb_spec r 0); cbn; f_equal; symmetry.
    + apply Z.compare_eq_iff. lia.
    + apply Z.compare_gt_iff. lia.
  - destruct (Hdm (Zpos p) 0 ltac:(lia) ltac:(lia)) as [-> ->]. split; [reflexivity | ].
    rewrite Hs. replace (0 * D + r) with r by lia.
    destruct (Z.eqb_spec r 0); cbn; [reflexivity | ].
    f_equal. symmetry. apply Z.compare_lt_iff. lia.
  - destruct (Hdm 0 1 ltac:(lia) ltac:(lia)) as [-> ->]. split; [reflexivity | ].
    rewrite Hs.
    destruct (Z.eqb_spec (1 * D + r) 0); [lia | ].
    destruct (Z.eqb_spec r 0); cbn; f_equal; symmetry.
    + apply Z.compare_eq_iff. lia.
    + apply Z.compare_gt_iff. lia.
Qed.

Lemma iter_shr_1_rep p : forall N D mrs,
  0 <= N -> 0 < D -> rep N D mrs ->
  rep N (D * 2 ^ Zpos p) (SpecFloat.iter_pos shr_1 p mrs).
Proof.
  induction p as [p IH | p IH | ]; intros N D mrs HN HD Hrep; cbn [SpecFloat.iter_pos].
  - replace (D * 2 ^ Zpos p~1) with (D * 2 * 2 ^ Zpos p * 2 ^ Zpos p).
    + assert (0 < 2 ^ Zpos p) by (apply Z.pow_pos_nonneg; lia).
      apply IH; [lia | nia | ]. apply IH; [lia | lia | ].
      apply shr_1_rep; assumption.
    + rewrite (Pos2Z.inj_xI p). rewrite Z.pow_add_r, Z.pow_mul_r by lia.
      change (2 ^ 2) with 4. rewrite Z.pow_1_r.
      replace (4 ^ Zpos p) with (2 ^ Zpos p * 2 ^ Zpos p).
      * ring.
      * change 4 with (2 * 2). rewrite Z.pow_mul_l. reflexivity.
  - replace (D * 2 ^ Zpos p~0) with (D * 2 ^ Zpos p * 2 ^ Zpos p).
    + assert (0 < 2 ^ Zpos p) by (apply Z.pow_pos_nonneg; lia).
      apply IH; [lia | nia | ]. apply IH; assumption.
    + rewrite (Pos2Z.inj_xO p). rewrite Z.pow_mul_r by lia.
      change (2 ^ 2) with 4.
      replace (4 ^ Zpos p) with (2 ^ Zpos p * 2 ^ Zpos p).
      * ring.
      * change 4 with (2 * 2). rewrite Z.pow_mul_l. reflexivity.
  - change (2 ^ 1) with 2. apply shr_1_rep; assumption.
Qed.

Lemma shr_rep N D mrs e n :
  0 <= N -> 0 < D -> 0 <= n -> rep N D mrs ->
  rep N (D * 2 ^ n) (fst (shr mrs e n)) /\ snd (shr mrs e n) = e + n.
Proof.
  intros HN HD Hn Hrep. destruct n as [ | p | p]; try lia; cbn [shr fst snd].
  - rewrite Z.mul_1_r, Z.add_0_r. auto.
  - split; [ | reflexivity]. apply iter_shr_1_rep; assumption.
Qed.

Lemma round_rep N D mrs :
  rep N D mrs -> round_nearest_even (shr_m mrs) (loc_of_shr_record mrs) = rne N D.
Proof. intros [-> ->]. reflexivity. Qed.

Lemma fexp_normal x : -1074 <= x - 53 -> fexp 53 1024 x = x - 53.
Proof. intros H. unfold fexp, emin. lia. Qed.

Lemma div_pow2_bounds m d :
  53 <= d -> 2 ^ (d - 1) <= m < 2 ^ d ->
  2 ^ 52 <= m / 2 ^ (d - 53) < 2 ^ 53.
Proof.
  intros Hd [Hlo Hhi].
  assert (Hp : 0 < 2 ^ (d - 53)) by (apply Z.pow_pos_nonneg; lia).
  assert (E1 : 2 ^ (d - 1) = 2 ^ 52 * 2 ^ (d - 53)).
  { rewrite <- Z.pow_add_r by lia. f_equal. lia. }
  assert (E2 : 2 ^ d = 2 ^ 53 * 2 ^ (d - 53)).
  { rewrite <- Z.pow_add_r by lia. f_equal. lia. }
  split.
  - apply Z.div_le_lower_bound; lia.
  - apply Z.div_lt_upper_bound; lia.
Qed.

(** The rounding step of [SpecFloat] yields the double nearest to the
    value it is given. *)
Lemma binary_round_aux_spec N D e :
  0 <= N -> 0 < D -> 2 ^ 52 <= N / D -> -1074 <= e ->
  e + (Zdigits2 (N / D) - 53) <= 970 ->
  rounds_at (N * 2 ^ (e + 1074)) D (e + (Zdigits2 (N / D) - 53))
            (binary_round_aux 53 1024 false (N / D) e (loc_of N D)).
Proof.
  intros HN HD Hm He Hhi.
  set (m := N / D) in *. set (d := Zdigits2 m) in *.
  assert (Hm0 : 0 < m) by (pose proof (Z.pow_pos_nonneg 2 52); lia).
  pose proof (Zdigits2_bounds m Hm0) as Hdb. fold d in Hdb.
  assert (Hd : 53 <= d).
  { destruct (Z_lt_le_dec d 53) as [Hlt | ]; [exfalso | assumption].
    assert (2 ^ d <= 2 ^ 52) by (apply Z.pow_le_mono_r; lia). lia. }
  set (n := d - 53) in *.
  assert (Hp : 0 < 2 ^ n) by (apply Z.pow_pos_nonneg; lia).
  assert (Hc : 0 < 2 ^ (e + 1074)) by (apply Z.pow_pos_nonneg; lia).
  unfold binary_round_aux, shr_fexp. fold m. fold d.
  rewrite fexp_normal by lia.
  replace (d + e - 53 - e) with n by lia.
  pose proof (shr_rep N D (shr_record_of_loc m (loc_of N D)) e n HN HD ltac:(lia)
                (rep_of_loc N D)) as [Hrep Hsnd].
  destruct (shr (shr_record_of_loc m (loc_of N D)) e n) as [mrs' e'].
  cbn [fst snd] in Hrep, Hsnd. subst e'.
  rewrite (round_rep _ _ _ Hrep).
  assert (Hq : N / (D * 2 ^ n) = m / 2 ^ n) by (unfold m; rewrite Z.div_div by lia; reflexivity).
  pose proof (div_pow2_bounds m d Hd Hdb) as Hqb. fold n in Hqb. rewrite <- Hq in Hqb.
  set (D' := D * 2 ^ n) in *.
  assert (HD' : 0 < D') by (unfold D'; nia).
  assert (HM : 2 ^ 52 <= rne N D' <= 2 ^ 53).
  { destruct (rne_cases N D' HD' HN) as [[-> _] | [-> _]]; lia. }
  set (M := rne N D') in *.
  assert (Hbnd : 2 ^ 52 * D' <= N < 2 ^ 53 * D').
  { pose proof (Z.mod_pos_bound N D' HD'). pose proof (Z.div_mod N D' ltac:(lia)). nia. }
  assert (HB : D * 2 ^ (e + n + 1074) = D' * 2 ^ (e + 1074)).
  { unfold D'. replace (e + n + 1074) with (n + (e + 1074)) by lia.
    rewrite Z.pow_add_r by lia. ring. }
  assert (Hres : forall x, x = pack M (e + n) ->
            rounds_at (N * 2 ^ (e + 1074)) D (e + n) x).
  { intros x ->. unfold rounds_at. rewrite HB. split; [lia | ]. split; [nia | ].
    rewrite rne_scale by lia. reflexivity. }
  apply Hres. unfold pack.
  destruct (Z.eqb_spec M (2 ^ 53)) as [EM | NM].
  - rewrite EM. cbn [Zdigits2]. change (Zdigits2 (2 ^ 53)) with 54.
    rewrite fexp_normal by lia.
    replace (54 + (e + n) - 53 - (e + n)) with 1 by lia.
    cbn -[Z.leb Z.add]. 
    destruct (Z.leb_spec (e + n + 1) (1024 - 53)); [reflexivity | lia].
  - assert (HdM : Zdigits2 M = 53) by (apply Zdigits2_unique; [lia | ]; change (53 - 1) with 52; lia).
    rewrite HdM. rewrite fexp_normal by lia.
    replace (53 + (e + n) - 53 - (e + n)) with 0 by lia.
    cbn [shr shr_record_of_loc shr_m].
    destruct M as [ | p | p]; try (pose proof (Z.pow_pos_nonneg 2 52); lia).
    destruct (Z.leb_spec (e + n) (1024 - 53)); [reflexivity | lia].
Qed.

Lemma pow2_pos e : 0 <= e -> 0 < 2 ^ e.
Proof. intros. apply Z.pow_pos_nonneg; lia. Qed.

Lemma pow2_split a b : 0 <= a -> 0 <= b -> 2 ^ (a + b) = 2 ^ a * 2 ^ b.
Proof. intros. apply Z.pow_add_r; lia. Qed.

Lemma pow2_lt_double a b : 0 <= a < b -> 2 * 2 ^ a <= 2 ^ b.
Proof.
  intros H. replace (2 * 2 ^ a) with (2 ^ (a + 1)).
  - apply Z.pow_le_mono_r; lia.
  - rewrite pow2_split by lia. change (2 ^ 1) with 2. ring.
Qed.

Lemma SFleb_finite m1 e1 m2 e2 :
  SFleb (S754_finite false m1 e1) (S754_finite false m2 e2) = true <->
  e1 < e2 \/ (e1 = e2 /\ Zpos m1 <= Zpos m2).
Proof.
  unfold SFleb, SFcompare.
  destruct (Z.compare_spec e1 e2) as [E | E | E].
  - rewrite Pos.compare_cont_spec. cbn [Pos.switch_Eq].
    change ((m1 ?= m2)%positive) with (Zpos m1 ?= Zpos m2).
    destruct (Z.compare_spec (Zpos m1) (Zpos m2)); split; intros; try lia; try discriminate; auto.
  - split; intros; auto.
  - split; intros; [discriminate | lia].
Qed.

Lemma canon_le x1 M1 E1 x2 M2 E2 :
  canon x1 M1 E1 -> canon x2 M2 E2 ->
  (SFleb x1 x2 = true <-> fval M1 E1 <= fval M2 E2).
Proof.
  intros (-> & HM1 & HE1) (-> & HM2 & HE2).
  assert (0 < 2 ^ 52) by (apply pow2_pos; lia).
  rewrite SFleb_finite, !Z2Pos.id by lia. unfold fval.
  assert (P1 : 0 < 2 ^ (E1 + 1074)) by (apply pow2_pos; lia).
  assert (P2 : 0 < 2 ^ (E2 + 1074)) by (apply pow2_pos; lia).
  change (2 ^ 53) with (2 * 2 ^ 52) in *.
  split.
  - intros [Hlt | [-> Hle]]; [ | nia].
    pose proof (pow2_lt_double (E1 + 1074) (E2 + 1074) ltac:(lia)). nia.
  - intros Hle. destruct (Z.lt_trichotomy E1 E2) as [Hlt | [-> | Hgt]].
    + left. exact Hlt.
    + right. split; [reflexivity | nia].
    + exfalso. pose proof (pow2_lt_double (E2 + 1074) (E1 + 1074) ltac:(lia)). nia.
Qed.

Lemma canon_unique M1 E1 M2 E2 :
  2 ^ 52 <= M1 < 2 ^ 53 -> 2 ^ 52 <= M2 < 2 ^ 53 ->
  -1074 <= E1 -> -1074 <= E2 ->
  fval M1 E1 = fval M2 E2 -> M1 = M2 /\ E1 = E2.
Proof.
  intros HM1 HM2 HE1 HE2 Hv. unfold fval in Hv.
  assert (0 < 2 ^ 52) by (apply pow2_pos; lia).
  assert (P1 : 0 < 2 ^ (E1 + 1074)) by (apply pow2_pos; lia).
  assert (P2 : 0 < 2 ^ (E2 + 1074)) by (apply pow2_pos; lia).
  change (2 ^ 53) with (2 * 2 ^ 52) in *.
  destruct (Z.lt_trichotomy E1 E2) as [Hlt | [-> | Hgt]].
  - exfalso. pose proof (pow2_lt_double (E1 + 1074) (E2 + 1074) ltac:(lia)). nia.
  - split; [nia | reflexivity].
  - exfalso. pose proof (pow2_lt_double (E2 + 1074) (E1 + 1074) ltac:(lia)). nia.
Qed.

(** The float a rounding yields is canonical and carries the rounded value. *)
Lemma rounds_at_rne_bounds A B E x :
  0 < B -> rounds_at A B E x ->
  2 ^ 52 <= rne A (B * 2 ^ (E + 1074)) <= 2 ^ 53.
Proof.
  intros HB (HE & HA & _).
  assert (P : 0 < 2 ^ (E + 1074)) by (apply pow2_pos; lia).
  assert (0 < 2 ^ 52) by (apply pow2_pos; lia).
  set (D := B * 2 ^ (E + 1074)) in *.
  assert (HD : 0 < D) by (unfold D; nia).
  assert (HA0 : 0 <= A) by nia.
  assert (2 ^ 52 <= A / D) by (apply Z.div_le_lower_bound; lia).
  assert (A / D < 2 ^ 53) by (apply Z.div_lt_upper_bound; lia).
  destruct (rne_cases A D HD HA0) as [[-> _] | [-> _]]; lia.
Qed.

Lemma pack_canon M E :
  2 ^ 52 <= M <= 2 ^ 53 -> -1074 <= E <= 970 ->
  exists M' E', canon (pack M E) M' E' /\ fval M' E' = fval M E /\ E <= E' <= E + 1.
Proof.
  intros HM HE. unfold pack.
  destruct (Z.eqb_spec M (2 ^ 53)) as [-> | NM].
  - exists (2 ^ 52), (E + 1). split; [ | split; [ | lia]].
    + split; [reflexivity | ]. split; [ | lia]. split; [lia | ]. apply Z.pow_lt_mono_r; lia.
    + unfold fval. replace (E + 1 + 1074) with (1 + (E + 1074)) by lia.
      rewrite pow2_split by lia. change (2 ^ 53) with (2 ^ 52 * 2 ^ 1). ring.
  - exists M, E. split; [ | split; [reflexivity | lia]].
    split; [reflexivity | ]. split; lia.
Qed.

Lemma rounds_at_canon A B E x :
  0 < B -> rounds_at A B E x ->
  exists M' E', canon x M' E' /\
    fval M' E' = fval (rne A (B * 2 ^ (E + 1074))) E /\ E <= E' <= E + 1.
Proof.
  intros HB Hr. pose proof (rounds_at_rne_bounds A B E x HB Hr) as HM.
  destruct Hr as (HE & _ & ->). apply pack_canon; assumption.
Qed.

Lemma rounds_at_scale A B E x c :
  0 < B -> 0 < c -> rounds_at (A * c) (B * c) E x <-> rounds_at A B E x.
Proof.
  intros HB Hc. unfold rounds_at.
  assert (Hs : B * c * 2 ^ (E + 1074) = B * 2 ^ (E + 1074) * c) by ring.
  rewrite Hs.
  split; intros (HE & HA & Hx); (split; [exact HE | ]);
    assert (P : 0 < 2 ^ (E + 1074)) by (apply pow2_pos; lia).
  - rewrite rne_scale in Hx by nia. split; [nia | exact Hx].
  - rewrite rne_scale by nia. split; [nia | exact Hx].
Qed.

(** Rounding is monotone. *)
Lemma rounds_at_mono A1 B1 E1 x1 A2 B2 E2 x2 :
  0 < B1 -> 0 < B2 ->
  rounds_at A1 B1 E1 x1 -> rounds_at A2 B2 E2 x2 ->
  A1 * B2 <= A2 * B1 ->
  SFleb x1 x2 = true.
Proof.
  intros HB1 HB2 H1 H2 Hle.
  pose proof (rounds_at_rne_bounds _ _ _ _ HB1 H1) as HM1.
  pose proof (rounds_at_rne_bounds _ _ _ _ HB2 H2) as HM2.
  destruct (rounds_at_canon _ _ _ _ HB1 H1) as (M1' & E1' & Hc1 & Hv1 & _).
  destruct (rounds_at_canon _ _ _ _ HB2 H2) as (M2' & E2' & Hc2 & Hv2 & _).
  apply (canon_le _ _ _ _ _ _ Hc1 Hc2). rewrite Hv1, Hv2. clear Hc1 Hc2 Hv1 Hv2.
  destruct H1 as (HE1 & HA1 & _). destruct H2 as (HE2 & HA2 & _).
  unfold fval.
  assert (P1 : 0 < 2 ^ (E1 + 1074)) by (apply pow2_pos; lia).
  assert (P2 : 0 < 2 ^ (E2 + 1074)) by (apply pow2_pos; lia).
  assert (H52 : 0 < 2 ^ 52) by (apply pow2_pos; lia).
  change (2 ^ 53) with (2 * 2 ^ 52) in *.
  set (p1 := 2 ^ (E1 + 1074)) in *. set (p2 := 2 ^ (E2 + 1074)) in *.
  set (c := 2 ^ 52) in *.
  destruct (Z.lt_trichotomy E1 E2) as [Hlt | [Heq | Hgt]].
  - pose proof (pow2_lt_double (E1 + 1074) (E2 + 1074) ltac:(lia)) as Hp.
    fold p1 p2 in Hp. nia.
  - subst p2. rewrite <- Heq in *. fold p1 in HA2, HM2 |- *.
    apply Z.mul_le_mono_nonneg_r; [lia | ].
    apply rne_mono; nia.
  - exfalso.
    pose proof (pow2_lt_double (E2 + 1074) (E1 + 1074) ltac:(lia)) as Hp.
    fold p1 p2 in Hp.
    assert (S1 : c * B1 * (2 * p2) <= A1) by nia.
    assert (S2 : c * B1 * (2 * p2) * B2 <= A1 * B2).
    { apply Z.mul_le_mono_nonneg_r; lia. }
    assert (S3 : A2 * B1 < 2 * c * (B2 * p2) * B1).
    { apply Z.mul_lt_mono_pos_r; lia. }
    nia.
Qed.

(** A canonical double is the rounding of its own value. *)
Lemma canon_rounds x M E :
  canon x M E -> E <= 970 -> rounds_at (fval M E) 1 E x.
Proof.
  intros (-> & HM & HE) HE'. unfold rounds_at, fval.
  assert (P : 0 < 2 ^ (E + 1074)) by (apply pow2_pos; lia).
  split; [lia | ]. split; [nia | ].
  rewrite Z.mul_1_l. rewrite rne_exact by lia.
  unfold pack. destruct (Z.eqb_spec M (2 ^ 53)); [lia | reflexivity].
Qed.

Lemma rounds_at_exact M E x :
  2 ^ 52 <= M < 2 ^ 53 -> rounds_at (fval M E) 1 E x ->
  x = S754_finite false (Z.to_pos M) E.
Proof.
  intros HM (HE & _ & ->). unfold fval.
  assert (P : 0 < 2 ^ (E + 1074)) by (apply pow2_pos; lia).
  rewrite Z.mul_1_l. rewrite rne_exact by lia.
  unfold pack. destruct (Z.eqb_spec M (2 ^ 53)); [lia | reflexivity].
Qed.

Lemma iter_xO p q : Zpos (Pos.iter xO p q) = Zpos p * 2 ^ Zpos q.
Proof.
  induction q as [ | q IH] using Pos.peano_ind.
  - cbn [Pos.iter]. rewrite (Pos2Z.inj_xO p). change (2 ^ 1) with 2. ring.
  - rewrite Pos.iter_succ, Pos2Z.inj_succ, Z.pow_succ_r by lia.
    rewrite (Pos2Z.inj_xO (Pos.iter xO p q)), IH. ring.
Qed.

Lemma loc_of_1 N : loc_of N 1 = loc_Exact.
Proof. unfold loc_of. rewrite Z.mod_1_r. reflexivity. Qed.

Lemma round_exact_spec N e :
  2 ^ 52 <= N -> -1074 <= e -> e + (Zdigits2 N - 53) <= 970 ->
  rounds_at (N * 2 ^ (e + 1074)) 1 (e + (Zdigits2 N - 53))
            (binary_round_aux 53 1024 false N e loc_Exact).
Proof.
  intros HN He Hhi.
  assert (0 < 2 ^ 52) by (apply pow2_pos; lia).
  pose proof (binary_round_aux_spec N 1 e ltac:(lia) ltac:(lia)) as H'.
  rewrite Z.div_1_r, loc_of_1 in H'. apply H'; assumption.
Qed.

(** An integer between 1 and [2^53] is a double, exactly. *)
Lemma of_int_spec k :
  1 <= k < 2 ^ 53 ->
  exists M E, canon (Number.of_int k) M E /\ fval M E = k * 2 ^ 1074 /\ -52 <= E <= 0.
Proof.
  intros Hk. destruct k as [ | p | p]; try lia.
  unfold Number.of_int, Number.prec, Number.emax, binary_normalize, binary_round.
  pose proof (digits2_pos_bounds p) as Hd.
  set (d := Zpos (digits2_pos p)) in *.
  assert (Hd1 : 1 <= d) by (unfold d; lia).
  assert (Hd53 : d <= 53).
  { destruct (Z_le_gt_dec d 53) as [ | Hgt]; [assumption | exfalso].
    assert (2 ^ 53 <= 2 ^ (d - 1)) by (apply Z.pow_le_mono_r; lia). lia. }
  rewrite fexp_normal by lia. unfold shl_align.
  assert (Hres : forall mz ez, Zpos mz = Zpos p * 2 ^ (53 - d) -> ez = d - 53 ->
    exists M E, canon (binary_round_aux 53 1024 false (Zpos mz) ez loc_Exact) M E /\
      fval M E = Zpos p * 2 ^ 1074 /\ -52 <= E <= 0).
  { intros mz ez Hmz ->.
    assert (Hp : 0 < 2 ^ (53 - d)) by (apply pow2_pos; lia).
    assert (E1 : 2 ^ 52 = 2 ^ (d - 1) * 2 ^ (53 - d)).
    { rewrite <- pow2_split by lia. f_equal. lia. }
    assert (E2 : 2 ^ 53 = 2 ^ d * 2 ^ (53 - d)).
    { rewrite <- pow2_split by lia. f_equal. lia. }
    assert (HN : 2 ^ 52 <= Zpos mz < 2 ^ 53) by (rewrite Hmz; nia).
    assert (Hdz : Zdigits2 (Zpos mz) = 53) by (apply Zdigits2_unique; [lia | exact HN]).
    pose proof (round_exact_spec (Zpos mz) (d - 53) ltac:(lia) ltac:(lia)) as Hr.
    rewrite Hdz in Hr. replace (d - 53 + (53 - 53)) with (d - 53) in Hr by lia.
    specialize (Hr ltac:(lia)).
    pose proof (rounds_at_exact (Zpos mz) (d - 53) _ HN Hr) as ->.
    exists (Zpos mz), (d - 53). split; [ | split; [ | lia]].
    - split; [reflexivity | ]. split; [exact HN | lia].
    - unfold fval. rewrite Hmz.
      replace (2 ^ 1074) with (2 ^ (53 - d) * 2 ^ (d - 53 + 1074)).
      + ring.
      + rewrite <- pow2_split by lia. f_equal. lia. }
  destruct (d + 0 - 53 - 0) as [ | q | q] eqn:Hs; try lia.
  - apply Hres; [ | lia]. replace (53 - d) with 0 by lia. lia.
  - apply Hres; [ | lia]. rewrite iter_xO. f_equal. f_equal. lia.
Qed.

Lemma new_location_spec D r :
  0 < D -> 0 <= r < D ->
  new_location D r = if r =? 0 then loc_Exact else loc_Inexact (2 * r ?= D).
Proof.
  intros HD Hr. unfold new_location, new_location_even, new_location_odd.
  destruct (Z.even D) eqn:Ev; [reflexivity | ].
  destruct (Z.eqb_spec r 0); [reflexivity | ]. f_equal.
  assert (Hodd : D <> 2 * r).
  { intros ->. rewrite Z.even_mul in Ev. discriminate. }
  destruct (Z.compare_spec (2 * r + 1) D); destruct (Z.compare_spec (2 * r) D);
    try reflexivity; lia.
Qed.

Lemma canon_digits x M E : canon x M E -> Zdigits2 M = 53.
Proof. intros (_ & HM & _). apply Zdigits2_unique; [lia | exact HM]. Qed.

(** The quotient of two positive normal doubles is the double nearest to
    the quotient of their values. *)
Lemma div_spec a Ma Ea b Mb Eb :
  canon a Ma Ea -> canon b Mb Eb -> -1021 <= Ea - Eb <= 969 ->
  exists E, Ea - Eb - 53 <= E <= Ea - Eb - 52 /\
    rounds_at (fval Ma Ea * 2 ^ 1074) (fval Mb Eb) E (Number.div a b).
Proof.
  intros Ha Hb HE.
  pose proof (canon_digits _ _ _ Ha) as Hda. pose proof (canon_digits _ _ _ Hb) as Hdb.
  destruct Ha as (-> & HMa & HEa). destruct Hb as (-> & HMb & HEb).
  assert (H52 : 0 < 2 ^ 52) by (apply pow2_pos; lia).
  unfold Number.div, Number.prec, Number.emax, SFdiv, SFdiv_core_binary.
  rewrite !Z2Pos.id by lia. rewrite Hda, Hdb.
  rewrite fexp_normal by lia.
  replace (Z.min (53 + Ea - (53 + Eb) - 53) (Ea - Eb)) with (Ea - Eb - 53) by lia.
  replace (Ea - Eb - (Ea - Eb - 53)) with 53 by lia.
  rewrite Z.shiftl_mul_pow2 by lia.
  assert (HAB : fval Ma Ea * 2 ^ 1074
                = Ma * 2 ^ 53 * 2 ^ (Ea - Eb - 53 + 1074) * 2 ^ (Eb + 1074)).
  { unfold fval. rewrite <- !Z.mul_assoc. f_equal.
    rewrite <- !pow2_split by lia. f_equal. lia. }
  set (N := Ma * 2 ^ 53) in *.
  assert (HN : 0 <= N) by (unfold N; nia).
  pose proof (Z.mod_pos_bound N Mb ltac:(lia)) as Hr.
  assert (Hde : Z.div_eucl N Mb = (N / Mb, N mod Mb)).
  { unfold Z.div, Z.modulo. destruct (Z.div_eucl N Mb). reflexivity. }
  rewrite Hde. cbn [xorb].
  rewrite new_location_spec by lia. fold (loc_of N Mb).
  change (2 ^ 53) with (2 * 2 ^ 52) in *.
  assert (Hq : 2 ^ 52 <= N / Mb < 4 * 2 ^ 52).
  { split.
    - apply Z.div_le_lower_bound; [lia | unfold N; nia].
    - apply Z.div_lt_upper_bound; [lia | unfold N; nia]. }
  assert (Hd : Zdigits2 (N / Mb) = 53 \/ Zdigits2 (N / Mb) = 54).
  { destruct (Z_lt_le_dec (N / Mb) (2 * 2 ^ 52)).
    - left. apply Zdigits2_unique; [lia | ]. change (2 ^ (53 - 1)) with (2 ^ 52).
      change (2 ^ 53) with (2 * 2 ^ 52). lia.
    - right. apply Zdigits2_unique; [lia | ]. change (2 ^ (54 - 1)) with (2 * 2 ^ 52).
      change (2 ^ 54) with (4 * 2 ^ 52). lia. }
  pose proof (binary_round_aux_spec N Mb (Ea - Eb - 53) HN ltac:(lia) ltac:(lia) ltac:(lia)) as Hs.
  exists (Ea - Eb - 53 + (Zdigits2 (N / Mb) - 53)). split; [lia | ].
  specialize (Hs ltac:(lia)).
  assert (Pb : 0 < 2 ^ (Eb + 1074)) by (apply pow2_pos; lia).
  apply (rounds_at_scale _ _ _ _ (2 ^ (Eb + 1074))) in Hs; [ | lia | lia].
  rewrite HAB. exact Hs.
Qed.

(** Likewise for their product. *)
Lemma mul_spec a Ma Ea c Mc Ec :
  canon a Ma Ea -> canon c Mc Ec -> -1074 <= Ea + Ec <= 917 ->
  exists E, Ea + Ec + 52 <= E <= Ea + Ec + 53 /\
    rounds_at (fval Ma Ea * fval Mc Ec) (2 ^ 1074) E (Number.mul a c).
Proof.
  intros (-> & HMa & HEa) (-> & HMc & HEc) HE.
  assert (H52 : 0 < 2 ^ 52) by (apply pow2_pos; lia).
  unfold Number.mul, Number.prec, Number.emax, SFmul. cbn [xorb].
  rewrite Pos2Z.inj_mul, !Z2Pos.id by lia.
  set (N := Ma * Mc).
  change (2 ^ 53) with (2 * 2 ^ 52) in *.
  assert (HN : 2 ^ 52 * 2 ^ 52 <= N < 4 * (2 ^ 52 * 2 ^ 52)) by (unfold N; nia).
  assert (Hd : Zdigits2 N = 105 \/ Zdigits2 N = 106).
  { destruct (Z_lt_le_dec N (2 * (2 ^ 52 * 2 ^ 52))).
    - left. apply Zdigits2_unique; [lia | ].
      change (2 ^ (105 - 1)) with (2 ^ 52 * 2 ^ 52).
      change (2 ^ 105) with (2 * (2 ^ 52 * 2 ^ 52)). lia.
    - right. apply Zdigits2_unique; [lia | ].
      change (2 ^ (106 - 1)) with (2 * (2 ^ 52 * 2 ^ 52)).
      change (2 ^ 106) with (4 * (2 ^ 52 * 2 ^ 52)). lia. }
  pose proof (round_exact_spec N (Ea + Ec) ltac:(nia) ltac:(lia) ltac:(lia)) as Hs.
  exists (Ea + Ec + (Zdigits2 N - 53)). split; [lia | ].
  assert (P : 0 < 2 ^ 1074) by (apply pow2_pos; lia).
  apply (rounds_at_scale _ _ _ _ (2 ^ 1074)) in Hs; [ | lia | lia].
  rewrite Z.mul_1_l in Hs.
  replace (fval Ma Ea * fval Mc Ec) with (N * 2 ^ (Ea + Ec + 1074) * 2 ^ 1074).
  - exact Hs.
  - unfold N, fval.
    assert (Hp : 2 ^ (Ea + Ec + 1074) * 2 ^ 1074 = 2 ^ (Ea + 1074) * 2 ^ (Ec + 1074)).
    { rewrite <- !pow2_split by lia. f_equal. lia. }
    rewrite <- (Z.mul_assoc (Ma * Mc)), Hp. ring.
Qed.

Lemma SFltb_finite m1 e1 m2 e2 :
  SFltb (S754_finite false m1 e1) (S754_finite false m2 e2) = true <->
  e1 < e2 \/ (e1 = e2 /\ Zpos m1 < Zpos m2).
Proof.
  unfold SFltb, SFcompare.
  destruct (Z.compare_spec e1 e2) as [E | E | E].
  - rewrite Pos.compare_cont_spec. cbn [Pos.switch_Eq].
    change ((m1 ?= m2)%positive) with (Zpos m1 ?= Zpos m2).
    destruct (Z.compare_spec (Zpos m1) (Zpos m2)); split; intros; try lia; try discriminate; auto.
  - split; intros; auto.
  - split; intros; [discriminate | lia].
Qed.

Lemma canon_lt x1 M1 E1 x2 M2 E2 :
  canon x1 M1 E1 -> canon x2 M2 E2 ->
  (SFltb x1 x2 = true <-> fval M1 E1 < fval M2 E2).
Proof.
  intros (-> & HM1 & HE1) (-> & HM2 & HE2).
  assert (0 < 2 ^ 52) by (apply pow2_pos; lia).
  rewrite SFltb_finite, !Z2Pos.id by lia. unfold fval.
  assert (P1 : 0 < 2 ^ (E1 + 1074)) by (apply pow2_pos; lia).
  assert (P2 : 0 < 2 ^ (E2 + 1074)) by (apply pow2_pos; lia).
  change (2 ^ 53) with (2 * 2 ^ 52) in *.
  split.
  - intros [Hlt | [-> Hle]]; [ | nia].
    pose proof (pow2_lt_double (E1 + 1074) (E2 + 1074) ltac:(lia)). nia.
  - intros Hle. destruct (Z.lt_trichotomy E1 E2) as [Hlt | [-> | Hgt]].
    + left. exact Hlt.
    + right. split; [reflexivity | nia].
    + exfalso. pose proof (pow2_lt_double (E2 + 1074) (E1 + 1074) ltac:(lia)). nia.
Qed.

Lemma of_int_canon_exact M :
  2 ^ 52 <= M < 2 ^ 53 -> Number.of_int M = S754_finite false (Z.to_pos M) 0.
Proof.
  intros HM. assert (0 < 2 ^ 52) by (apply pow2_pos; lia).
  destruct (of_int_spec M ltac:(lia)) as (M0 & E0 & (-> & HM0 & HE0) & Hv & _).
  assert (Hv' : fval M0 E0 = fval M 0) by (rewrite Hv; reflexivity).
  destruct (canon_unique M0 E0 M 0 HM0 HM ltac:(lia) ltac:(lia) Hv') as [-> ->].
  reflexivity.
Qed.

Lemma pow2_1074_split E :
  -1074 <= E <= 0 -> 2 ^ 1074 = 2 ^ (- E) * 2 ^ (E + 1074).
Proof. intros HE. rewrite <- pow2_split by lia. f_equal. lia. Qed.

(** [Math.floor] and [Math.ceil] of a positive double below [2^53]. *)
Lemma floor_canon x M E :
  canon x M E -> E <= 0 -> Number.floor x = Number.of_int (fval M E / 2 ^ 1074).
Proof.
  intros (-> & HM & HE) HE0. assert (0 < 2 ^ 52) by (apply pow2_pos; lia).
  unfold Number.floor. destruct (Z.leb_spec 0 E) as [H0 | H0].
  - assert (E = 0) by lia. subst E. unfold fval. rewrite Z.add_0_l.
    rewrite Z.div_mul by (pose proof (pow2_pos 1074); lia).
    symmetry. apply of_int_canon_exact. exact HM.
  - unfold Number.floor_int, Number.signed.
    destruct (Z.leb_spec 0 E); [lia | ].
    rewrite Z2Pos.id by lia. unfold Number.of_int. f_equal.
    unfold fval. rewrite (pow2_1074_split E) by lia.
    rewrite Z.div_mul_cancel_r; [reflexivity | | ];
      pose proof (pow2_pos (- E)); pose proof (pow2_pos (E + 1074)); lia.
Qed.

Lemma ceil_canon x M E :
  canon x M E -> E <= 0 ->
  Number.ceil x = Number.of_int (- ((- fval M E) / 2 ^ 1074)).
Proof.
  intros (-> & HM & HE) HE0. assert (0 < 2 ^ 52) by (apply pow2_pos; lia).
  unfold Number.ceil. destruct (Z.leb_spec 0 E) as [H0 | H0].
  - assert (E = 0) by lia. subst E. unfold fval. rewrite Z.add_0_l.
    rewrite <- Z.mul_opp_l.
    rewrite Z.div_mul by (pose proof (pow2_pos 1074); lia).
    rewrite Z.opp_involutive.
    symmetry. apply of_int_canon_exact. exact HM.
  - unfold Number.ceil_int, Number.signed.
    destruct (Z.leb_spec 0 E); [lia | ].
    rewrite Z2Pos.id by lia. unfold Number.of_int. f_equal. f_equal.
    unfold fval. rewrite (pow2_1074_split E) by lia.
    rewrite <- Z.mul_opp_l.
    rewrite Z.div_mul_cancel_r; [reflexivity | | ];
      pose proof (pow2_pos (- E)); pose proof (pow2_pos (E + 1074)); lia.
Qed.

(** ** Integers as doubles *)

Lemma of_int_le a b :
  0 <= a <= b -> b < 2 ^ 53 -> SFleb (Number.of_int a) (Number.of_int b) = true.
Proof.
  intros Hab Hb.
  destruct (Z.eq_dec b 0) as [-> | Hb0].
  { assert (a = 0) by lia. subst a. reflexivity. }
  destruct (of_int_spec b ltac:(lia)) as (Mb & Eb & Hcb & Hvb & HEb).
  destruct (Z.eq_dec a 0) as [-> | Ha0].
  { destruct Hcb as (-> & _). reflexivity. }
  destruct (of_int_spec a ltac:(lia)) as (Ma & Ea & Hca & Hva & HEa).
  apply (canon_le _ _ _ _ _ _ Hca Hcb). rewrite Hva, Hvb.
  pose proof (pow2_pos 1074). nia.
Qed.

Lemma of_int_lt a b :
  0 <= a < b -> b < 2 ^ 53 -> SFltb (Number.of_int a) (Number.of_int b) = true.
Proof.
  intros Hab Hb.
  destruct (of_int_spec b ltac:(lia)) as (Mb & Eb & Hcb & Hvb & HEb).
  destruct (Z.eq_dec a 0) as [-> | Ha0].
  { destruct Hcb as (-> & _). reflexivity. }
  destruct (of_int_spec a ltac:(lia)) as (Ma & Ea & Hca & Hva & HEa).
  apply (canon_lt _ _ _ _ _ _ Hca Hcb). rewrite Hva, Hvb.
  pose proof (pow2_pos 1074). nia.
Qed.

(** The quotient of two integers below 2^53. *)
Lemma div_ints k t :
  1 <= k < 2 ^ 53 -> 1 <= t < 2 ^ 53 ->
  exists E, -105 <= E <= 0 /\
    rounds_at (k * 2 ^ 1074) t E (Number.div (Number.of_int k) (Number.of_int t)).
Proof.
  intros Hk Ht.
  destruct (of_int_spec k Hk) as (Ma & Ea & Hca & Hva & HEa).
  destruct (of_int_spec t Ht) as (Mb & Eb & Hcb & Hvb & HEb).
  destruct (div_spec _ _ _ _ _ _ Hca Hcb ltac:(lia)) as (E & HE & Hr).
  rewrite Hva, Hvb in Hr.
  apply rounds_at_scale in Hr; [ | lia | apply pow2_pos; lia].
  exists E. split; [ | exact Hr].
  split; [lia | ].
  (* the quotient is below 2^53, so its exponent is not positive *)
  destruct Hr as (_ & HA & _).
  destruct (Z_le_gt_dec E 0) as [ | Hgt]; [assumption | exfalso].
  assert (P : 2 * 2 ^ 1074 <= 2 ^ (E + 1074)).
  { apply pow2_lt_double. lia. }
  assert (0 < 2 ^ 1074) by (apply pow2_pos; lia).
  assert (0 < 2 ^ 52) by (apply pow2_pos; lia).
  change (2 ^ 53) with (2 * 2 ^ 52) in *. nia.
Qed.

Lemma div_ints_mono k1 t1 k2 t2 :
  1 <= k1 < 2 ^ 53 -> 1 <= t1 < 2 ^ 53 ->
  1 <= k2 < 2 ^ 53 -> 1 <= t2 < 2 ^ 53 ->
  k1 * t2 <= k2 * t1 ->
  SFleb (Number.div (Number.of_int k1) (Number.of_int t1))
        (Number.div (Number.of_int k2) (Number.of_int t2)) = true.
Proof.
  intros Hk1 Ht1 Hk2 Ht2 Hle.
  destruct (div_ints k1 t1 Hk1 Ht1) as (E1 & _ & H1).
  destruct (div_ints k2 t2 Hk2 Ht2) as (E2 & _ & H2).
  apply (rounds_at_mono (k1 * 2 ^ 1074) t1 E1 _ (k2 * 2 ^ 1074) t2 E2 _ ltac:(lia) ltac:(lia) H1 H2).
  pose proof (pow2_pos 1074). nia.
Qed.

Lemma div_ints_canon k t :
  1 <= k < 2 ^ 53 -> 1 <= t < 2 ^ 53 ->
  exists M E, canon (Number.div (Number.of_int k) (Number.of_int t)) M E /\
              -105 <= E <= 1.
Proof.
  intros Hk Ht. destruct (div_ints k t Hk Ht) as (E & HE & Hr).
  destruct (rounds_at_canon (k * 2 ^ 1074) t E _ ltac:(lia) Hr) as (M' & E' & Hc & _ & HE').
  exists M', E'. split; [exact Hc | lia].
Qed.

Lemma hundred_canon : canon (Number.of_int 100) (100 * 2 ^ 46) (-46).
Proof. split; [vm_compute; reflexivity | ]. split; [ | lia]. vm_compute. split; [discriminate | reflexivity]. Qed.

Lemma hundred_fval : fval (100 * 2 ^ 46) (-46) = 100 * 2 ^ 1074.
Proof. vm_compute. reflexivity. Qed.


(** ** The progress formula *)

Lemma quotient100_spec k t :
  1 <= k < 2 ^ 53 -> 1 <= t < 2 ^ 53 ->
  exists Md Ed E, canon (Number.div (Number.of_int k) (Number.of_int t)) Md Ed /\
    -99 <= E <= 8 /\
    rounds_at (fval Md Ed * (100 * 2 ^ 1074)) (2 ^ 1074) E (quotient100 k t).
Proof.
  intros Hk Ht.
  destruct (div_ints_canon k t Hk Ht) as (Md & Ed & Hcd & HEd).
  destruct (mul_spec _ _ _ _ _ _ Hcd hundred_canon ltac:(lia)) as (E & HE & Hr).
  rewrite hundred_fval in Hr.
  exists Md, Ed, E. split; [exact Hcd | ]. split; [lia | exact Hr].
Qed.

Lemma quotient100_canon k t :
  1 <= k < 2 ^ 53 -> 1 <= t < 2 ^ 53 ->
  exists M E, canon (quotient100 k t) M E.
Proof.
  intros Hk Ht. destruct (quotient100_spec k t Hk Ht) as (Md & Ed & E & _ & _ & Hr).
  destruct (rounds_at_canon (fval Md Ed * (100 * 2 ^ 1074)) (2 ^ 1074) E _
              ltac:(apply pow2_pos; lia) Hr) as (M' & E' & Hc & _).
  exists M', E'. exact Hc.
Qed.

Lemma quotient100_mono k1 t1 k2 t2 :
  1 <= k1 < 2 ^ 53 -> 1 <= t1 < 2 ^ 53 ->
  1 <= k2 < 2 ^ 53 -> 1 <= t2 < 2 ^ 53 ->
  k1 * t2 <= k2 * t1 ->
  SFleb (quotient100 k1 t1) (quotient100 k2 t2) = true.
Proof.
  intros Hk1 Ht1 Hk2 Ht2 Hle.
  destruct (quotient100_spec k1 t1 Hk1 Ht1) as (M1 & E1 & F1 & Hc1 & _ & Hr1).
  destruct (quotient100_spec k2 t2 Hk2 Ht2) as (M2 & E2 & F2 & Hc2 & _ & Hr2).
  pose proof (div_ints_mono k1 t1 k2 t2 Hk1 Ht1 Hk2 Ht2 Hle) as Hd.
  apply (canon_le _ _ _ _ _ _ Hc1 Hc2) in Hd.
  assert (P : 0 < 2 ^ 1074) by (apply pow2_pos; lia).
  apply (rounds_at_mono (fval M1 E1 * (100 * 2 ^ 1074)) (2 ^ 1074) F1 _
                        (fval M2 E2 * (100 * 2 ^ 1074)) (2 ^ 1074) F2 _ P P Hr1 Hr2).
  apply Z.mul_le_mono_nonneg_r; [lia | ].
  apply Z.mul_le_mono_nonneg_r; [lia | exact Hd].
Qed.

Lemma quotient100_one : quotient100 1 1 = Number.of_int 100.
Proof. vm_compute. reflexivity. Qed.

(** The progress of [k] records out of [t], through the value of the
    rounded product. *)
Lemma progress_percent_value k t :
  1 <= k <= t -> t < 2 ^ 53 ->
  exists M E, canon (quotient100 k t) M E /\
    fval M E <= 100 * 2 ^ 1074 /\
    progress_percent k t = Number.of_int (fval M E / 2 ^ 1074).
Proof.
  intros Hk Ht.
  destruct (quotient100_canon k t ltac:(lia) ltac:(lia)) as (M & E & Hc).
  pose proof (quotient100_mono k t 1 1 ltac:(lia) ltac:(lia) ltac:(lia) ltac:(lia) ltac:(lia)) as Hle.
  rewrite quotient100_one in Hle.
  exists M, E. split; [exact Hc | ].
  pose proof Hle as Hv. apply (canon_le _ _ _ _ _ _ Hc hundred_canon) in Hv.
  rewrite hundred_fval in Hv. split; [exact Hv | ].
  assert (HE : E <= 0).
  { destruct Hc as (Hx & _ & _). rewrite Hx in Hle.
    destruct hundred_canon as (Hh & _ & _). rewrite Hh in Hle.
    apply SFleb_finite in Hle. lia. }
  unfold progress_percent. fold (quotient100 k t).
  apply floor_canon; assumption.
Qed.

Lemma progress_percent_range k t :
  1 <= k <= t -> t < 2 ^ 53 ->
  exists z, progress_percent k t = Number.of_int z /\ 0 <= z <= 100.
Proof.
  intros Hk Ht.
  destruct (progress_percent_value k t Hk Ht) as (M & E & Hc & Hv & Hp).
  exists (fval M E / 2 ^ 1074). split; [exact Hp | ].
  assert (P : 0 < 2 ^ 1074) by (apply pow2_pos; lia).
  destruct Hc as (_ & HM & HE).
  assert (0 <= fval M E).
  { unfold fval. pose proof (pow2_pos (E + 1074) ltac:(lia)). pose proof (pow2_pos 52 ltac:(lia)). nia. }
  split.
  - apply Z.div_pos; lia.
  - apply Z.div_le_upper_bound; lia.
Qed.

Lemma progress_percent_mono k1 k2 t :
  1 <= k1 <= k2 -> k2 <= t -> t < 2 ^ 53 ->
  Number.le (progress_percent k1 t) (progress_percent k2 t).
Proof.
  intros Hk1 Hk2 Ht.
  destruct (progress_percent_value k1 t ltac:(lia) Ht) as (M1 & E1 & Hc1 & Hv1 & ->).
  destruct (progress_percent_value k2 t ltac:(lia) Ht) as (M2 & E2 & Hc2 & Hv2 & ->).
  pose proof (quotient100_mono k1 t k2 t ltac:(lia) ltac:(lia) ltac:(lia) ltac:(lia) ltac:(nia)) as Hle.
  apply (canon_le _ _ _ _ _ _ Hc1 Hc2) in Hle.
  assert (P : 0 < 2 ^ 1074) by (apply pow2_pos; lia).
  assert (0 <= fval M1 E1).
  { destruct Hc1 as (_ & HM & HE). unfold fval.
    pose proof (pow2_pos (E1 + 1074) ltac:(lia)). pose proof (pow2_pos 52 ltac:(lia)). nia. }
  apply of_int_le.
  - split; [apply Z.div_pos; lia | apply Z.div_le_mono; lia].
  - apply Z.le_lt_trans with 100; [ | reflexivity].
    apply Z.div_le_upper_bound; lia.
Qed.


Lemma quotient100_below :
  Number.floor (quotient100 (2 ^ 53 - 2) (2 ^ 53 - 1)) = Number.of_int 99.
Proof. vm_compute. reflexivity. Qed.


(** The product is rounded before [Math.floor] is taken: 29 records of 100
    report 28, for [29 / 100] is a double a little below 0.29. *)
Example progress_of_29_in_100 : progress_percent 29 100 = Number.of_int 28.
Proof. vm_compute. reflexivity. Qed.

(** ** The progress formula beyond the total *)







(** Eleven counts for ten records report 110. *)
Example progress_of_11_in_10 : progress_percent 11 10 = Number.of_int 110.
Proof. vm_compute. reflexivity. Qed.

(** ** The number of pages *)

(** [Math.ceil(n / s)] is the ceiling of the quotient of the integers. *)
Lemma ceil_div_ints n s :
  1 <= n < 2 ^ 53 -> 1 <= s < 2 ^ 53 ->
  Number.ceil (Number.div (Number.of_int n) (Number.of_int s))
  = Number.of_int ((n + s - 1) / s).
Proof.
  intros Hn Hs.
  destruct (div_ints n s Hn Hs) as (E & HE & Hr).
  destruct (rounds_at_canon (n * 2 ^ 1074) s E _ ltac:(lia) Hr) as (M' & E' & Hc & Hv & HE').
  pose proof (rounds_at_rne_bounds (n * 2 ^ 1074) s E _ ltac:(lia) Hr) as HMb.
  destruct Hr as (_ & HA & _).
  set (j := (n + s - 1) / s).
  assert (Hj : (j - 1) * s < n <= j * s).
  { pose proof (Z.div_mod (n + s - 1) s ltac:(lia)) as Hdm.
    pose proof (Z.mod_pos_bound (n + s - 1) s ltac:(lia)) as Hmb.
    fold j in Hdm. nia. }
  set (T := 2 ^ (- E)). set (P := 2 ^ (E + 1074)) in *.
  assert (HT : 0 < T) by (apply pow2_pos; lia).
  assert (HP : 0 < P) by (apply pow2_pos; lia).
  assert (HW : 2 ^ 1074 = T * P) by (apply pow2_1074_split; lia).
  assert (H52 : 0 < 2 ^ 52) by (apply pow2_pos; lia).
  change (2 ^ 53) with (2 * 2 ^ 52) in *.
  rewrite HW in HA, Hv, HMb.
  assert (HM : rne (n * (T * P)) (s * P) = rne (n * T) s).
  { rewrite Z.mul_assoc. apply rne_scale; lia. }
  rewrite HM in Hv, HMb. set (M := rne (n * T) s) in *.
  assert (HsT : s < 2 * T) by nia.
  assert (Hup : M <= j * T).
  { replace (j * T) with (rne (j * T * 1) 1) by (apply rne_exact; nia).
    apply rne_mono; nia. }
  assert (Hlo : (j - 1) * T + 1 <= M).
  { pose proof (rne_bounds (n * T) s ltac:(lia) ltac:(nia)) as [_ Hb]. fold M in Hb.
    assert (2 * ((j - 1) * s + 1) * T <= 2 * (n * T)) by nia.
    assert ((2 * T - s) <= 2 * s * (M - (j - 1) * T)) by nia.
    nia. }
  assert (HV : (j - 1) * 2 ^ 1074 < fval M' E' <= j * 2 ^ 1074).
  { rewrite Hv, HW. unfold fval. fold P. nia. }
  assert (HE0 : E' <= 0).
  { destruct (Z_le_gt_dec E' 0) as [ | Hgt]; [assumption | exfalso].
    destruct Hc as (_ & HM' & HEr).
    assert (2 * 2 ^ 1074 <= 2 ^ (E' + 1074)) by (apply pow2_lt_double; lia).
    assert (j <= n) by nia.
    unfold fval in HV.
    assert (0 < 2 ^ 1074) by (apply pow2_pos; lia). nia. }
  rewrite (ceil_canon _ _ _ Hc HE0). f_equal.
  assert (HW0 : 0 < 2 ^ 1074) by (apply pow2_pos; lia).
  assert (Hq : (- fval M' E') / 2 ^ 1074 = - j).
  { symmetry. apply (Z.div_unique _ _ _ (j * 2 ^ 1074 - fval M' E')); [left; lia | ring]. }
  rewrite Hq. lia.
Qed.

Lemma ceil_div_zero s :
  1 <= s < 2 ^ 53 ->
  Number.ceil (Number.div (Number.of_int 0) (Number.of_int s)) = Number.of_int 0.
Proof.
  intros Hs. destruct (of_int_spec s Hs) as (M & E & (-> & _) & _). reflexivity.
Qed.

(** ** Sums, differences and products of whole numbers *)

Lemma above_weaken K K' x : K' <= K -> above K x -> above K' x.
Proof.
  intros HK [-> | (V & HV & Hle)]; [left; reflexivity | right].
  exists V. split; [exact HV | ].
  assert (0 < 2 ^ 1074) by (apply pow2_pos; lia). nia.
Qed.

Lemma canon_above x M E K :
  canon x M E -> K * 2 ^ 1074 <= fval M E -> above K x.
Proof. intros Hc Hv. right. exists (fval M E). split; [exists M, E; auto | exact Hv]. Qed.

(** Beyond the largest double the rounding step yields [Infinity]. *)
Lemma binary_round_aux_over N D e :
  0 <= N -> 0 < D -> 2 ^ 52 <= N / D -> -1074 <= e ->
  970 < e + (Zdigits2 (N / D) - 53) ->
  above (2 ^ 53) (binary_round_aux 53 1024 false (N / D) e (loc_of N D)).
Proof.
  intros HN HD Hm He Hhi.
  set (m := N / D) in *. set (d := Zdigits2 m) in *.
  assert (Hm0 : 0 < m) by (pose proof (Z.pow_pos_nonneg 2 52); lia).
  pose proof (Zdigits2_bounds m Hm0) as Hdb. fold d in Hdb.
  assert (Hd : 53 <= d).
  { destruct (Z_lt_le_dec d 53) as [Hlt | ]; [exfalso | assumption].
    assert (2 ^ d <= 2 ^ 52) by (apply Z.pow_le_mono_r; lia). lia. }
  set (n := d - 53) in *.
  assert (Hp : 0 < 2 ^ n) by (apply Z.pow_pos_nonneg; lia).
  unfold binary_round_aux, shr_fexp. fold m. fold d.
  rewrite fexp_normal by lia.
  replace (d + e - 53 - e) with n by lia.
  pose proof (shr_rep N D (shr_record_of_loc m (loc_of N D)) e n HN HD ltac:(lia)
                (rep_of_loc N D)) as [Hrep Hsnd].
  destruct (shr (shr_record_of_loc m (loc_of N D)) e n) as [mrs' e'].
  cbn [fst snd] in Hrep, Hsnd. subst e'.
  rewrite (round_rep _ _ _ Hrep).
  assert (Hq : N / (D * 2 ^ n) = m / 2 ^ n) by (unfold m; rewrite Z.div_div by lia; reflexivity).
  pose proof (div_pow2_bounds m d Hd Hdb) as Hqb. fold n in Hqb. rewrite <- Hq in Hqb.
  set (D' := D * 2 ^ n) in *.
  assert (HD' : 0 < D') by (unfold D'; nia).
  assert (HM : 2 ^ 52 <= rne N D' <= 2 ^ 53).
  { destruct (rne_cases N D' HD' HN) as [[-> _] | [-> _]]; lia. }
  set (M := rne N D') in *.
  destruct (Z.eq_dec M (2 ^ 53)) as [EM | NM].
  - rewrite EM. cbn [Zdigits2]. change (Zdigits2 (2 ^ 53)) with 54.
    rewrite fexp_normal by lia.
    replace (54 + (e + n) - 53 - (e + n)) with 1 by lia.
    cbn -[Z.leb Z.add].
    destruct (Z.leb_spec (e + n + 1) (1024 - 53)); [lia | left; reflexivity].
  - assert (HdM : Zdigits2 M = 53) by (apply Zdigits2_unique; [lia | ]; change (53 - 1) with 52; lia).
    rewrite HdM. rewrite fexp_normal by lia.
    replace (53 + (e + n) - 53 - (e + n)) with 0 by lia.
    cbn [shr shr_record_of_loc shr_m].
    destruct M as [ | p | p] eqn:EMp; try (pose proof (Z.pow_pos_nonneg 2 52); lia).
    destruct (Z.leb_spec (e + n) (1024 - 53)); [ | left; reflexivity].
    apply (canon_above _ (Zpos p) (e + n)).
    + split; [reflexivity | ]. split; lia.
    + unfold fval. replace (e + n) with 971 by lia.
      change (2 ^ (971 + 1074)) with (2 ^ 971 * 2 ^ 1074).
      assert (0 < 2 ^ 1074) by (apply pow2_pos; lia).
      assert (2 <= 2 ^ 971) by (change 2 with (2 ^ 1) at 1; apply Z.pow_le_mono_r; lia).
      change (2 ^ 53) with (2 ^ 52 * 2). nia.
Qed.

(** [binary_round] first aligns the mantissa to 53 digits. *)
Lemma binary_round_align p e :
  -1074 <= e -> -1074 <= Zpos (digits2_pos p) + e - 53 ->
  exists N e',
    binary_round 53 1024 false p e = binary_round_aux 53 1024 false N e' loc_Exact /\
    2 ^ 52 <= N /\ -1074 <= e' /\
    N * 2 ^ (e' + 1074) = Zpos p * 2 ^ (e + 1074) /\
    e' + (Zdigits2 N - 53) = Zpos (digits2_pos p) + e - 53.
Proof.
  intros He HE. unfold binary_round.
  pose proof (digits2_pos_bounds p) as Hd.
  set (d := Zpos (digits2_pos p)) in *.
  assert (Hd1 : 1 <= d) by (unfold d; lia).
  rewrite fexp_normal by lia. unfold shl_align.
  destruct (d + e - 53 - e) as [ | q | q] eqn:Hs.
  - exists (Zpos p), e. assert (d = 53) by lia.
    split; [reflexivity | ]. split; [ | split; [lia | split; [reflexivity | ]]].
    + replace (d - 1) with 52 in Hd by lia. lia.
    + change (Zdigits2 (Zpos p)) with d. lia.
  - exists (Zpos p), e. assert (53 <= d) by lia.
    split; [reflexivity | ]. split; [ | split; [lia | split; [reflexivity | ]]].
    + assert (2 ^ 52 <= 2 ^ (d - 1)) by (apply Z.pow_le_mono_r; lia). lia.
    + change (Zdigits2 (Zpos p)) with d. lia.
  - exists (Zpos (Pos.iter xO p q)), (d + e - 53).
    assert (Hq : Zpos q = 53 - d) by lia.
    assert (Hp : 0 < 2 ^ (53 - d)) by (apply pow2_pos; lia).
    assert (E1 : 2 ^ 52 = 2 ^ (d - 1) * 2 ^ (53 - d)).
    { rewrite <- pow2_split by lia. f_equal. lia. }
    assert (E2 : 2 ^ 53 = 2 ^ d * 2 ^ (53 - d)).
    { rewrite <- pow2_split by lia. f_equal. lia. }
    rewrite iter_xO, Hq.
    assert (HN : 2 ^ 52 <= Zpos p * 2 ^ (53 - d) < 2 ^ 53) by nia.
    split; [reflexivity | ]. split; [lia | ]. split; [lia | ]. split.
    + replace (e + 1074) with ((53 - d) + (d + e - 53 + 1074)) by lia.
      rewrite (pow2_split (53 - d)) by lia. ring.
    + rewrite (Zdigits2_unique _ 53); [lia | lia | exact HN].
Qed.

(** The digits of a mantissa, from the size of the value. *)
Lemma digits_of_value m e lo hi :
  0 < m -> -1074 <= e ->
  2 ^ (lo + 1074) <= m * 2 ^ (e + 1074) < 2 ^ (hi + 1074) ->
  -1074 <= lo -> -1074 <= hi ->
  lo < Zdigits2 m + e <= hi.
Proof.
  intros Hm He [Hlo Hhi] Hl Hh.
  pose proof (Zdigits2_bounds m Hm) as Hd. set (d := Zdigits2 m) in *.
  assert (Hd1 : 1 <= d).
  { destruct (Z_lt_le_dec d 1); [ | assumption]. exfalso.
    assert (2 ^ d <= 2 ^ 0) by (apply Z.pow_le_mono_r; lia).
    change (2 ^ 0) with 1 in *. lia. }
  assert (P : 0 < 2 ^ (e + 1074)) by (apply pow2_pos; lia).
  assert (U : m * 2 ^ (e + 1074) < 2 ^ (d + (e + 1074))).
  { rewrite (pow2_split d) by lia. nia. }
  assert (L : 2 ^ ((d - 1) + (e + 1074)) <= m * 2 ^ (e + 1074)).
  { rewrite (pow2_split (d - 1)) by lia. nia. }
  split.
  - destruct (Z_lt_le_dec lo (d + e)); [assumption | exfalso].
    assert (2 ^ (d + (e + 1074)) <= 2 ^ (lo + 1074)) by (apply Z.pow_le_mono_r; lia). lia.
  - destruct (Z_le_gt_dec (d + e) hi); [assumption | exfalso].
    assert (2 ^ (hi + 1074) <= 2 ^ ((d - 1) + (e + 1074))) by (apply Z.pow_le_mono_r; lia). lia.
Qed.

Lemma of_int_holds v : 1 <= v < 2 ^ 53 -> holds (Number.of_int v) (v * 2 ^ 1074).
Proof.
  intros Hv. destruct (of_int_spec v Hv) as (M & E & Hc & Hf & _).
  exists M, E. split; assumption.
Qed.

(** A rounding of a whole number below [2^53] is that number. *)
Lemma rounds_at_int v E x :
  1 <= v < 2 ^ 53 -> rounds_at (v * 2 ^ 1074) 1 E x -> x = Number.of_int v.
Proof.
  intros Hv Hr. destruct (of_int_spec v Hv) as (M & E0 & (-> & HM & HE0) & Hf & _).
  rewrite <- Hf in Hr. pose proof Hr as (HE & Hb & _).
  assert (E = E0).
  { unfold fval in Hb. rewrite !Z.mul_1_l in Hb.
    assert (0 < 2 ^ 52) by (apply pow2_pos; lia).
    assert (P1 : 0 < 2 ^ (E + 1074)) by (apply pow2_pos; lia).
    assert (P2 : 0 < 2 ^ (E0 + 1074)) by (apply pow2_pos; lia).
    change (2 ^ 53) with (2 * 2 ^ 52) in *.
    destruct (Z.lt_trichotomy E E0) as [Hlt | [-> | Hgt]]; [exfalso | reflexivity | exfalso].
    - pose proof (pow2_lt_double (E + 1074) (E0 + 1074) ltac:(lia)). nia.
    - pose proof (pow2_lt_double (E0 + 1074) (E + 1074) ltac:(lia)). nia. }
  subst E. apply (rounds_at_exact M E0 x HM Hr).
Qed.


(** The rounding step on a mantissa of 53 digits or more. *)
Lemma round_exact_int N e v :
  2 ^ 52 <= N -> -1074 <= e -> 1 <= v < 2 ^ 53 ->
  N * 2 ^ (e + 1074) = v * 2 ^ 1074 ->
  binary_round_aux 53 1024 false N e loc_Exact = Number.of_int v.
Proof.
  intros HN He Hv Hm.
  assert (H52 : 0 < 2 ^ 52) by (apply pow2_pos; lia).
  assert (Hd : 0 < Zdigits2 N + e <= 53) by (apply digits_of_value; lia).
  pose proof (round_exact_spec N e HN He ltac:(lia)) as Hr.
  rewrite Hm in Hr. apply (rounds_at_int v _ _ Hv Hr).
Qed.

Lemma rounds_at_above A E x K :
  2 ^ 52 <= K <= 2 ^ 53 -> rounds_at A 1 E x -> K * 2 ^ 1074 <= A -> above K x.
Proof.
  intros HK Hr HA.
  assert (Q : 0 < 2 ^ 1074) by (apply pow2_pos; lia).
  assert (H52 : 0 < 2 ^ 52) by (apply pow2_pos; lia).
  destruct (rounds_at_canon _ 1 _ _ ltac:(lia) Hr) as (M' & E' & Hc & Hv & HE').
  pose proof (rounds_at_rne_bounds _ 1 _ _ ltac:(lia) Hr) as HM.
  destruct Hr as (HE & Hb & _).
  apply (canon_above _ M' E' K Hc). rewrite Hv. clear Hc Hv.
  assert (PE : 0 < 2 ^ (E + 1074)) by (apply pow2_pos; lia).
  rewrite Z.mul_1_l in *. unfold fval.
  change (2 ^ 53) with (2 * 2 ^ 52) in *.
  destruct (Z.lt_trichotomy E 0) as [Hneg | [E0 | Hpos]].
  - exfalso. pose proof (pow2_lt_double (E + 1074) 1074 ltac:(lia)). nia.
  - rewrite E0 in *. change (2 ^ (0 + 1074)) with (2 ^ 1074) in *.
    apply Z.mul_le_mono_nonneg_r; [lia | ].
    rewrite <- (rne_exact K (2 ^ 1074)) by lia.
    apply rne_mono; lia.
  - pose proof (pow2_lt_double 1074 (E + 1074) ltac:(lia)). nia.
Qed.

Lemma round_exact_above N e K :
  2 ^ 52 <= N -> -1074 <= e -> 2 ^ 52 <= K <= 2 ^ 53 ->
  K * 2 ^ 1074 <= N * 2 ^ (e + 1074) ->
  above K (binary_round_aux 53 1024 false N e loc_Exact).
Proof.
  intros HN He HK Hm.
  destruct (Z_le_gt_dec (e + (Zdigits2 N - 53)) 970) as [Hle | Hgt].
  - pose proof (round_exact_spec N e HN He Hle) as Hr.
    apply (rounds_at_above _ _ _ K HK Hr Hm).
  - pose proof (binary_round_aux_over N 1 e ltac:(lia) ltac:(lia)) as Hr.
    rewrite Z.div_1_r, loc_of_1 in Hr.
    apply (above_weaken (2 ^ 53)); [lia | apply Hr; lia].
Qed.

(** [binary_normalize] rounds the value [m * 2^e] it is given. *)
Lemma normalize_align m e :
  -1074 <= e -> 2 ^ 1074 <= m * 2 ^ (e + 1074) ->
  exists N e',
    binary_normalize 53 1024 m e false = binary_round_aux 53 1024 false N e' loc_Exact /\
    2 ^ 52 <= N /\ -1074 <= e' /\ N * 2 ^ (e' + 1074) = m * 2 ^ (e + 1074).
Proof.
  intros He Hm.
  assert (P : 0 < 2 ^ (e + 1074)) by (apply pow2_pos; lia).
  assert (Q : 0 < 2 ^ 1074) by (apply pow2_pos; lia).
  assert (Hm0 : 0 < m) by nia.
  destruct m as [ | p | p]; try lia. cbn [binary_normalize].
  assert (Hd : 0 < Zdigits2 (Zpos p) + e).
  { destruct (Z_lt_le_dec 0 (Zdigits2 (Zpos p) + e)); [assumption | exfalso].
    pose proof (Zdigits2_bounds (Zpos p) Hm0) as Hdb.
    assert (Hd0 : 0 <= Zdigits2 (Zpos p)) by (cbn; lia).
    assert (U : Zpos p * 2 ^ (e + 1074) < 2 ^ (Zdigits2 (Zpos p) + (e + 1074))).
    { rewrite (pow2_split (Zdigits2 (Zpos p))) by lia. nia. }
    assert (2 ^ (Zdigits2 (Zpos p) + (e + 1074)) <= 2 ^ 1074)
      by (apply Z.pow_le_mono_r; lia).
    lia. }
  change (Zdigits2 (Zpos p)) with (Zpos (digits2_pos p)) in Hd.
  destruct (binary_round_align p e He ltac:(lia)) as (N & e' & -> & HN & He' & Hv & _).
  exists N, e'. auto.
Qed.

Lemma normalize_exact m e v :
  -1074 <= e -> 1 <= v < 2 ^ 53 -> m * 2 ^ (e + 1074) = v * 2 ^ 1074 ->
  binary_normalize 53 1024 m e false = Number.of_int v.
Proof.
  intros He Hv Hm.
  assert (Q : 0 < 2 ^ 1074) by (apply pow2_pos; lia).
  destruct (normalize_align m e He ltac:(nia)) as (N & e' & -> & HN & He' & Hval).
  apply round_exact_int; try assumption. lia.
Qed.

Lemma normalize_above m e K :
  -1074 <= e -> 2 ^ 52 <= K <= 2 ^ 53 -> K * 2 ^ 1074 <= m * 2 ^ (e + 1074) ->
  above K (binary_normalize 53 1024 m e false).
Proof.
  intros He HK Hm.
  assert (Q : 0 < 2 ^ 1074) by (apply pow2_pos; lia).
  assert (H52 : 1 <= 2 ^ 52) by (pose proof (pow2_pos 52); lia).
  destruct (normalize_align m e He ltac:(nia)) as (N & e' & -> & HN & He' & Hval).
  apply round_exact_above; try assumption. lia.
Qed.

Lemma of_int_above v : 2 ^ 53 <= v -> above (2 ^ 53) (Number.of_int v).
Proof.
  intros Hv. unfold Number.of_int, Number.prec, Number.emax.
  apply normalize_above; [lia | lia | ].
  change (0 + 1074) with 1074.
  assert (Q : 0 < 2 ^ 1074) by (apply pow2_pos; lia). nia.
Qed.

(** The rounding of a negative number mirrors that of its opposite. *)
Lemma binary_round_aux_opp m e l :
  binary_round_aux 53 1024 true m e l = SFopp (binary_round_aux 53 1024 false m e l).
Proof.
  unfold binary_round_aux.
  destruct (shr_fexp 53 1024 m e l) as [mrs' e'].
  destruct (shr_fexp 53 1024 _ e' loc_Exact) as [mrs'' e''].
  destruct (shr_m mrs''); [reflexivity | | reflexivity].
  destruct (e'' <=? 1024 - 53); reflexivity.
Qed.

Lemma of_int_opp v : 0 < v -> Number.of_int (- v) = SFopp (Number.of_int v).
Proof.
  intros Hv. destruct v as [ | p | p]; try lia.
  unfold Number.of_int, Number.prec, Number.emax.
  change (- Zpos p) with (Zneg p). cbn [binary_normalize].
  unfold binary_round.
  destruct (shl_align p 0 _) as [mz ez]. apply binary_round_aux_opp.
Qed.

(** ** The operands of [+], [-] and [*], aligned *)

Lemma shl_align_value mx ex ez :
  ez <= ex -> Zpos (fst (shl_align mx ex ez)) = Zpos mx * 2 ^ (ex - ez).
Proof.
  intros H. unfold shl_align. destruct (ez - ex) as [ | d | d] eqn:Hd; try lia.
  - cbn [fst]. replace (ex - ez) with 0 by lia. lia.
  - cbn [fst]. rewrite iter_xO. f_equal. f_equal. lia.
Qed.

Lemma aligned_units m ex ez :
  -1074 <= ez <= ex -> m * 2 ^ (ex - ez) * 2 ^ (ez + 1074) = m * 2 ^ (ex + 1074).
Proof.
  intros H. rewrite <- Z.mul_assoc, <- pow2_split by lia. do 2 f_equal. lia.
Qed.

Lemma add_value x y Vx Vy :
  holds x Vx -> holds y Vy ->
  exists m e, Number.add x y = binary_normalize 53 1024 m e false /\
    -1074 <= e /\ m * 2 ^ (e + 1074) = Vx + Vy.
Proof.
  intros (Mx & Ex & (-> & HMx & HEx) & <-) (My & Ey & (-> & HMy & HEy) & <-).
  assert (H52 : 0 < 2 ^ 52) by (apply pow2_pos; lia).
  unfold Number.add, Number.prec, Number.emax, SFadd. cbn [cond_Zopp].
  rewrite !shl_align_value, !Z2Pos.id by lia.
  eexists _, _. split; [reflexivity | ]. split; [lia | ].
  rewrite Z.mul_add_distr_r, !aligned_units by lia. reflexivity.
Qed.

Lemma sub_value x y Vx Vy :
  holds x Vx -> holds y Vy ->
  exists m e, Number.sub x y = binary_normalize 53 1024 m e false /\
    -1074 <= e /\ m * 2 ^ (e + 1074) = Vx - Vy.
Proof.
  intros (Mx & Ex & (-> & HMx & HEx) & <-) (My & Ey & (-> & HMy & HEy) & <-).
  assert (H52 : 0 < 2 ^ 52) by (apply pow2_pos; lia).
  unfold Number.sub, Number.prec, Number.emax, SFsub. cbn [cond_Zopp].
  rewrite !shl_align_value, !Z2Pos.id by lia.
  eexists _, _. split; [reflexivity | ]. split; [lia | ].
  rewrite Z.mul_sub_distr_r, !aligned_units by lia. reflexivity.
Qed.

(** The exponent of a double that is 1 or more. *)
Lemma canon_exponent M E : 
  2 ^ 52 <= M < 2 ^ 53 -> -1074 <= E -> 2 ^ 1074 <= fval M E -> -52 <= E.
Proof.
  intros HM HE Hv. unfold fval in Hv.
  destruct (Z_le_gt_dec (-52) E); [assumption | exfalso].
  assert (H52 : 0 < 2 ^ 52) by (apply pow2_pos; lia).
  assert (P : 0 < 2 ^ (E + 1074)) by (apply pow2_pos; lia).
  assert (2 ^ (E + 1074) <= 2 ^ 1021) by (apply Z.pow_le_mono_r; lia).
  change (2 ^ 1074) with (2 ^ 53 * 2 ^ 1021) in Hv. nia.
Qed.

Lemma mul_value x y Vx Vy :
  holds x Vx -> holds y Vy -> 2 ^ 1074 <= Vx -> 2 ^ 1074 <= Vy ->
  exists N e, Number.mul x y = binary_round_aux 53 1024 false N e loc_Exact /\
    2 ^ 52 <= N /\ -1074 <= e /\ N * 2 ^ (e + 1074) * 2 ^ 1074 = Vx * Vy.
Proof.
  intros (Mx & Ex & (-> & HMx & HEx) & <-) (My & Ey & (-> & HMy & HEy) & <-) Hx Hy.
  assert (H52 : 0 < 2 ^ 52) by (apply pow2_pos; lia).
  pose proof (canon_exponent Mx Ex HMx ltac:(lia) Hx).
  pose proof (canon_exponent My Ey HMy ltac:(lia) Hy).
  unfold Number.mul, Number.prec, Number.emax, SFmul. cbn [xorb].
  rewrite Pos2Z.inj_mul, !Z2Pos.id by lia.
  exists (Mx * My), (Ex + Ey). split; [reflexivity | ]. split; [nia | ]. split; [lia | ].
  unfold fval.
  assert (Hp : 2 ^ (Ex + Ey + 1074) * 2 ^ 1074 = 2 ^ (Ex + 1074) * 2 ^ (Ey + 1074)).
  { rewrite <- !pow2_split by lia. f_equal. lia. }
  rewrite <- (Z.mul_assoc (Mx * My)), Hp. ring.
Qed.

(** ** Whole numbers below [2^53], and the doubles beyond *)

Lemma add_ints a b :
  1 <= a -> 1 <= b -> a + b < 2 ^ 53 ->
  Number.add (Number.of_int a) (Number.of_int b) = Number.of_int (a + b).
Proof.
  intros Ha Hb Hab.
  destruct (add_value _ _ _ _ (of_int_holds a ltac:(lia)) (of_int_holds b ltac:(lia)))
    as (m & e & -> & He & Hm).
  apply normalize_exact; [exact He | lia | lia].
Qed.

Lemma add_big a b :
  1 <= a < 2 ^ 53 -> 1 <= b < 2 ^ 53 -> 2 ^ 53 <= a + b ->
  above (2 ^ 53) (Number.add (Number.of_int a) (Number.of_int b)).
Proof.
  intros Ha Hb Hab.
  destruct (add_value _ _ _ _ (of_int_holds a ltac:(lia)) (of_int_holds b ltac:(lia)))
    as (m & e & -> & He & Hm).
  apply normalize_above; [exact He | lia | ].
  assert (Q : 0 < 2 ^ 1074) by (apply pow2_pos; lia). nia.
Qed.

Lemma add_above K x b :
  2 ^ 52 <= K <= 2 ^ 53 -> above K x -> 1 <= b < 2 ^ 53 ->
  above K (Number.add x (Number.of_int b)).
Proof.
  intros HK [-> | (V & HV & Hle)] Hb.
  - destruct (of_int_holds b Hb) as (M & E & (-> & _) & _). left. reflexivity.
  - destruct (add_value _ _ _ _ HV (of_int_holds b Hb)) as (m & e & -> & He & Hm).
    apply normalize_above; [exact He | exact HK | ].
    assert (Q : 0 < 2 ^ 1074) by (apply pow2_pos; lia). nia.
Qed.

Lemma sub_ints a b :
  1 <= b < a -> a < 2 ^ 53 ->
  Number.sub (Number.of_int a) (Number.of_int b) = Number.of_int (a - b).
Proof.
  intros Hb Ha.
  destruct (sub_value _ _ _ _ (of_int_holds a ltac:(lia)) (of_int_holds b ltac:(lia)))
    as (m & e & -> & He & Hm).
  apply normalize_exact; [exact He | lia | lia].
Qed.

Lemma sub_one_above x :
  above (2 ^ 53) x -> above (2 ^ 53 - 1) (Number.sub x (Number.of_int 1)).
Proof.
  intros [-> | (V & HV & Hle)].
  - left. reflexivity.
  - destruct (sub_value _ _ _ _ HV (of_int_holds 1 ltac:(lia))) as (m & e & -> & He & Hm).
    apply normalize_above; [exact He | lia | ].
    assert (Q : 0 < 2 ^ 1074) by (apply pow2_pos; lia). nia.
Qed.

Lemma mul_ints a b :
  1 <= a -> 1 <= b -> a * b < 2 ^ 53 ->
  Number.mul (Number.of_int a) (Number.of_int b) = Number.of_int (a * b).
Proof.
  intros Ha Hb Hab.
  assert (Q : 0 < 2 ^ 1074) by (apply pow2_pos; lia).
  destruct (mul_value _ _ _ _ (of_int_holds a ltac:(nia)) (of_int_holds b ltac:(nia))
              ltac:(nia) ltac:(nia)) as (N & e & -> & HN & He & Hm).
  apply round_exact_int; [exact HN | exact He | nia | ].
  apply (Z.mul_reg_r _ _ (2 ^ 1074)); [lia | ]. rewrite Hm. ring.
Qed.

Lemma mul_big a b :
  1 <= a < 2 ^ 53 -> 1 <= b < 2 ^ 53 -> 2 ^ 53 <= a * b ->
  above (2 ^ 53) (Number.mul (Number.of_int a) (Number.of_int b)).
Proof.
  intros Ha Hb Hab.
  assert (Q : 0 < 2 ^ 1074) by (apply pow2_pos; lia).
  destruct (mul_value _ _ _ _ (of_int_holds a Ha) (of_int_holds b Hb)
              ltac:(nia) ltac:(nia)) as (N & e & -> & HN & He & Hm).
  apply round_exact_above; [exact HN | exact He | lia | ].
  apply (Z.mul_le_mono_pos_r _ _ (2 ^ 1074)); [lia | ]. rewrite Hm. nia.
Qed.

Lemma mul_above K x b :
  2 ^ 52 <= K <= 2 ^ 53 -> above K x -> 1 <= b < 2 ^ 53 ->
  above K (Number.mul x (Number.of_int b)).
Proof.
  intros HK [-> | (V & HV & Hle)] Hb.
  - destruct (of_int_holds b Hb) as (M & E & (-> & _) & _). left. reflexivity.
  - assert (Q : 0 < 2 ^ 1074) by (apply pow2_pos; lia).
    assert (H52 : 0 < 2 ^ 52) by (apply pow2_pos; lia).
    destruct (mul_value _ _ _ _ HV (of_int_holds b Hb) ltac:(nia) ltac:(nia))
      as (N & e & -> & HN & He & Hm).
    apply round_exact_above; [exact HN | exact He | exact HK | ].
    apply (Z.mul_le_mono_pos_r _ _ (2 ^ 1074)); [lia | ]. rewrite Hm. nia.
Qed.

(* ================================================================== *)
(** * Facts about the workers and the API *)
(* ================================================================== *)

Lemma quiet_refl st : quiet st st.
Proof. repeat split. Qed.

Lemma quiet_trans a b c : quiet a b -> quiet b c -> quiet a c.
Proof.
  intros (H1 & H2 & H3 & H4 & H5 & H6 & H7) (G1 & G2 & G3 & G4 & G5 & G6 & G7).
  repeat split; congruence.
Qed.

Lemma write_log_run s ev st :
  write_log s ev st
  = (Ret tt, {| results := results st;
                world := with_log (log (world st) ++ [(s, ev)]) (world st) |}).
Proof. reflexivity. Qed.

Lemma write_log_quiet s ev st : quiet st (snd (write_log s ev st)).
Proof. repeat split. Qed.

Lemma tenth_step p : (S p mod 10 = 0 -> S p / 10 = S (p / 10))%nat.
Proof.
  intros H. pose proof (Nat.div_mod_eq (S p) 10) as E1.
  pose proof (Nat.div_mod_eq p 10) as E2.
  pose proof (Nat.mod_upper_bound p 10 ltac:(lia)) as B. lia.
Qed.

Lemma tenth_mono p q : (p <= q -> p / 10 <= q / 10)%nat.
Proof. intros H. apply Nat.Div0.div_le_mono. exact H. Qed.

Lemma In_drop {A} (x : A) k l : In x (drop k l) -> In x l.
Proof.
  revert l. induction k as [ | k IH]; intros [ | y l]; cbn; auto.
Qed.

Lemma clean_tape_drop k l : clean_tape l -> clean_tape (drop k l).
Proof. unfold clean_tape. apply Forall_drop. Qed.


Lemma for_of_cons {A} (x : A) xs (body : A -> M unit) st :
  for_of (x :: xs) body st
  = match body x st with
    | (Ret _, st') => for_of xs body st'
    | (Throw e, st') => (Throw e, st')
    end.
Proof. reflexivity. Qed.

Section HandlerFacts.

Variable parse : jsstring -> M (list (gmap (list N) value)).
Variable processRecord : gmap (list N) value -> Z -> M processed_record.
Variable outcome : gmap (list N) File -> jsstring -> result (list (gmap (list N) value)).

Hypothesis parse_outcome : forall path st,
  fst (parse path st) = outcome (files (world st)) path.
Hypothesis parse_quiet : forall path st,
  quiet st (snd (parse path st)) /\
  io_faults (world (snd (parse path st))) = io_faults (world st).
Hypothesis outcome_file : forall fs path rs,
  outcome fs path = Ret rs -> is_Some (fs !! path).
Hypothesis processRecord_quiet : forall r jobId st,
  quiet st (snd (processRecord r jobId st)).

(** One record.  When [processRecord] returns, the record is stored and
    [processed] goes up; [failed] goes up as well when the progress
    message is due and writing it throws.  When [processRecord] throws,
    [failed] goes up.  The attempt throws only when writing the error
    entry does. *)
Lemma attempt_record_spec jobId r st :
  exists out st1, attempt_record processRecord jobId r st = (out, st1) /\
    files (world st1) = files (world st) /\
    job (world st1) = job (world st) /\
    emitted (world st1) = emitted (world st) /\
    progress_faults (world st1) = progress_faults (world st) /\
    now (world st1) = now (world st) /\
    io_faults (world st1) = io_faults (world (snd (processRecord r jobId st))) /\
    total (results st1) = total (results st) /\
    (exists k, handler_faults (world st1) = drop k (handler_faults (world st))) /\
    (forall e, out = Throw e -> In (Some e) (handler_faults (world st))) /\
    match fst (processRecord r jobId st) with
    | Ret pr =>
        records (results st1) = records (results st) ++ [pr] /\
        summary (results st1) = collect_stats (data pr) (summary (results st)) /\
        processed (results st1) = S (processed (results st)) /\
        ((failed (results st1) = failed (results st) /\ out = Ret tt)
         \/ (failed (results st1) = S (failed (results st)) /\
             (S (processed (results st)) mod 10 = 0)%nat /\
             exists e rest, handler_faults (world st) = Some e :: rest))
    | Throw e =>
        records (results st1) = records (results st) /\
        summary (results st1) = summary (results st) /\
        processed (results st1) = processed (results st) /\
        failed (results st1) = S (failed (results st)) /\
        match handler_faults (world st) with
        | Some e2 :: _ => out = Throw e2
        | _ => out = Ret tt /\
               log (world st1) = log (world (snd (processRecord r jobId st)))
                                 ++ [(LoggerError, FailedToProcessRecord e r)]
        end
    end.
Proof.
  pose proof (processRecord_quiet r jobId st) as (Q1 & Q2 & Q3 & Q4 & Q5 & Q6 & Q7).
  unfold attempt_record, try_catch. unfold bind at 1.
  destruct (processRecord r jobId st) as [[pr | e] st'] eqn:Hp; cbn [fst snd] in *;
    rewrite <- Q7; clear Q7.
  - unfold bind at 1 2 3 4. unfold modify_results, get_results. cbn [results world].
    rewrite Q1.
    set (res1 := add_stats pr (push_record pr (incr_processed (results st)))).
    assert (Hproc : processed res1 = S (processed (results st))) by reflexivity.
    destruct (processed res1 mod 10 =? 0)%nat eqn:Hmod.
    + apply Nat.eqb_eq in Hmod. rewrite Hproc in Hmod.
      unfold bind, handler_point, write_log, modify_world, modify_results. cbn [results world].
      destruct (handler_faults (world st')) as [ | [e2 | ] rest] eqn:Hh; cbn [results world].
      * eexists _, _. split; [reflexivity | ]. cbn.
        repeat split; try assumption.
        -- exists O. exact Hh.
        -- discriminate.
        -- left. split; reflexivity.
      * cbn [handler_faults with_handler_faults].
        destruct rest as [ | [e3 | ] rest']; cbn [results world].
        -- eexists _, _. split; [reflexivity | ]. cbn.
           repeat split; try assumption.
           ++ exists 1%nat. reflexivity.
           ++ discriminate.
           ++ right. repeat split; [exact Hmod | eauto].
        -- eexists _, _. split; [reflexivity | ]. cbn.
           repeat split; try assumption.
           ++ exists 2%nat. reflexivity.
           ++ intros e0 E. injection E as <-. right. left. reflexivity.
           ++ right. repeat split; [exact Hmod | eauto].
        -- eexists _, _. split; [reflexivity | ]. cbn.
           repeat split; try assumption.
           ++ exists 2%nat. reflexivity.
           ++ discriminate.
           ++ right. repeat split; [exact Hmod | eauto].
      * eexists _, _. split; [reflexivity | ]. cbn.
        repeat split; try assumption.
        -- exists 1%nat. reflexivity.
        -- discriminate.
        -- left. split; reflexivity.
    + unfold ret. eexists _, _. split; [reflexivity | ]. cbn.
      repeat split; try assumption.
      * exists O. reflexivity.
      * discriminate.
      * left. split; reflexivity.
  - unfold bind, handler_point, write_log, modify_world, modify_results. cbn [results world].
    rewrite Q1.
    destruct (handler_faults (world st')) as [ | [e2 | ] rest] eqn:Hh; cbn [results world].
    + eexists _, _. split; [reflexivity | ]. cbn.
      repeat split; try assumption.
      * exists O. exact Hh.
      * discriminate.
    + eexists _, _. split; [reflexivity | ]. cbn.
      repeat split; try assumption.
      * exists 1%nat. reflexivity.
      * intros e0 E. injection E as <-. left. reflexivity.
    + eexists _, _. split; [reflexivity | ]. cbn.
      repeat split; try assumption.
      * exists 1%nat. reflexivity.
      * discriminate.
Qed.


Lemma report_progress_spec st :
  let p := progress_percent (Z.of_nat (attempted (results st)))
                            (Z.of_nat (total (results st))) in
  exists out st2, report_progress st = (out, st2) /\
    results st2 = results st /\
    files (world st2) = files (world st) /\
    now (world st2) = now (world st) /\
    io_faults (world st2) = io_faults (world st) /\
    handler_faults (world st2) = handler_faults (world st) /\
    (exists k, progress_faults (world st2) = drop k (progress_faults (world st))) /\
    match out with
    | Ret _ =>
        emitted (world st2) = emitted (world st) ++ [p] /\
        job (world st2) = Bull.set_progress p (job (world st))
    | Throw e =>
        emitted (world st2) = emitted (world st) /\
        job (world st2) = job (world st) /\
        In (Some e) (progress_faults (world st))
    end.
Proof.
  intros p. subst p.
  unfold report_progress, bind, get_results, job_progress, attempted.
  destruct (progress_faults (world st)) as [ | [e | ] rest] eqn:Hf; cbn [results world].
  - eexists _, _. split; [reflexivity | ]. cbn.
    repeat split. exists O. reflexivity.
  - eexists _, _. split; [reflexivity | ]. cbn.
    repeat split; [exists 1%nat; reflexivity | ]. left. reflexivity.
  - eexists _, _. split; [reflexivity | ]. cbn.
    repeat split. exists 1%nat. reflexivity.
Qed.

(** One turn of the loop: the attempt, then the progress report. *)
Lemma record_step_spec jobId r st :
  exists out st2, record_step processRecord jobId r st = (out, st2) /\
    files (world st2) = files (world st) /\
    now (world st2) = now (world st) /\
    total (results st2) = total (results st) /\
    io_faults (world st2) = io_faults (world (snd (processRecord r jobId st))) /\
    (exists k, handler_faults (world st2) = drop k (handler_faults (world st))) /\
    (exists k, progress_faults (world st2) = drop k (progress_faults (world st))) /\
    (processed (results st) <= processed (results st2) <= S (processed (results st)))%nat /\
    (failed (results st) <= failed (results st2))%nat /\
    length (records (results st2))
    = (length (records (results st))
       + (processed (results st2) - processed (results st)))%nat /\
    (attempted (results st) < attempted (results st2) <= attempted (results st) + 2)%nat /\
    (attempted (results st2) + processed (results st) / 10
     <= attempted (results st) + 1 + processed (results st2) / 10)%nat /\
    (clean_tape (handler_faults (world st)) ->
     attempted (results st2) = S (attempted (results st))) /\
    match out with
    | Ret _ =>
        let p := progress_percent (Z.of_nat (attempted (results st2)))
                                  (Z.of_nat (total (results st))) in
        emitted (world st2) = emitted (world st) ++ [p] /\
        job (world st2) = Bull.set_progress p (job (world st))
    | Throw e =>
        emitted (world st2) = emitted (world st) /\
        job (world st2) = job (world st) /\
        (In (Some e) (handler_faults (world st))
         \/ In (Some e) (progress_faults (world st)))
    end.
Proof.
  unfold record_step. unfold bind at 1.
  destruct (attempt_record_spec jobId r st)
    as (out1 & st1 & Hrun & Hf & Hj & He & Hpf & Hn & Hio & Ht & Hh & Hthrow & Hres).
  rewrite Hrun.
  assert (Hc : (processed (results st) <= processed (results st1)
                <= S (processed (results st)))%nat /\
               (failed (results st) <= failed (results st1))%nat /\
               length (records (results st1))
               = (length (records (results st))
                  + (processed (results st1) - processed (results st)))%nat /\
               (attempted (results st) < attempted (results st1)
                <= attempted (results st) + 2)%nat /\
               (attempted (results st1) + processed (results st) / 10
                <= attempted (results st) + 1 + processed (results st1) / 10)%nat /\
               (clean_tape (handler_faults (world st)) ->
                attempted (results st1) = S (attempted (results st)))).
  { unfold attempted.
    destruct (fst (processRecord r jobId st)) as [pr | e].
    - destruct Hres as (Hrec & _ & Hp & [[Hfa _] | (Hfa & Hmod & e2 & rest & Htape)]).
      + rewrite Hrec, Hp, Hfa, length_app. cbn [length].
        pose proof (tenth_mono (processed (results st)) (S (processed (results st)))
                      ltac:(lia)).
        repeat split; try lia.
      + rewrite Hrec, Hp, Hfa, length_app. cbn [length].
        rewrite (tenth_step _ Hmod).
        repeat split; try lia.
        intros Hclean. rewrite Htape in Hclean. inversion Hclean. discriminate.
    - destruct Hres as (Hrec & _ & Hp & Hfa & _). rewrite Hrec, Hp, Hfa.
      repeat split; lia. }
  destruct Hc as (C1 & C2 & C3 & C4 & C5 & C6).
  destruct out1 as [[] | e].
  - destruct (report_progress_spec st1)
      as (out2 & st2 & Hrep & R1 & R2 & R3 & R4 & R5 & R6 & R7).
    rewrite Hrep. exists out2, st2. split; [reflexivity | ].
    rewrite R1, R2, R3, R4, R5, Hf, Hn, Ht, Hio. rewrite Hpf in R6.
    repeat split; try assumption; try lia.
    destruct out2 as [[] | e].
    + cbn zeta in *. rewrite Ht, He, Hj in R7. exact R7.
    + rewrite He, Hj, Hpf in R7. destruct R7 as (? & ? & ?). auto.
  - exists (Throw e), st1. split; [reflexivity | ].
    rewrite Hf, Hn, Ht, Hio.
    repeat split; try assumption; try lia.
    + exists O. rewrite Hpf. reflexivity.
    + left. apply Hthrow. reflexivity.
Qed.


(** The loop over the records.  [cs] are the counts at which progress was
    reported. *)
Lemma loop_spec jobId recs : forall st,
  exists out st' cs,
    for_of recs (record_step processRecord jobId) st = (out, st') /\
    (length cs <= length recs)%nat /\
    emitted (world st') = emitted (world st) ++ reports (total (results st)) cs /\
    climbs (attempted (results st)) cs /\
    total (results st') = total (results st) /\
    files (world st') = files (world st) /\
    now (world st') = now (world st) /\
    job (world st')
    = match last cs with
      | None => job (world st)
      | Some c =>
          Bull.set_progress
            (progress_percent (Z.of_nat c) (Z.of_nat (total (results st))))
            (job (world st))
      end /\
    (processed (results st) <= processed (results st')
     <= processed (results st) + length recs)%nat /\
    (failed (results st) <= failed (results st'))%nat /\
    length (records (results st'))
    = (length (records (results st))
       + (processed (results st') - processed (results st)))%nat /\
    (attempted (results st) + length cs <= attempted (results st'))%nat /\
    Forall (fun c => (c <= attempted (results st'))%nat) cs /\
    (attempted (results st') + processed (results st) / 10
     <= attempted (results st) + length recs + processed (results st') / 10)%nat /\
    (clean_tape (handler_faults (world st)) ->
     cs = seq (S (attempted (results st))) (length cs) /\
     (attempted (results st') <= attempted (results st) + length cs + 1)%nat) /\
    match out with
    | Ret _ =>
        length cs = length recs /\
        last (attempted (results st) :: cs) = Some (attempted (results st'))
    | Throw e =>
        (length cs < length recs)%nat /\
        (In (Some e) (handler_faults (world st))
         \/ In (Some e) (progress_faults (world st)))
    end.
Proof.
  induction recs as [ | r recs IH]; intros st.
  - exists (Ret tt), st, []. cbn [for_of ret length reports map last].
    rewrite app_nil_r. cbn. repeat split; try lia. constructor.
  - rewrite for_of_cons.
    destruct (record_step_spec jobId r st)
      as (out1 & st2 & Hstep & Hf & Hn & Ht & Hio & (kh & Hh) & (kp & Hp)
          & C1 & C2 & C3 & C4 & C5 & C6 & Hout).
    rewrite Hstep. destruct out1 as [[] | e].
    + cbn zeta in Hout. destruct Hout as (Hem & Hjob).
      destruct (IH st2) as (out & st' & cs & Hloop & L1 & L2 & L3 & L4 & L5 & L6 & L7
                            & L8 & L9 & L10 & L11 & LF & L12 & L13 & L14).
      exists out, st', (attempted (results st2) :: cs).
      split; [exact Hloop | ].
      rewrite Ht in *.
      split; [cbn [length]; lia | ].
      split. { rewrite L2, Hem, <- app_assoc. reflexivity. }
      split. { cbn [climbs]. split; [lia | exact L3]. }
      split; [congruence | ]. split; [congruence | ]. split; [congruence | ].
      split. { rewrite L7, Hjob, last_cons. destruct (last cs); reflexivity. }
      split; [cbn [length]; lia | ]. split; [lia | ]. split; [lia | ].
      split; [cbn [length]; lia | ].
      split; [constructor; [lia | exact LF] | ].
      split; [cbn [length]; lia | ].
      split.
      { intros Hclean. specialize (C6 Hclean).
        destruct L13 as [Hcs Hle]; [rewrite Hh; apply clean_tape_drop; exact Hclean | ].
        cbn [length seq]. rewrite C6 in *. split; [f_equal; exact Hcs | lia]. }
      destruct out as [[] | e].
      * destruct L14 as [Hlen Hlast]. split; [cbn [length]; lia | ].
        rewrite last_cons. rewrite Hlast. reflexivity.
      * destruct L14 as [Hlen Hin]. split; [cbn [length]; lia | ].
        destruct Hin as [Hin | Hin]; [left; rewrite Hh in Hin | right; rewrite Hp in Hin];
          eapply In_drop; exact Hin.
    + destruct Hout as (Hem & Hjob & Hin).
      exists (Throw e), st2, []. split; [reflexivity | ].
      cbn [length reports map last climbs]. rewrite app_nil_r.
      split; [lia | ]. split; [exact Hem | ]. split; [exact I | ].
      split; [exact Ht | ]. split; [exact Hf | ]. split; [exact Hn | ].
      split; [exact Hjob | ]. split; [cbn [length]; lia | ]. split; [exact C2 | ].
      split; [exact C3 | ]. split; [lia | ]. split; [constructor | ]. split; [lia | ].
      split. { intros Hclean. specialize (C6 Hclean). split; [reflexivity | lia]. }
      split; [lia | exact Hin].
Qed.


(** When the output of every call of [processRecord] faults, the handler
    writes its error entries and no report is rejected, every record is
    counted as failed and the loop runs to its end. *)
Hypothesis processRecord_faulty : forall r jobId st e rest,
  io_faults (world st) = Some e :: rest ->
  exists e' st', processRecord r jobId st = (Throw e', st') /\
    (io_faults (world st') = io_faults (world st)
     \/ io_faults (world st') = rest).


Lemma unlinkSync_spec path st :
  is_Some (files (world st) !! path) ->
  unlinkSync path st
  = (Ret tt, {| results := results st;
                world := with_files (delete path (files (world st))) (world st) |}).
Proof. intros [f Hf]. unfold unlinkSync. rewrite Hf. reflexivity. Qed.

(** What a run of the handler leaves behind, by the outcome of parsing. *)
Lemma run_handler_spec w :
  let path := Bull.filePath (Bull.data (job w)) in
  let started := Bull.start (now w) (job w) in
  exists out st, run_handler (process parse processRecord) w = (out, st) /\
    now (world st) = now w /\
    match outcome (files w) path with
    | Throw e =>
        out = Throw e /\
        results st = initial_results /\
        files (world st) = files w /\
        job (world st) = started /\
        emitted (world st) = emitted w /\
        io_faults (world st) = io_faults w /\
        handler_faults (world st) = handler_faults w /\
        progress_faults (world st) = progress_faults w
    | Ret recs =>
        exists cs,
          (length cs <= length recs)%nat /\
          emitted (world st) = emitted w ++ reports (length recs) cs /\
          climbs 0 cs /\
          total (results st) = length recs /\
          length (records (results st)) = processed (results st) /\
          job (world st)
          = match last cs with
            | None => started
            | Some c =>
                Bull.set_progress
                  (progress_percent (Z.of_nat c) (Z.of_nat (length recs))) started
            end /\
          (length cs <= attempted (results st)
           <= length recs + processed (results st) / 10)%nat /\
          (processed (results st) <= length recs)%nat /\
          Forall (fun c => (c <= attempted (results st))%nat) cs /\
          (clean_tape (handler_faults w) ->
           cs = seq 1 (length cs) /\
           (attempted (results st) <= length cs + 1)%nat) /\
          (exists std,
             results std = set_total (length recs) initial_results /\
             io_faults (world std) = io_faults w /\
             handler_faults (world std) = handler_faults w /\
             progress_faults (world std) = progress_faults w /\
             results st
             = results (snd (for_of recs
                               (record_step processRecord (Bull.id (job w))) std))) /\
          match out with
          | Ret r =>
              r = results st /\ length cs = length recs /\
              last (O :: cs) = Some (attempted r) /\
              files (world st) = delete path (files w)
          | Throw e =>
              (length cs < length recs)%nat /\
              (In (Some e) (handler_faults w) \/ In (Some e) (progress_faults w)) /\
              files (world st) = files w
          end
    end.
Proof.
  intros path started.
  unfold run_handler, process. unfold bind at 1 2. unfold get_world, put_results.
  cbn [results world job with_job Bull.start Bull.id Bull.data fst snd].
  fold started. fold path.
  set (st0 := {| results := initial_results; world := with_job started w |}).
  unfold try_catch, process_body. unfold bind at 1 2 3.
  rewrite !write_log_run. cbn [results world fst snd].
  match goal with |- context [parse path ?s] => set (sta := s) end.
  pose proof (parse_outcome path sta) as Hout.
  pose proof (parse_quiet path sta) as ((Q1 & Q2 & Q3 & Q4 & Q5 & Q6 & Q7) & Qio).
  assert (Hfiles : files (world sta) = files w) by reflexivity.
  rewrite Hfiles in Hout.
  destruct (parse path sta) as [pout stb] eqn:Hparse. cbn [fst snd] in *.
  subst pout.
  destruct (outcome (files w) path) as [recs | e] eqn:Hoc.
  - (* parsed *)
    unfold bind at 1 2. unfold modify_results at 1. rewrite write_log_run.
    cbn [results world fst snd].
    unfold bind at 1.
    match goal with |- context [for_of recs _ ?s] => set (std := s) end.
    destruct (loop_spec (Bull.id (job w)) recs std)
      as (out & st' & cs & Hloop & Hle & Hem & Hcl & Htot & Hfi & Hno & Hjob & Hp & Hfa
          & Hlen & Hlo & Hall & Hhi & Hclean & Hmatch).
    rewrite Hloop.
    assert (Hstd_res : results std = set_total (length recs) initial_results).
    { subst std. cbn [results]. rewrite Q1. reflexivity. }
    assert (Hatt0 : attempted (results std) = O) by (rewrite Hstd_res; reflexivity).
    assert (Htot0 : total (results std) = length recs) by (rewrite Hstd_res; reflexivity).
    assert (Hrec0 : length (records (results std)) = O) by (rewrite Hstd_res; reflexivity).
    assert (Hpr0 : processed (results std) = O) by (rewrite Hstd_res; reflexivity).
    assert (Hfiles_d : files (world std) = files w) by (subst std; cbn; rewrite Q2; reflexivity).
    assert (Hjob_d : job (world std) = started) by (subst std; cbn; rewrite Q3; reflexivity).
    assert (Hem_d : emitted (world std) = emitted w) by (subst std; cbn; rewrite Q4; reflexivity).
    assert (Hpf_d : progress_faults (world std) = progress_faults w)
      by (subst std; cbn; rewrite Q5; reflexivity).
    assert (Hnow_d : now (world std) = now w) by (subst std; cbn; rewrite Q6; reflexivity).
    assert (Hhf_d : handler_faults (world std) = handler_faults w)
      by (subst std; cbn; rewrite Q7; reflexivity).
    assert (Hio_d : io_faults (world std) = io_faults w) by (subst std; cbn; rewrite Qio; reflexivity).
    assert (Hstd : exists std',
             results std' = set_total (length recs) initial_results /\
             io_faults (world std') = io_faults w /\
             handler_faults (world std') = handler_faults w /\
             progress_faults (world std') = progress_faults w /\
             results st'
             = results (snd (for_of recs
                               (record_step processRecord (Bull.id (job w))) std'))).
    { exists std. rewrite Hloop. repeat split; assumption. }
    rewrite Hatt0, Htot0, Hem_d, Hjob_d, Hfiles_d, Hnow_d, Hpf_d, Hhf_d, Hrec0, Hpr0 in *.
    change (0 / 10)%nat with O in Hhi.
    cbn [Nat.add] in *.
    destruct out as [u | e].
    + destruct Hmatch as (Hj & Hlast).
      assert (Hsome : is_Some (files (world st') !! path)).
      { rewrite Hfi. eapply outcome_file. exact Hoc. }
      unfold bind at 1. rewrite (unlinkSync_spec path st' Hsome).
      unfold bind at 1. unfold get_results at 1. cbn [results world fst snd].
      unfold bind at 1. rewrite write_log_run.
      unfold bind at 1. rewrite write_log_run.
      unfold ret. cbn [results world fst snd].
      eexists _, _. split; [reflexivity | ].
      cbn [results world now with_log with_files files emitted job].
      split; [congruence | ].
      exists cs. split; [lia | ]. split; [assumption | ]. split; [assumption | ].
      split; [assumption | ]. split; [lia | ]. split; [assumption | ].
      split; [lia | ]. split; [lia | ]. split; [assumption | ].
      split; [assumption | ]. split; [exact Hstd | ].
      split; [reflexivity | ]. split; [assumption | ]. split; [assumption | ].
      rewrite Hfi. reflexivity.
    + destruct Hmatch as (Hj & Hin).
      unfold bind at 1. rewrite write_log_run. unfold throw.
      eexists _, _. split; [reflexivity | ].
      cbn [results world now with_log files emitted job].
      split; [congruence | ].
      exists cs. split; [lia | ]. split; [assumption | ]. split; [assumption | ].
      split; [assumption | ]. split; [lia | ]. split; [assumption | ].
      split; [lia | ]. split; [lia | ]. split; [assumption | ].
      split; [assumption | ]. split; [exact Hstd | ].
      split; [assumption | ]. split; assumption.
  - (* the parser threw *)
    unfold bind at 1. rewrite write_log_run. unfold throw.
    eexists _, _. split; [reflexivity | ].
    cbn [results world now with_log files emitted job io_faults handler_faults progress_faults].
    rewrite Q1, Q2, Q3, Q4, Q5, Q6, Q7, Qio. subst sta. cbn.
    repeat split.
Qed.

End HandlerFacts.


Ltac run_monad :=
  cbv beta iota delta
    [bind ret throw try_catch get_world get_results lift write_log
     modify_world modify_results put_results fst snd].

Lemma parser_outcome k path st :
  fst (parser_of k path st) = outcome_of k (files (world st)) path.
Proof.
  destruct k; cbn [parser_of outcome_of].
  - unfold CsvWorker.parseCSV, csv_outcome, bind, get_world.
    destruct (files (world st) !! path) as [f | ]; [ | reflexivity].
    destruct (as_csv f); reflexivity.
  - unfold ExcelWorker.parseExcel, excel_outcome. run_monad.
    destruct (files (world st) !! path) as [f | ]; [ | reflexivity].
    destruct (as_xlsx f) as [[ws | ] | e]; run_monad; try reflexivity.
    destruct (0 <? length (ExcelWorker.missingColumns (ExcelWorker.header_row ws)))%nat;
      reflexivity.
Qed.

Lemma parser_quiet k path st :
  quiet st (snd (parser_of k path st)) /\
  io_faults (world (snd (parser_of k path st))) = io_faults (world st).
Proof.
  destruct k; cbn [parser_of].
  - unfold CsvWorker.parseCSV, bind, get_world.
    destruct (files (world st) !! path) as [f | ]; [ | split; [apply quiet_refl | reflexivity]].
    destruct (as_csv f); cbn; split; try reflexivity; repeat split.
  - unfold ExcelWorker.parseExcel. run_monad.
    destruct (files (world st) !! path) as [f | ]; [ | split; [repeat split | reflexivity]].
    destruct (as_xlsx f) as [[ws | ] | e]; run_monad; try (split; [repeat split | reflexivity]).
    destruct (0 <? length (ExcelWorker.missingColumns (ExcelWorker.header_row ws)))%nat;
      (split; [repeat split | reflexivity]).
Qed.

Lemma outcome_file k fs path rs :
  outcome_of k fs path = Ret rs -> is_Some (fs !! path).
Proof.
  destruct k; cbn [outcome_of]; unfold csv_outcome, excel_outcome;
    destruct (fs !! path); intros H; try discriminate; eauto.
Qed.

Lemma processor_quiet k r jobId st :
  quiet st (snd (processor_of k r jobId st)).
Proof.
  destruct k; cbn [processor_of].
  - unfold CsvWorker.processRecord. run_monad. unfold io_point.
    destruct (io_faults (world st)) as [ | [e | ] rest]; repeat split.
  - unfold ExcelWorker.processRecord. run_monad.
    destruct (ExcelWorker.normalise_fields r) as [pr | e]; run_monad; [ | repeat split].
    unfold io_point.
    destruct (io_faults (world st)) as [ | [e | ] rest]; repeat split.
Qed.

Lemma handler_of_process k :
  handler_of k = process (parser_of k) (processor_of k).
Proof. destruct k; reflexivity. Qed.

Lemma parse_stage_outcome k w :
  parse_stage k w = outcome_of k (files w) (Bull.filePath (Bull.data (job w))).
Proof. unfold parse_stage. rewrite parser_outcome. reflexivity. Qed.



(** What the run of a worker leaves behind. *)
Lemma worker_run k w :
  let path := Bull.filePath (Bull.data (job w)) in
  let started := Bull.start (now w) (job w) in
  exists out st, run_handler (handler_of k) w = (out, st) /\
    now (world st) = now w /\
    match parse_stage k w with
    | Throw e =>
        out = Throw e /\
        results st = initial_results /\
        files (world st) = files w /\
        job (world st) = started /\
        emitted (world st) = emitted w /\
        io_faults (world st) = io_faults w /\
        handler_faults (world st) = handler_faults w /\
        progress_faults (world st) = progress_faults w
    | Ret recs =>
        exists cs,
          (length cs <= length recs)%nat /\
          emitted (world st) = emitted w ++ reports (length recs) cs /\
          climbs 0 cs /\
          total (results st) = length recs /\
          length (records (results st)) = processed (results st) /\
          job (world st)
          = match last cs with
            | None => started
            | Some c =>
                Bull.set_progress
                  (progress_percent (Z.of_nat c) (Z.of_nat (length recs))) started
            end /\
          (length cs <= attempted (results st)
           <= length recs + processed (results st) / 10)%nat /\
          (processed (results st) <= length recs)%nat /\
          Forall (fun c => (c <= attempted (results st))%nat) cs /\
          (clean_tape (handler_faults w) ->
           cs = seq 1 (length cs) /\
           (attempted (results st) <= length cs + 1)%nat) /\
          (exists std,
             results std = set_total (length recs) initial_results /\
             io_faults (world std) = io_faults w /\
             handler_faults (world std) = handler_faults w /\
             progress_faults (world std) = progress_faults w /\
             results st
             = results (snd (for_of recs
                               (record_step (processor_of k) (Bull.id (job w))) std))) /\
          match out with
          | Ret r =>
              r = results st /\ length cs = length recs /\
              last (O :: cs) = Some (attempted r) /\
              files (world st) = delete path (files w)
          | Throw e =>
              (length cs < length recs)%nat /\
              (In (Some e) (handler_faults w) \/ In (Some e) (progress_faults w)) /\
              files (world st) = files w
          end
    end.
Proof.
  intros path started. rewrite parse_stage_outcome, handler_of_process.
  exact (run_handler_spec (parser_of k) (processor_of k) (outcome_of k)
           (parser_outcome k) (parser_quiet k) (outcome_file k) (processor_quiet k) w).
Qed.

















Lemma drop_while_starts_clean s : starts_clean (drop_while is_trimmable s).
Proof.
  induction s as [ | c s IH]; cbn; [exact I | ].
  destruct (is_trimmable c) eqn:E; [exact IH | exact E].
Qed.

Lemma drop_while_clean s :
  starts_clean s -> drop_while is_trimmable s = s.
Proof. destruct s as [ | c s]; cbn; [reflexivity | ]. intros ->. reflexivity. Qed.

Lemma drop_while_last p l c :
  p c = false -> drop_while p (l ++ [c]) = drop_while p l ++ [c].
Proof.
  intros Hc. induction l as [ | a l IH]; cbn.
  - rewrite Hc. reflexivity.
  - destruct (p a); [exact IH | reflexivity].
Qed.

Lemma drop_while_In p l c : In c (drop_while p l) -> In c l.
Proof.
  induction l as [ | a l IH]; cbn; [tauto | ].
  destruct (p a); cbn; tauto.
Qed.

Lemma trim_starts_clean s : starts_clean (trim s).
Proof.
  unfold trim. pose proof (drop_while_starts_clean s) as H.
  destruct (drop_while is_trimmable s) as [ | c a]; [exact I | ].
  cbn [rev]. cbn [starts_clean] in H. rewrite drop_while_last by exact H.
  rewrite rev_app_distr. cbn. exact H.
Qed.

Lemma trim_ends_clean s : starts_clean (rev (trim s)).
Proof. unfold trim. rewrite rev_involutive. apply drop_while_starts_clean. Qed.

Lemma trim_idempotent s : trim (trim s) = trim s.
Proof.
  unfold trim at 1.
  rewrite (drop_while_clean (trim s)) by apply trim_starts_clean.
  rewrite (drop_while_clean (rev (trim s))) by apply trim_ends_clean.
  apply rev_involutive.
Qed.

Lemma trim_In s c : In c (trim s) -> In c s.
Proof.
  unfold trim. intros H. apply in_rev in H. apply drop_while_In in H.
  apply in_rev in H. apply drop_while_In in H. exact H.
Qed.

Lemma split_on_no_separator s :
  Forall (fun piece => no_separator piece = true) (split_on is_separator s).
Proof.
  induction s as [ | c s IH]; cbn [split_on].
  - repeat constructor.
  - destruct (is_separator c) eqn:E.
    + constructor; [reflexivity | exact IH].
    + destruct (split_on is_separator s) as [ | t ts].
      * repeat constructor. unfold no_separator. cbn. rewrite E. reflexivity.
      * inversion IH as [ | ? ? Ht Hts]; subst. constructor; [ | exact Hts].
        unfold no_separator in *. cbn. rewrite E. exact Ht.
Qed.

(** Every token is non-empty, trimmed and free of separators. *)
Lemma split_tokens_clean s :
  Forall (fun tok => non_empty tok = true /\ trim tok = tok /\ no_separator tok = true)
         (split_tokens s).
Proof.
  unfold split_tokens. apply List.Forall_forall. intros tok Hin.
  apply List.filter_In in Hin. destruct Hin as [Hin Hne].
  apply List.in_map_iff in Hin. destruct Hin as (piece & <- & Hpiece).
  split; [exact Hne | ]. split; [apply trim_idempotent | ].
  pose proof (split_on_no_separator s) as Hall.
  rewrite List.Forall_forall in Hall. specialize (Hall _ Hpiece).
  unfold no_separator in *. rewrite forallb_forall in Hall |- *.
  intros c Hc. apply Hall. apply trim_In. exact Hc.
Qed.

Lemma strip_outer_quotes_spec q1 inner q2 :
  strip_outer_quotes (q1 :: inner ++ [q2])
  = if is_quote q1 && is_quote q2 && non_empty inner
       && forallb (fun c => negb (is_line_terminator c)) inner
    then inner else q1 :: inner ++ [q2].
Proof.
  unfold strip_outer_quotes. rewrite rev_app_distr. cbn [rev app].
  rewrite rev_involutive.
  assert (Hne : non_empty (rev inner) = non_empty inner).
  { destruct inner as [ | a l]; [reflexivity | ]. cbn [rev].
    destruct (rev l); reflexivity. }
  assert (Hall : forallb (fun c => negb (is_line_terminator c)) (rev inner)
                 = forallb (fun c => negb (is_line_terminator c)) inner).
  { apply eq_true_iff_eq. rewrite !forallb_forall. split; intros H c Hc; apply H.
    - apply -> in_rev. exact Hc.
    - apply in_rev. exact Hc. }
  rewrite Hne, Hall. reflexivity.
Qed.

Lemma white_space_trimmable c : In c white_space_units <-> is_trimmable c = true.
Proof.
  unfold is_trimmable, is_white_space, is_line_terminator, white_space_units.
  rewrite !orb_true_iff, !andb_true_iff, !N.eqb_eq, !N.leb_le. cbn [In]. lia.
Qed.

Lemma drop_while_split p s :
  exists a, s = a ++ drop_while p s /\ Forall (fun c => p c = true) a.
Proof.
  induction s as [ | c s (a & Ha & Hall)]; cbn [drop_while].
  - exists []. split; [reflexivity | constructor].
  - destruct (p c) eqn:E.
    + exists (c :: a). split; [cbn; f_equal; exact Ha | constructor; assumption].
    + exists []. split; [reflexivity | constructor].
Qed.

Lemma starts_clean_head s c : starts_clean s -> is_trimmable c = true -> head s <> Some c.
Proof.
  destruct s as [ | x s]; cbn; [discriminate | ].
  intros Hx Hc E. injection E as ->. congruence.
Qed.

Lemma head_rev {A} (l : list A) : head (rev l) = last l.
Proof.
  induction l as [ | x l IH] using rev_ind; [reflexivity | ].
  rewrite rev_app_distr, last_snoc. reflexivity.
Qed.

(** [trim] removes white space from both ends, and nothing else. *)
Lemma trim_spec s :
  exists before after,
    s = before ++ trim s ++ after /\
    Forall (fun c => In c white_space_units) before /\
    Forall (fun c => In c white_space_units) after /\
    trimmed (trim s).
Proof.
  destruct (drop_while_split is_trimmable s) as (a & Ha & Hall_a).
  destruct (drop_while_split is_trimmable (rev (drop_while is_trimmable s)))
    as (b & Hb & Hall_b).
  exists a, (rev b). split; [ | split; [ | split]].
  - unfold trim. rewrite <- rev_app_distr, <- Hb, rev_involutive. exact Ha.
  - eapply List.Forall_impl; [ | exact Hall_a]. intros c. apply white_space_trimmable.
  - apply List.Forall_rev. eapply List.Forall_impl; [ | exact Hall_b].
    intros c. apply white_space_trimmable.
  - intros c Hc. apply white_space_trimmable in Hc. split.
    + apply starts_clean_head; [apply trim_starts_clean | exact Hc].
    + rewrite <- head_rev. apply starts_clean_head; [apply trim_ends_clean | exact Hc].
Qed.

Lemma split_tokens_trimmed s :
  Forall (fun tok => tok <> [] /\ trimmed tok) (split_tokens s).
Proof.
  unfold split_tokens. apply List.Forall_forall. intros tok Hin.
  apply List.filter_In in Hin. destruct Hin as [Hin Hne].
  apply List.in_map_iff in Hin. destruct Hin as (piece & Heq & _). subst tok.
  split; [intros E; rewrite E in Hne; discriminate | ].
  destruct (trim_spec piece) as (b1 & b2 & _ & _ & _ & H). exact H.
Qed.

(** C5: both workers map [a,b,c] to the tokens a, b, c, the string x|y
    wrapped in double quotes to x, y, and the empty string and
    [undefined] to the empty sequence.  One pair of wrapping quotes is
    removed before the split on commas and pipes; white space around a
    token is removed, so that no token returned begins or ends with a
    white-space code unit, and no token returned is empty. *)
Theorem multi_value_normalisation :
  let quoted := 34%N :: str "x|y" ++ [34%N] in
  let spaced := [9%N] ++ str " red " ++ [160; 124; 10]%N ++ str "blue"
                ++ [8232; 44; 32; 44]%N in
  CsvWorker.parseMultiValueField (VStr (str "a,b,c")) = [str "a"; str "b"; str "c"] /\
  ExcelWorker.parseMultiValueField (VStr (str "a,b,c")) = Ret [str "a"; str "b"; str "c"] /\
  CsvWorker.parseMultiValueField (VStr quoted) = [str "x"; str "y"] /\
  ExcelWorker.parseMultiValueField (VStr quoted) = Ret [str "x"; str "y"] /\
  CsvWorker.parseMultiValueField (VStr []) = [] /\
  ExcelWorker.parseMultiValueField (VStr []) = Ret [] /\
  CsvWorker.parseMultiValueField VUndefined = [] /\
  ExcelWorker.parseMultiValueField VUndefined = Ret [] /\
  CsvWorker.parseMultiValueField (VStr (str " a , b ,, c "))
  = [str "a"; str "b"; str "c"] /\
  ExcelWorker.parseMultiValueField (VStr (str " a , b ,, c "))
  = Ret [str "a"; str "b"; str "c"] /\
  CsvWorker.parseMultiValueField (VStr spaced) = [str "red"; str "blue"] /\
  ExcelWorker.parseMultiValueField (VStr spaced) = Ret [str "red"; str "blue"] /\
  (forall q1 inner q2,
     strip_outer_quotes (q1 :: inner ++ [q2])
     = if is_quote q1 && is_quote q2 && non_empty inner
          && forallb (fun c => negb (is_line_terminator c)) inner
       then inner else q1 :: inner ++ [q2]) /\
  (forall s,
     CsvWorker.parseMultiValueField (VStr s)
     = List.filter non_empty (map trim (split_on is_separator (strip_outer_quotes s)))) /\
  (forall s, exists before after,
     s = before ++ trim s ++ after /\
     Forall (fun c => In c white_space_units) before /\
     Forall (fun c => In c white_space_units) after /\
     trimmed (trim s)) /\
  (forall v,
     Forall (fun tok => tok <> [] /\ trimmed tok) (CsvWorker.parseMultiValueField v)) /\
  (forall v,
     match ExcelWorker.parseMultiValueField v with
     | Ret tokens => Forall (fun tok => tok <> [] /\ trimmed tok) tokens
     | Throw _ => True
     end).
Proof.
  cbn zeta.
  split; [vm_compute; reflexivity | ]. split; [vm_compute; reflexivity | ].
  split; [vm_compute; reflexivity | ]. split; [vm_compute; reflexivity | ].
  split; [reflexivity | ]. split; [reflexivity | ].
  split; [reflexivity | ]. split; [reflexivity | ].
  split; [vm_compute; reflexivity | ]. split; [vm_compute; reflexivity | ].
  split; [vm_compute; reflexivity | ]. split; [vm_compute; reflexivity | ].
  split; [exact strip_outer_quotes_spec | ].
  split.
  { intros s. unfold CsvWorker.parseMultiValueField. cbn [truthy].
    destruct s; reflexivity. }
  split; [exact trim_spec | ].
  split.
  - intros v. unfold CsvWorker.parseMultiValueField.
    destruct (negb (truthy v)); [constructor | ].
    destruct v; try constructor. apply split_tokens_trimmed.
  - intros v. unfold ExcelWorker.parseMultiValueField.
    destruct (negb (truthy v)); [constructor | ].
    destruct v as [ | | b | n | s | items | repr]; cbn [toString rbind]; try exact I;
      try apply split_tokens_trimmed.
    match goal with |- context [rmap_list ?f items] => destruct (rmap_list f items) as [l | e] eqn:E end;
      cbn [rbind]; [ | exact I].
    apply List.Forall_forall. intros tok Hin. apply List.filter_In in Hin.
    destruct Hin as [Hin Hne].
    split; [intros E'; rewrite E' in Hne; discriminate | ].
    clear Hne. revert l E Hin.
    induction items as [ | x items IH]; intros l E Hin; cbn [rmap_list] in E.
    + injection E as <-. destruct Hin.
    + destruct (toString x) as [sx | ex]; cbn [rbind] in E; [ | discriminate].
      match type of E with context [rmap_list ?f items] =>
        destruct (rmap_list f items) as [l' | e'] eqn:E' end;
        cbn [rbind] in E; [ | discriminate].
      injection E as <-. destruct Hin as [<- | Hin].
      * destruct (trim_spec sx) as (b1 & b2 & _ & _ & _ & H). exact H.
      * eapply IH; [reflexivity | exact Hin].
Qed.

(** C6, as amended: for a truthy value that is neither an array nor a
    string, the Excel worker stringifies it, strips one pair of wrapping
    quotes, splits on commas and pipes, trims the tokens and drops the
    empty ones; the CSV worker returns the empty sequence. *)
Theorem non_string_values (v : value) :
  truthy v = true -> is_array v = false -> is_string v = false ->
  toString v = Ret (to_text v) /\
  ExcelWorker.parseMultiValueField v
  = Ret (List.filter non_empty
           (map trim (split_on is_separator (strip_outer_quotes (to_text v))))) /\
  CsvWorker.parseMultiValueField v = [].
Proof.
  intros Ht Ha Hs.
  destruct v as [ | | b | n | s | items | repr]; cbn in Ht, Ha, Hs; try discriminate.
  - subst b. repeat split.
  - unfold ExcelWorker.parseMultiValueField, CsvWorker.parseMultiValueField.
    cbn [truthy]. rewrite Ht. repeat split.
  - repeat split.
Qed.

(** The number 5 in the two workers. *)
Lemma number_five :
  ExcelWorker.parseMultiValueField (VNum 5) = Ret [str "5"] /\
  CsvWorker.parseMultiValueField (VNum 5) = [].
Proof. split; vm_compute; reflexivity. Qed.

(** C6, counterexample: the CSV worker does not map the number 5 to the
    sequence of the one token 5. *)
Lemma csv_worker_drops_numbers :
  CsvWorker.parseMultiValueField (VNum 5) <> [str "5"].
Proof. vm_compute. discriminate. Qed.

(** C10: on every string the two implementations of
    [parseMultiValueField] return the same tokens. *)
Theorem normalisers_agree_on_strings (s : jsstring) :
  ExcelWorker.parseMultiValueField (VStr s)
  = Ret (CsvWorker.parseMultiValueField (VStr s)).
Proof.
  unfold ExcelWorker.parseMultiValueField, CsvWorker.parseMultiValueField.
  cbn [truthy]. destruct (negb (non_empty s)); reflexivity.
Qed.

Lemma positions_from_inside {A} (l : list A) lo hi : forall i,
  lo <= i -> positions_from i lo hi l = take (Z.to_nat (hi - i)) l.
Proof.
  induction l as [ | x l IH]; intros i Hi; cbn [positions_from].
  - rewrite take_nil. reflexivity.
  - destruct (Z.leb_spec lo i); [ | lia]. cbn [andb].
    destruct (Z.ltb_spec i hi).
    + rewrite IH by lia.
      replace (Z.to_nat (hi - i)) with (S (Z.to_nat (hi - (i + 1)))) by lia.
      reflexivity.
    + rewrite IH by lia.
      replace (Z.to_nat (hi - (i + 1))) with O by lia.
      replace (Z.to_nat (hi - i)) with O by lia. reflexivity.
Qed.

Lemma positions_from_before {A} (l : list A) lo hi : forall i,
  i <= lo ->
  positions_from i lo hi l
  = take (Z.to_nat (hi - lo)) (drop (Z.to_nat (lo - i)) l).
Proof.
  induction l as [ | x l IH]; intros i Hi.
  - cbn [positions_from]. rewrite drop_nil, take_nil. reflexivity.
  - destruct (Z.eq_dec i lo) as [-> | Hne].
    + rewrite positions_from_inside by lia.
      replace (Z.to_nat (lo - lo)) with O by lia. reflexivity.
    + cbn [positions_from]. destruct (Z.leb_spec lo i); [lia | ]. cbn [andb].
      rewrite IH by lia.
      replace (Z.to_nat (lo - i)) with (S (Z.to_nat (lo - (i + 1)))) by lia.
      reflexivity.
Qed.

Lemma positions_take_drop {A} (l : list A) lo hi :
  0 <= lo -> positions l lo hi = take (Z.to_nat (hi - lo)) (drop (Z.to_nat lo) l).
Proof.
  intros Hlo. unfold positions. rewrite positions_from_before by lia.
  rewrite Z.sub_0_r. reflexivity.
Qed.

(** ** The indices of [slice] *)

Lemma relative_index_holds len x v :
  holds x (v * 2 ^ 1074) -> 0 <= len -> Api.relative_index len x = Z.min v len.
Proof.
  intros (M & E & (-> & HM & HE) & Hv) Hlen. unfold fval in Hv.
  assert (H52 : 0 < 2 ^ 52) by (apply pow2_pos; lia).
  assert (Q : 0 < 2 ^ 1074) by (apply pow2_pos; lia).
  assert (P : 0 < 2 ^ (E + 1074)) by (apply pow2_pos; lia).
  unfold Api.relative_index, Number.trunc_int, Number.floor_int, Number.signed.
  rewrite Z2Pos.id by lia.
  assert (Hk : (if 0 <=? E then M * 2 ^ E else M / 2 ^ (- E)) = v).
  { destruct (Z.leb_spec 0 E).
    - rewrite (pow2_split E 1074), Z.mul_assoc in Hv by lia.
      apply (Z.mul_reg_r _ _ (2 ^ 1074)); [lia | exact Hv].
    - assert (R : 0 < 2 ^ (- E)) by (apply pow2_pos; lia).
      rewrite (pow2_1074_split E) in Hv by lia.
      rewrite Z.mul_assoc in Hv.
      assert (M = v * 2 ^ (- E)) as -> by (apply (Z.mul_reg_r _ _ (2 ^ (E + 1074))); lia).
      apply Z.div_mul. lia. }
  rewrite Hk. assert (0 < v) by nia.
  destruct (Z.ltb_spec v 0); [lia | reflexivity].
Qed.

Lemma canon_trunc M E K :
  2 ^ 52 <= M < 2 ^ 53 -> -1074 <= E -> K * 2 ^ 1074 <= fval M E ->
  K <= (if 0 <=? E then M * 2 ^ E else M / 2 ^ (- E)).
Proof.
  intros HM HE Hv. unfold fval in Hv.
  assert (Q : 0 < 2 ^ 1074) by (apply pow2_pos; lia).
  assert (P : 0 < 2 ^ (E + 1074)) by (apply pow2_pos; lia).
  destruct (Z.leb_spec 0 E).
  - rewrite (pow2_split E 1074), Z.mul_assoc in Hv by lia.
    apply (Z.mul_le_mono_pos_r _ _ (2 ^ 1074)); [lia | exact Hv].
  - assert (R : 0 < 2 ^ (- E)) by (apply pow2_pos; lia).
    rewrite (pow2_1074_split E) in Hv by lia.
    rewrite Z.mul_assoc in Hv.
    apply Z.div_le_lower_bound; [lia | ].
    rewrite Z.mul_comm.
    apply (Z.mul_le_mono_pos_r _ _ (2 ^ (E + 1074))); [lia | exact Hv].
Qed.

Lemma relative_index_above len x K :
  above K x -> 0 <= len <= K -> Api.relative_index len x = len.
Proof.
  intros [-> | (V & (M & E & (-> & HM & HE) & <-) & Hle)] Hlen; [reflexivity | ].
  assert (H52 : 0 < 2 ^ 52) by (apply pow2_pos; lia).
  pose proof (canon_trunc M E K HM ltac:(lia) Hle) as Hk.
  unfold Api.relative_index, Number.trunc_int, Number.floor_int, Number.signed.
  rewrite Z2Pos.id by lia.
  destruct (Z.ltb_spec (if 0 <=? E then M * 2 ^ E else M / 2 ^ (- E)) 0); lia.
Qed.

Lemma trunc_int_opp m e :
  Number.trunc_int true m e = - Number.trunc_int false m e.
Proof.
  unfold Number.trunc_int, Number.ceil_int, Number.floor_int, Number.signed.
  destruct (0 <=? e); [lia | ].
  change (- Zneg m) with (Zpos m). reflexivity.
Qed.

Lemma trunc_int_nonneg m e : 0 <= Number.trunc_int false m e.
Proof.
  unfold Number.trunc_int, Number.floor_int, Number.signed.
  destruct (Z.leb_spec 0 e).
  - assert (0 < 2 ^ e) by (apply pow2_pos; lia). lia.
  - apply Z.div_pos; [lia | ]. apply pow2_pos. lia.
Qed.

Lemma relative_index_opp_holds len x v :
  holds x (v * 2 ^ 1074) -> 0 <= len ->
  Api.relative_index len (SFopp x) = Z.max (len - v) 0.
Proof.
  intros Hx Hlen. pose proof (relative_index_holds (v + 1) x v Hx) as Hr.
  destruct Hx as (M & E & (-> & HM & HE) & Hv).
  assert (Q : 0 < 2 ^ 1074) by (apply pow2_pos; lia).
  assert (H52 : 0 < 2 ^ 52) by (apply pow2_pos; lia).
  assert (P : 0 < 2 ^ (E + 1074)) by (apply pow2_pos; lia).
  assert (Hv0 : 0 < v) by (unfold fval in Hv; nia).
  specialize (Hr ltac:(lia)). revert Hr.
  unfold Api.relative_index. cbn [SFopp negb]. rewrite trunc_int_opp.
  pose proof (trunc_int_nonneg (Z.to_pos M) E).
  set (k := Number.trunc_int false (Z.to_pos M) E) in *.
  destruct (Z.ltb_spec k 0); destruct (Z.ltb_spec (- k) 0); lia.
Qed.

Lemma relative_index_opp_above len x K :
  above K x -> 0 <= len <= K -> Api.relative_index len (SFopp x) = 0.
Proof.
  intros Hx Hlen. pose proof (relative_index_above K x K Hx ltac:(lia)) as Hr.
  destruct Hx as [-> | (V & (M & E & (-> & HM & HE) & <-) & Hle)]; [reflexivity | ].
  revert Hr. unfold Api.relative_index. cbn [SFopp negb]. rewrite trunc_int_opp.
  pose proof (trunc_int_nonneg (Z.to_pos M) E).
  set (k := Number.trunc_int false (Z.to_pos M) E) in *.
  destruct (Z.ltb_spec k 0); destruct (Z.ltb_spec (- k) 0); lia.
Qed.

Lemma of_int_truthy v : 1 <= v -> Number.falsy (Number.of_int v) = false.
Proof.
  intros Hv. destruct (Z_lt_le_dec v (2 ^ 53)) as [Hlt | Hge].
  - destruct (of_int_holds v ltac:(lia)) as (M & E & (-> & _) & _). reflexivity.
  - destruct (of_int_above v Hge) as [-> | (V & (M & E & (-> & _) & _) & _)]; reflexivity.
Qed.

Lemma of_int_negative_truthy v : v < 0 -> Number.falsy (Number.of_int v) = false.
Proof.
  intros Hv. replace v with (- - v) by lia. rewrite of_int_opp by lia.
  pose proof (of_int_truthy (- v) ltac:(lia)) as H.
  destruct (Number.of_int (- v)); try discriminate; reflexivity.
Qed.

(** The bounds of page [p], as [slice] reads them. *)
Lemma page_bounds n p s :
  1 <= p -> 1 <= s < 2 ^ 53 -> 0 <= n < 2 ^ 53 ->
  let start := Number.mul (Number.sub (Number.of_int p) (Number.of_int 1))
                          (Number.of_int s) in
  Api.relative_index n start = Z.min ((p - 1) * s) n /\
  Api.relative_index n (Number.add start (Number.of_int s)) = Z.min (p * s) n.
Proof.
  intros Hp Hs Hn start.
  assert (Hfar : above (2 ^ 53 - 1) start -> 2 ^ 53 - 1 <= (p - 1) * s ->
                 Api.relative_index n start = Z.min ((p - 1) * s) n /\
                 Api.relative_index n (Number.add start (Number.of_int s))
                 = Z.min (p * s) n).
  { intros Ha Hbig. split.
    - rewrite (relative_index_above n _ _ Ha) by lia. lia.
    - rewrite (relative_index_above n _ (2 ^ 53 - 1)); [nia | | lia].
      apply add_above; [lia | exact Ha | exact Hs]. }
  destruct (Z_lt_le_dec p (2 ^ 53)) as [Hp53 | Hp53].
  - destruct (Z.eq_dec p 1) as [-> | Hp1].
    + subst start. change (Number.sub (Number.of_int 1) (Number.of_int 1))
        with (S754_zero false).
      pose proof (of_int_holds s Hs) as Hh.
      assert (Hz : Number.mul (S754_zero false) (Number.of_int s) = S754_zero false
                   /\ Number.add (S754_zero false) (Number.of_int s) = Number.of_int s).
      { destruct Hh as (M & E & (-> & _) & _). split; reflexivity. }
      destruct Hz as [-> ->]. split.
      * cbn [Api.relative_index]. lia.
      * rewrite (relative_index_holds n _ s Hh) by lia. f_equal. lia.
    + assert (Hsub : Number.sub (Number.of_int p) (Number.of_int 1) = Number.of_int (p - 1))
        by (apply sub_ints; lia).
      subst start. rewrite Hsub.
      destruct (Z_lt_le_dec ((p - 1) * s) (2 ^ 53)) as [Hm | Hm].
      * rewrite mul_ints by lia.
        assert (Hst : 1 <= (p - 1) * s) by nia.
        split.
        -- apply relative_index_holds; [apply of_int_holds; lia | lia].
        -- destruct (Z_lt_le_dec (p * s) (2 ^ 53)) as [Ha | Ha].
           ++ rewrite add_ints by lia.
              replace ((p - 1) * s + s) with (p * s) by ring.
              apply relative_index_holds; [apply of_int_holds; nia | lia].
           ++ rewrite (relative_index_above n _ (2 ^ 53)); [lia | | lia].
              apply add_big; [lia | lia | nia].
      * rewrite <- Hsub. apply Hfar; [ | lia]. rewrite Hsub.
        apply (above_weaken (2 ^ 53)); [lia | ]. apply mul_big; lia.
  - apply Hfar; [ | nia].
    apply mul_above; [lia | | exact Hs].
    apply sub_one_above, of_int_above, Hp53.
Qed.

Lemma slice_take_drop {A} (l : list A) x y a b :
  Api.relative_index (Z.of_nat (length l)) x = Z.min a (Z.of_nat (length l)) ->
  Api.relative_index (Z.of_nat (length l)) y = Z.min b (Z.of_nat (length l)) ->
  0 <= a <= b ->
  Api.slice l x y = take (Z.to_nat (b - a)) (drop (Z.to_nat a) l).
Proof.
  intros Hx Hy Hab. unfold Api.slice. rewrite Hx, Hy.
  set (n := Z.of_nat (length l)).
  destruct (Z_le_gt_dec n a) as [Hge | Hlt].
  - rewrite !drop_ge by lia. rewrite !take_nil. reflexivity.
  - replace (Z.min a n) with a by lia.
    destruct (Z_le_gt_dec b n) as [Hb | Hb].
    + replace (Z.min b n) with b by lia. reflexivity.
    + replace (Z.min b n) with n by lia.
      rewrite !take_ge; [reflexivity | | ]; rewrite length_drop; lia.
Qed.

Lemma page_take_drop (jobs : list Bull.Job) (p s : Z) :
  1 <= p -> 1 <= s < 2 ^ 53 -> Z.of_nat (length jobs) < 2 ^ 53 ->
  fst (Api.paginate jobs (Number.of_int p) (Number.of_int s))
  = take (Z.to_nat s) (drop (Z.to_nat ((p - 1) * s)) jobs).
Proof.
  intros Hp Hs Hn. unfold Api.paginate. cbn [fst].
  destruct (page_bounds (Z.of_nat (length jobs)) p s Hp Hs ltac:(lia)) as [Hfrom Hto].
  rewrite (slice_take_drop jobs _ _ _ _ Hfrom Hto) by nia.
  f_equal. lia.
Qed.

Lemma ceil_division n s :
  0 <= n -> 1 <= s ->
  ((n + s - 1) / s - 1) * s < n <= (n + s - 1) / s * s.
Proof.
  intros Hn Hs.
  pose proof (Z.div_mod (n + s - 1) s ltac:(lia)) as Hdm.
  pose proof (Z.mod_pos_bound (n + s - 1) s ltac:(lia)) as Hmb.
  nia.
Qed.

(** C9, as amended: for a page [p >= 1] and a page size [1 <= s < 2^53],
    the listing of [n] jobs returns the jobs at the 0-indexed positions
    [(p-1)*s <= i < p*s], in their order, and reports
    [totalPages = ceil(n / s)]; the endpoint answers with that page for
    the completed jobs of the csv queue. *)
Theorem jobs_page_is_a_slice (jobs : list Bull.Job) (p s : Z) :
  1 <= p -> 1 <= s -> s < 2 ^ 53 -> Z.of_nat (length jobs) < 2 ^ 53 ->
  let n := Z.of_nat (length jobs) in
  let pages := (n + s - 1) / s in
  let pg := Number.of_int p in
  let sz := Number.of_int s in
  fst (Api.paginate jobs pg sz) = positions jobs ((p - 1) * s) (p * s) /\
  (forall i : nat,
     fst (Api.paginate jobs pg sz) !! i
     = if Z.of_nat i <? s then jobs !! Z.to_nat ((p - 1) * s + Z.of_nat i) else None) /\
  Api.totalPages (snd (Api.paginate jobs pg sz)) = Number.of_int pages /\
  (pages - 1) * s < n <= pages * s /\
  (forall qs,
     Api.list_jobs {| Api.q_worker := Some (Api.QString (str "csv"));
                      Api.q_status := Some (Api.QString (str "completed"));
                      Api.q_page := pg; Api.q_pageSize := sz |} qs
     = Api.json
         (Api.JobsPage (str "csv") (str "completed")
            (snd (Api.paginate (Api.completedJobs (Api.csvQueue qs)) pg sz))
            (fst (Api.paginate (Api.completedJobs (Api.csvQueue qs)) pg sz)))).
Proof.
  intros Hp Hs Hs53 Hn n pages pg sz.
  assert (Hpage : fst (Api.paginate jobs pg sz)
                  = take (Z.to_nat s) (drop (Z.to_nat ((p - 1) * s)) jobs))
    by (apply page_take_drop; lia).
  split.
  { rewrite Hpage, positions_take_drop by nia. f_equal. f_equal. lia. }
  split.
  { intros i. rewrite Hpage. destruct (Z.ltb_spec (Z.of_nat i) s).
    - rewrite lookup_take_lt by lia. rewrite lookup_drop. f_equal. nia.
    - apply lookup_take_ge. lia. }
  split.
  { unfold Api.paginate. cbn [snd Api.totalPages]. fold n. subst sz.
    destruct (Z.eq_dec n 0) as [E0 | NE].
    - rewrite E0. unfold pages. rewrite E0.
      rewrite ceil_div_zero by lia. f_equal. symmetry. apply Z.div_small. lia.
    - apply ceil_div_ints; lia. }
  split; [apply ceil_division; lia | ].
  intros qs. unfold Api.list_jobs. cbn [Api.q_worker Api.q_status Api.q_page Api.q_pageSize].
  unfold Api.number_or. subst pg sz. rewrite !of_int_truthy by lia.
  change (Api.status_or_active (Some (Api.QString (str "completed"))))
    with (Api.QString (str "completed")).
  change (negb (Api.query_truthy (Some (Api.QString (str "csv"))))) with false. cbv iota.
  change (Api.getQueueByWorkerType (Some (Api.QString (str "csv"))))
    with (Ret (Some {| Api.queue := Api.CsvQueue; Api.type := str "csv" |})).
  cbv iota. cbn [Api.queue Api.get_queue].
  change (Api.jobs_by_status (Api.csvQueue qs) (str "completed"))
    with (Some (Api.completedJobs (Api.csvQueue qs))).
  cbv iota. cbn [Api.query_text].
  destruct (Api.paginate (Api.completedJobs (Api.csvQueue qs)) _ _). reflexivity.
Qed.

(** C9, counterexample: of 25 jobs, page -1 of size 10 holds the jobs at
    the positions 5 to 14, whereas no position lies between -20 and
    -10. *)
Lemma negative_page_counts_from_the_end :
  map Bull.id (fst (Api.paginate jobs25 (Number.of_int (-1)) (Number.of_int 10)))
  = [5; 6; 7; 8; 9; 10; 11; 12; 13; 14] /\
  positions jobs25 ((-1 - 1) * 10) (-1 * 10) = [] /\
  fst (Api.paginate jobs25 (Number.of_int (-1)) (Number.of_int 10))
  <> positions jobs25 ((-1 - 1) * 10) (-1 * 10).
Proof.
  split; [vm_compute; reflexivity | ]. split; [vm_compute; reflexivity | ].
  vm_compute. discriminate.
Qed.

(** C7, as amended: an upload with the extension [.csv] goes to the csv
    queue, one with [.xlsx] or [.xls] to the excel queue; for every other
    extension [getQueueForFile] throws [Unsupported file type], the
    handler answers with status 500, and so does the endpoint for a file
    below the size limit, leaving the queues as they were; a file of the
    size of the limit or more that passes the file filter is answered
    with status 400. *)
Theorem upload_classification (f : Api.upload_file) (qs : Api.Queues) :
  let ext := toLowerCase (Api.extname (Api.originalname f)) in
  let csv := {| Api.queue := Api.CsvQueue; Api.type := str "csv" |} in
  let excel := {| Api.queue := Api.ExcelQueue; Api.type := str "excel" |} in
  let queued qi :=
    let q := Api.get_queue (Api.queue qi) qs in
    let j := Api.new_job q
               {| Bull.filePath := Api.path f;
                  Bull.originalName := Api.originalname f;
                  Bull.fileType := Api.type qi;
                  Bull.timestamp := Api.clock qs |} (Api.clock qs) in
    (Api.json (Api.Queued (Api.next_id q) (Api.originalname f) (Api.type qi)),
     Api.set_queue (Api.queue qi) (Api.queue_add q j) qs) in
  (ext = str ".csv" ->
     Api.getQueueForFile (Api.originalname f) = Ret csv /\
     Api.upload_handler (Some f) qs = queued csv) /\
  (ext = str ".xlsx" \/ ext = str ".xls" ->
     Api.getQueueForFile (Api.originalname f) = Ret excel /\
     Api.upload_handler (Some f) qs = queued excel) /\
  (ext <> str ".csv" -> ext <> str ".xlsx" -> ext <> str ".xls" ->
     Api.getQueueForFile (Api.originalname f) = Throw Api.unsupported_file_type /\
     Api.upload_handler (Some f) qs
     = (Api.status_json 500 (Api.ErrorBody (str "Unsupported file type")), qs) /\
     (Api.size f < Api.fileSizeLimit ->
        Api.status (fst (Api.upload (Some f) qs)) = 500 /\
        snd (Api.upload (Some f) qs) = qs) /\
     (Api.fileFilter f = true -> Api.fileSizeLimit <= Api.size f ->
        Api.upload (Some f) qs
        = (Api.status_json 400
             (Api.ErrorBody (str "File size is too large. Max size is 5MB")), qs))).
Proof.
  intros ext csv excel queued.
  assert (Hcsv : ext = str ".csv" -> Api.getQueueForFile (Api.originalname f) = Ret csv).
  { intros E. unfold Api.getQueueForFile. fold ext. rewrite E. reflexivity. }
  assert (Hexcel : ext = str ".xlsx" \/ ext = str ".xls" ->
                   Api.getQueueForFile (Api.originalname f) = Ret excel).
  { intros [E | E]; unfold Api.getQueueForFile; fold ext; rewrite E; reflexivity. }
  assert (Hnone : ext <> str ".csv" -> ext <> str ".xlsx" -> ext <> str ".xls" ->
                  Api.getQueueForFile (Api.originalname f) = Throw Api.unsupported_file_type).
  { intros N1 N2 N3. unfold Api.getQueueForFile. fold ext.
    rewrite !bool_decide_eq_false_2 by assumption. reflexivity. }
  split; [ | split].
  - intros E. split; [auto | ]. unfold Api.upload_handler. rewrite (Hcsv E). reflexivity.
  - intros E. split; [auto | ]. unfold Api.upload_handler. rewrite (Hexcel E). reflexivity.
  - intros N1 N2 N3. specialize (Hnone N1 N2 N3). split; [exact Hnone | ].
    assert (Hh : Api.upload_handler (Some f) qs
                 = (Api.status_json 500 (Api.ErrorBody (str "Unsupported file type")), qs)).
    { unfold Api.upload_handler. rewrite Hnone. reflexivity. }
    split; [exact Hh | ]. split.
    + intros Hsize. unfold Api.upload.
      destruct (Api.fileFilter f); cbn [negb].
      * destruct (Z.leb_spec Api.fileSizeLimit (Api.size f)); [lia | ].
        rewrite Hh. split; reflexivity.
      * split; reflexivity.
    + intros Hff Hsize. unfold Api.upload. rewrite Hff. cbn [negb].
      destruct (Z.leb_spec Api.fileSizeLimit (Api.size f)); [reflexivity | lia].
Qed.

(** C7, counterexample: the uploads [data.csvx] and [notes.txt] are
    answered with status 500, not 400. *)
Lemma unsupported_upload_answers_500 :
  Api.getQueueForFile (str "data.csvx") = Throw Api.unsupported_file_type /\
  Api.fileFilter csvx_upload = true /\
  Api.status (fst (Api.upload (Some csvx_upload) no_queues)) = 500 /\
  Api.getQueueForFile (str "notes.txt") = Throw Api.unsupported_file_type /\
  Api.status (fst (Api.upload (Some txt_upload) no_queues)) = 500 /\
  500 <> 400.
Proof. repeat split; try (vm_compute; reflexivity). lia. Qed.

(* ================================================================== *)
(** * Further properties of the code *)
(* ================================================================== *)

(** ** The records [processRecord] returns *)

Lemma fold_insert_lookup (g : jsstring -> value) (l : list jsstring) :
  forall (r : gmap (list N) value) (field : jsstring),
    fold_left (fun acc f => <[f := g f]> acc) l r !! field
    = if bool_decide (field ∈ l) then Some (g field) else r !! field.
Proof.
  induction l as [ | f l IH]; intros r field; cbn [fold_left].
  - rewrite bool_decide_eq_false_2 by apply not_elem_of_nil. reflexivity.
  - rewrite IH. destruct (decide (field ∈ l)) as [Hin | Hnin].
    + rewrite !bool_decide_eq_true_2; [reflexivity | | assumption].
      apply elem_of_cons. right. assumption.
    + rewrite (bool_decide_eq_false_2 _ Hnin).
      destruct (decide (field = f)) as [-> | Hne].
      * rewrite bool_decide_eq_true_2 by apply list_elem_of_here.
        apply lookup_insert_eq.
      * rewrite bool_decide_eq_false_2.
        -- apply lookup_insert_ne. congruence.
        -- rewrite elem_of_cons. tauto.
Qed.

Lemma elem_of_filter_bool (p : jsstring -> bool) (l : list jsstring) x :
  x ∈ List.filter p l <-> x ∈ l /\ p x = true.
Proof.
  rewrite !list_elem_of_In. apply List.filter_In.
Qed.

Lemma csv_normalise_lookup (r : record) field :
  CsvWorker.normalise_fields r !! field
  = if bool_decide (field ∈ CsvWorker.multiValueFields) && truthy (field_of r field)
    then Some (VArr (map VStr (CsvWorker.parseMultiValueField (field_of r field))))
    else r !! field.
Proof.
  unfold CsvWorker.normalise_fields.
  rewrite (fold_insert_lookup
             (fun f => VArr (map VStr (CsvWorker.parseMultiValueField (field_of r f))))).
  destruct (decide (field ∈ CsvWorker.multiValueFields)) as [Hin | Hnin].
  - rewrite (bool_decide_eq_true_2 _ Hin). cbn [andb].
    destruct (truthy (field_of r field)) eqn:Ht.
    + rewrite bool_decide_eq_true_2; [reflexivity | ].
      apply elem_of_filter_bool. split; assumption.
    + rewrite bool_decide_eq_false_2; [reflexivity | ].
      rewrite elem_of_filter_bool. intros [_ H]. congruence.
  - rewrite (bool_decide_eq_false_2 _ Hnin). cbn [andb].
    rewrite bool_decide_eq_false_2; [reflexivity | ].
    rewrite elem_of_filter_bool. tauto.
Qed.

Lemma csv_processRecord_ret r jobId st p st' :
  CsvWorker.processRecord r jobId st = (Ret p, st') ->
  p = {| success := true; data := CsvWorker.normalise_fields r |}.
Proof.
  intros Hrun. unfold CsvWorker.processRecord in Hrun.
  cbv beta iota zeta delta
    [bind ret throw try_catch write_log modify_world fst snd io_point] in Hrun.
  destruct (io_faults (world st)) as [ | [e | ] rest]; congruence.
Qed.

(** X1: When [processRecord] of the CSV worker returns, [success] is
    true and the data it returns hold, under each of [Tags], [Categories]
    and [Attributes] whose value in the record is truthy, the array of its
    tokens; every other field, a multi-value field whose value is empty
    included, is as in the record, and no field is added or lost. *)
Theorem csv_processed_fields (r : record) (jobId : Z) (st st' : St) (p : processed_record) :
  CsvWorker.processRecord r jobId st = (Ret p, st') ->
  success p = true /\
  (forall field,
     data p !! field
     = if bool_decide (field ∈ CsvWorker.multiValueFields) && truthy (field_of r field)
       then Some (VArr (map VStr (CsvWorker.parseMultiValueField (field_of r field))))
       else r !! field) /\
  (forall field, is_Some (data p !! field) <-> is_Some (r !! field)).
Proof.
  intros Hrun. rewrite (csv_processRecord_ret _ _ _ _ _ Hrun). cbn [success data].
  split; [reflexivity | ]. split; [apply csv_normalise_lookup | ].
  intros field. rewrite csv_normalise_lookup.
  destruct (bool_decide (field ∈ CsvWorker.multiValueFields) && truthy (field_of r field)) eqn:E;
    [ | reflexivity].
  apply andb_true_iff in E. destruct E as [_ Ht]. unfold field_of in Ht.
  destruct (r !! field) as [v | ]; cbn in Ht; [ | discriminate].
  split; intros _; eauto.
Qed.

Lemma rmap_fold_lookup {T} (g : jsstring -> result T) (h : T -> value) (l : list jsstring) :
  forall (r : gmap (list N) value) entries,
    rmap_list (fun field => rbind (g field) (fun t => Ret (field, h t))) l = Ret entries ->
    forall field,
      (field ∈ l ->
       exists t, g field = Ret t /\
         fold_left (fun acc fv => <[fst fv := snd fv]> acc) entries r !! field = Some (h t)) /\
      (field ∉ l ->
       fold_left (fun acc fv => <[fst fv := snd fv]> acc) entries r !! field = r !! field).
Proof.
  induction l as [ | f l IH]; intros r entries Hmap field; cbn [rmap_list] in Hmap.
  - injection Hmap as <-. cbn [fold_left]. split; [ | reflexivity].
    intros H. apply not_elem_of_nil in H. contradiction.
  - destruct (g f) as [t | e] eqn:Hg; cbn [rbind] in Hmap; [ | discriminate].
    match type of Hmap with context [rmap_list ?F l] =>
      destruct (rmap_list F l) as [ys | e] eqn:Hys end;
      cbn [rbind] in Hmap; [ | discriminate].
    injection Hmap as <-. cbn [fold_left fst snd].
    destruct (IH (<[f := h t]> r) ys eq_refl field) as [Hin Hnin].
    split.
    + intros Hf. destruct (decide (field ∈ l)) as [Hl | Hl]; [auto | ].
      apply elem_of_cons in Hf. destruct Hf as [-> | Hf]; [ | contradiction].
      exists t. split; [exact Hg | ]. rewrite (Hnin Hl). apply lookup_insert_eq.
    + intros Hf. apply not_elem_of_cons in Hf. destruct Hf as [Hne Hl].
      rewrite (Hnin Hl). apply lookup_insert_ne. congruence.
Qed.

Lemma excel_normalise_lookup (r d : record) :
  ExcelWorker.normalise_fields r = Ret d ->
  forall field,
    if bool_decide (field ∈ ExcelWorker.multiValueFields) && truthy (field_of r field)
    then exists tokens,
           ExcelWorker.parseMultiValueField (field_of r field) = Ret tokens /\
           d !! field = Some (VArr (map VStr tokens))
    else d !! field = r !! field.
Proof.
  intros Hn. unfold ExcelWorker.normalise_fields in Hn.
  match type of Hn with context [rmap_list ?F ?l] =>
    destruct (rmap_list F l) as [entries | e] eqn:Hent end;
    cbn [rbind] in Hn; [ | discriminate].
  injection Hn as Hn.
  pose proof (rmap_fold_lookup
                (fun field => ExcelWorker.parseMultiValueField (field_of r field))
                (fun tokens => VArr (map VStr tokens)) _ r entries Hent) as Hl.
  rewrite Hn in Hl.
  intros field. destruct (Hl field) as [Hin Hnin].
  destruct (decide (field ∈ ExcelWorker.multiValueFields)) as [Hm | Hm].
  - rewrite (bool_decide_eq_true_2 _ Hm). cbn [andb].
    destruct (truthy (field_of r field)) eqn:Ht.
    + apply Hin. apply elem_of_filter_bool. split; assumption.
    + apply Hnin. rewrite elem_of_filter_bool. intros [_ H]. congruence.
  - rewrite (bool_decide_eq_false_2 _ Hm). cbn [andb].
    apply Hnin. rewrite elem_of_filter_bool. tauto.
Qed.

Lemma excel_processRecord_ret r jobId st p st' :
  ExcelWorker.processRecord r jobId st = (Ret p, st') ->
  success p = true /\ ExcelWorker.normalise_fields r = Ret (data p).
Proof.
  intros Hrun. unfold ExcelWorker.processRecord in Hrun.
  cbv beta iota zeta delta
    [bind ret throw try_catch write_log modify_world fst snd lift] in Hrun.
  destruct (ExcelWorker.normalise_fields r) as [d | e]; [ | discriminate].
  cbv beta iota zeta delta
    [bind ret throw try_catch write_log modify_world fst snd io_point] in Hrun.
  destruct (io_faults (world st)) as [ | [e | ] rest]; try discriminate;
    injection Hrun as <- _; split; reflexivity.
Qed.

(** X2: When [processRecord] of the Excel worker returns, [success]
    is true and the data it returns hold, under each of [Tags] and
    [Categories] whose value in the record is truthy, the array of its
    tokens; every other field is as in the record, [Attributes] among
    them. *)
Theorem excel_processed_fields (r : record) (jobId : Z) (st st' : St) (p : processed_record) :
  ExcelWorker.processRecord r jobId st = (Ret p, st') ->
  success p = true /\
  (forall field,
     if bool_decide (field ∈ ExcelWorker.multiValueFields) && truthy (field_of r field)
     then exists tokens,
            ExcelWorker.parseMultiValueField (field_of r field) = Ret tokens /\
            data p !! field = Some (VArr (map VStr tokens))
     else data p !! field = r !! field) /\
  data p !! str "Attributes" = r !! str "Attributes".
Proof.
  intros Hrun. destruct (excel_processRecord_ret _ _ _ _ _ Hrun) as [Hs Hn].
  split; [exact Hs | ].
  pose proof (excel_normalise_lookup r (data p) Hn) as Hfields.
  split; [exact Hfields | ].
  specialize (Hfields (str "Attributes")).
  rewrite bool_decide_eq_false_2 in Hfields; [exact Hfields | ].
  unfold ExcelWorker.multiValueFields. rewrite !elem_of_cons.
  intros [H | [H | H]]; [discriminate | discriminate | ].
  apply not_elem_of_nil in H. exact H.
Qed.

Lemma rmap_list_ret {A B} (f : A -> result B) (g : A -> B) (l : list A) :
  Forall (fun x => f x = Ret (g x)) l -> rmap_list f l = Ret (map g l).
Proof.
  induction 1 as [ | x l Hx _ IH]; cbn [rmap_list map]; [reflexivity | ].
  rewrite Hx, IH. reflexivity.
Qed.

Lemma rmap_list_throw {A B} (f : A -> result B) (l : list A) :
  (exists e, rmap_list f l = Throw e) <-> Exists (fun x => exists e, f x = Throw e) l.
Proof.
  induction l as [ | x l IH]; cbn [rmap_list].
  - split; [intros [e H]; discriminate | intros H; inversion H].
  - destruct (f x) as [y | e] eqn:Hx; cbn [rbind].
    + destruct (rmap_list f l) as [ys | e] eqn:Hl; cbn [rbind].
      * split; [intros [e H]; discriminate | ].
        intros H. inversion H as [? ? [e He] | ? ? Hl']; subst; [congruence | ].
        apply IH in Hl'. destruct Hl' as [e He]. discriminate.
      * split; [ | eauto]. intros _. apply Exists_cons_tl. apply IH. eauto.
    + split; [ | eauto]. intros _. apply Exists_cons_hd. eauto.
Qed.

Lemma toString_throws v : (exists e, toString v = Throw e) <-> is_nullish v = true.
Proof.
  destruct v; cbn; split; intros H; try discriminate; eauto;
    destruct H as [e H]; discriminate.
Qed.

(** X3: [parseMultiValueField] of the Excel worker throws exactly
    on an array that holds [undefined] or [null]; on any other array it
    returns the texts of the elements, trimmed, without the empty ones,
    and neither unquotes nor splits them. *)
Theorem excel_normaliser_errors (v : value) :
  ((exists e, ExcelWorker.parseMultiValueField v = Throw e) <->
   exists items, v = VArr items /\ existsb is_nullish items = true) /\
  (forall items,
     existsb is_nullish items = false ->
     ExcelWorker.parseMultiValueField (VArr items)
     = Ret (List.filter non_empty (map (fun x => trim (to_text x)) items))).
Proof.
  split.
  - unfold ExcelWorker.parseMultiValueField.
    destruct v as [ | | b | n | s | items | repr]; cbn [truthy negb toString rbind].
    1-5,7: split; [ | intros (items & H & _); discriminate].
    1-2: intros [e H]; discriminate.
    1: destruct (negb b); intros [e H]; discriminate.
    1: destruct (negb (negb (n =? 0))); intros [e H]; discriminate.
    1: destruct (negb (non_empty s)); intros [e H]; discriminate.
    1: intros [e H]; discriminate.
    match goal with |- context [rmap_list ?F items] =>
      pose proof (rmap_list_throw F items) as Hthrow;
      destruct (rmap_list F items) as [l | e] eqn:Hl end; cbn [rbind].
    + split; [intros [e H]; discriminate | ].
      intros (items' & Heq & Hex). injection Heq as <-.
      exfalso. apply existsb_exists in Hex. destruct Hex as (x & Hin & Hx).
      assert (Hn : exists e, Ret l = Throw e) by
        (apply Hthrow; apply List.Exists_exists; exists x; split; [exact Hin | ];
         destruct x; try discriminate; cbn; eauto).
      destruct Hn as [e Hn]. discriminate.
    + split; [ | eauto]. intros _. exists items. split; [reflexivity | ].
      destruct Hthrow as [Hthrow _]. specialize (Hthrow (ex_intro _ e eq_refl)).
      apply List.Exists_exists in Hthrow. destruct Hthrow as (x & Hin & e' & Hx).
      apply existsb_exists. exists x. split; [exact Hin | ].
      destruct x; cbn in Hx; try discriminate; reflexivity.
  - intros items Hnone. unfold ExcelWorker.parseMultiValueField. cbn [truthy negb].
    rewrite (rmap_list_ret _ (fun x => trim (to_text x))); [reflexivity | ].
    apply List.Forall_forall. intros x Hin.
    assert (Hx : is_nullish x = false).
    { destruct (is_nullish x) eqn:E; [ | reflexivity].
      assert (existsb is_nullish items = true) by (apply existsb_exists; eauto).
      congruence. }
    destruct x; cbn in Hx; try discriminate; reflexivity.
Qed.

Lemma split_on_clean sep s :
  forallb (fun c => negb (sep c)) s = true -> split_on sep s = [s].
Proof.
  induction s as [ | c s IH]; cbn; [reflexivity | ].
  intros H. apply andb_true_iff in H. destruct H as [Hc Hs].
  apply negb_true_iff in Hc. rewrite Hc, (IH Hs). reflexivity.
Qed.

Lemma split_on_app sep s c rest :
  forallb (fun c => negb (sep c)) s = true -> sep c = true ->
  split_on sep (s ++ c :: rest) = s :: split_on sep rest.
Proof.
  intros Hs Hc. induction s as [ | a s IH]; cbn [app split_on].
  - rewrite Hc. reflexivity.
  - cbn in Hs. apply andb_true_iff in Hs. destruct Hs as [Ha Hs].
    apply negb_true_iff in Ha. rewrite Ha, (IH Hs). reflexivity.
Qed.

Lemma split_on_join toks :
  toks <> [] -> Forall (fun t => no_separator t = true) toks ->
  split_on is_separator (join (str ",") toks) = toks.
Proof.
  intros Hne Hall. induction Hall as [ | t toks Ht Hall IH]; [contradiction | ].
  destruct toks as [ | t' toks'].
  - cbn [join]. apply split_on_clean. exact Ht.
  - change (join (str ",") (t :: t' :: toks'))
      with (t ++ 44%N :: join (str ",") (t' :: toks')).
    rewrite split_on_app; [ | exact Ht | reflexivity].
    rewrite IH by discriminate. reflexivity.
Qed.

Lemma strip_outer_quotes_unquoted s :
  is_quote (hd 0%N s) = false -> strip_outer_quotes s = s.
Proof.
  destruct s as [ | c s]; [reflexivity | ]. cbn [hd]. intros Hc.
  unfold strip_outer_quotes. destruct (rev s); [reflexivity | ].
  rewrite Hc. reflexivity.
Qed.

(** X4: Tokens that are non-empty, trimmed and free of commas and
    pipes, joined by commas, are read back as they were by both workers,
    provided the joined string does not begin with a quote. *)
Theorem tokens_round_trip (toks : list jsstring) :
  Forall (fun t => non_empty t = true /\ trim t = t /\ no_separator t = true) toks ->
  is_quote (hd 0%N (join (str ",") toks)) = false ->
  CsvWorker.parseMultiValueField (VStr (join (str ",") toks)) = toks /\
  ExcelWorker.parseMultiValueField (VStr (join (str ",") toks)) = Ret toks.
Proof.
  intros Hclean Hq.
  assert (H : split_tokens (strip_outer_quotes (join (str ",") toks)) = toks
              /\ (toks = [] -> join (str ",") toks = [])).
  { split; [ | intros ->; reflexivity].
    rewrite (strip_outer_quotes_unquoted _ Hq). unfold split_tokens.
    destruct toks as [ | t toks']; [reflexivity | ].
    rewrite split_on_join.
    - assert (Hmap : map trim (t :: toks') = t :: toks').
      { clear Hq. induction Hclean as [ | x l (_ & Hx & _) _ IH]; [reflexivity | ].
        cbn [map]. rewrite Hx, IH. reflexivity. }
      rewrite Hmap. clear Hq Hmap.
      induction Hclean as [ | x l (Hx & _ & _) _ IH]; [reflexivity | ].
      cbn [List.filter]. rewrite Hx, IH. reflexivity.
    - discriminate.
    - eapply List.Forall_impl; [ | exact Hclean]. cbn. tauto. }
  destruct H as [Hsplit Hnil].
  unfold CsvWorker.parseMultiValueField, ExcelWorker.parseMultiValueField.
  cbn [truthy toString to_text rbind].
  destruct (non_empty (join (str ",") toks)) eqn:Hne; cbn [negb].
  - rewrite Hsplit. split; reflexivity.
  - destruct toks as [ | t toks']; [split; reflexivity | exfalso].
    inversion Hclean as [ | ? ? (Ht & _) _]; subst.
    destruct t as [ | c t]; [discriminate | ].
    destruct toks'; cbn in Hne; discriminate.
Qed.

(** Where the first token begins and the last ends with a quote, the
    joined tokens are unquoted when they are read back. *)
Example quoted_tokens_do_not_round_trip :
  let toks := CsvWorker.parseMultiValueField (VStr (32%N :: 34%N :: str "a,b" ++ [34%N])) in
  toks = [34%N :: str "a"; str "b" ++ [34%N]] /\
  CsvWorker.parseMultiValueField (VStr (join (str ",") toks)) = [str "a"; str "b"].
Proof. split; vm_compute; reflexivity. Qed.

(** X5: No token that either worker returns for a string holds a
    comma or a pipe; an element of an array given to the Excel worker may
    hold one. *)
Theorem string_tokens_hold_no_separator (s : jsstring) :
  Forall (fun tok => no_separator tok = true) (CsvWorker.parseMultiValueField (VStr s)) /\
  (forall tokens,
     ExcelWorker.parseMultiValueField (VStr s) = Ret tokens ->
     Forall (fun tok => no_separator tok = true) tokens) /\
  ExcelWorker.parseMultiValueField (VArr [VStr (str "a,b")]) = Ret [str "a,b"].
Proof.
  assert (H : Forall (fun tok => no_separator tok = true)
                (CsvWorker.parseMultiValueField (VStr s))).
  { unfold CsvWorker.parseMultiValueField. destruct (negb (truthy (VStr s))); [constructor | ].
    eapply List.Forall_impl; [ | apply split_tokens_clean]. cbn. tauto. }
  split; [exact H | ]. split; [ | vm_compute; reflexivity].
  intros tokens Ht. unfold ExcelWorker.parseMultiValueField in Ht.
  unfold CsvWorker.parseMultiValueField in H. cbn [toString to_text rbind] in Ht.
  destruct (negb (truthy (VStr s))); injection Ht as <-; exact H.
Qed.

Lemma clean_tokens_unchanged (tokens : list jsstring) :
  Forall (fun tok => non_empty tok = true /\ trim tok = tok) tokens ->
  List.filter non_empty (map trim tokens) = tokens.
Proof.
  induction 1 as [ | t l (Hne & Ht) _ IH]; [reflexivity | ].
  cbn [map List.filter]. rewrite Ht, Hne, IH. reflexivity.
Qed.

Lemma excel_tokens_clean v tokens :
  ExcelWorker.parseMultiValueField v = Ret tokens ->
  Forall (fun tok => non_empty tok = true /\ trim tok = tok) tokens.
Proof.
  unfold ExcelWorker.parseMultiValueField.
  destruct (negb (truthy v)); [intros H; injection H as <-; constructor | ].
  assert (Hs : forall s, Forall (fun tok => non_empty tok = true /\ trim tok = tok)
                           (split_tokens s)).
  { intros s. eapply List.Forall_impl; [ | apply split_tokens_clean]. cbn. tauto. }
  destruct v as [ | | b | n | s | items | repr]; cbn [toString rbind];
    try discriminate; try (intros H; injection H as <-; apply Hs).
  match goal with |- context [rmap_list ?f items] =>
    destruct (rmap_list f items) as [l | e] eqn:E end; cbn [rbind]; [ | discriminate].
  intros H. injection H as <-.
  apply List.Forall_forall. intros tok Hin. apply List.filter_In in Hin.
  destruct Hin as [Hin Hne]. split; [exact Hne | ]. clear Hne.
  revert l E Hin. induction items as [ | x items IH]; intros l E Hin; cbn [rmap_list] in E.
  - injection E as <-. destruct Hin.
  - destruct (toString x) as [sx | ex]; cbn [rbind] in E; [ | discriminate].
    match type of E with context [rmap_list ?f items] =>
      destruct (rmap_list f items) as [l' | e'] eqn:E' end;
      cbn [rbind] in E; [ | discriminate].
    injection E as <-. destruct Hin as [<- | Hin]; [apply trim_idempotent | ].
    eapply IH; [reflexivity | exact Hin].
Qed.

Lemma excel_tokens_again tokens :
  Forall (fun tok => non_empty tok = true /\ trim tok = tok) tokens ->
  ExcelWorker.parseMultiValueField (VArr (map VStr tokens)) = Ret tokens.
Proof.
  intros Hclean. unfold ExcelWorker.parseMultiValueField. cbn [truthy negb].
  rewrite (rmap_list_ret _ (fun x => trim (to_text x))).
  - cbn [rbind].
    replace (map (fun x => trim (to_text x)) (map VStr tokens)) with (map trim tokens)
      by (rewrite map_map; reflexivity).
    rewrite (clean_tokens_unchanged _ Hclean). reflexivity.
  - apply List.Forall_forall. intros x Hx. apply List.in_map_iff in Hx.
    destruct Hx as (t & <- & _). reflexivity.
Qed.

Lemma renormalise (r d : record) :
  ExcelWorker.normalise_fields r = Ret d ->
  (forall d', ExcelWorker.normalise_fields d = Ret d' -> d' = d) /\
  (exists d', ExcelWorker.normalise_fields d = Ret d').
Proof.
  intros Hn. pose proof (excel_normalise_lookup r d Hn) as Hd.
  assert (Hfield : forall field,
            field ∈ ExcelWorker.multiValueFields -> truthy (field_of d field) = true ->
            exists tokens,
              d !! field = Some (VArr (map VStr tokens)) /\
              ExcelWorker.parseMultiValueField (field_of d field) = Ret tokens).
  { intros field Hin Ht. specialize (Hd field).
    rewrite (bool_decide_eq_true_2 _ Hin) in Hd. cbn [andb] in Hd.
    destruct (truthy (field_of r field)) eqn:Hr.
    - destruct Hd as (tokens & Hp & Hl). exists tokens. split; [exact Hl | ].
      unfold field_of. rewrite Hl. cbn [default].
      apply excel_tokens_again. eapply excel_tokens_clean. exact Hp.
    - exfalso. unfold field_of in Ht, Hr. rewrite Hd in Ht. congruence. }
  assert (Hsame : forall d', ExcelWorker.normalise_fields d = Ret d' -> d' = d).
  { intros d' Hn'. pose proof (excel_normalise_lookup d d' Hn') as Hd'.
    apply map_eq. intros field. specialize (Hd' field).
    destruct (decide (field ∈ ExcelWorker.multiValueFields)) as [Hin | Hnin].
    - rewrite (bool_decide_eq_true_2 _ Hin) in Hd'. cbn [andb] in Hd'.
      destruct (truthy (field_of d field)) eqn:Ht; [ | exact Hd'].
      destruct Hd' as (tokens' & Hp' & Hl').
      destruct (Hfield field Hin Ht) as (tokens & Hl & Hp).
      rewrite Hp in Hp'. injection Hp' as <-. rewrite Hl, Hl'. reflexivity.
    - rewrite (bool_decide_eq_false_2 _ Hnin) in Hd'. exact Hd'. }
  split; [exact Hsame | ].
  - unfold ExcelWorker.normalise_fields.
    match goal with |- context [rmap_list ?F ?l] =>
      destruct (rmap_list F l) as [entries | e] eqn:Hent end; cbn [rbind]; [eauto | exfalso].
    assert (Hex : exists e, rmap_list
              (fun field => rbind (ExcelWorker.parseMultiValueField (field_of d field))
                              (fun tokens => Ret (field, VArr (map VStr tokens))))
              (List.filter (fun field => truthy (field_of d field))
                           ExcelWorker.multiValueFields) = Throw e) by eauto.
    apply rmap_list_throw in Hex. apply List.Exists_exists in Hex.
    destruct Hex as (field & Hin & e' & He').
    apply List.filter_In in Hin. destruct Hin as [Hin Ht].
    apply list_elem_of_In in Hin.
    destruct (Hfield field Hin Ht) as (tokens & _ & Hp). rewrite Hp in He'. discriminate.
Qed.

(** X20: Normalising again a record the Excel worker has
    normalised returns it unchanged.  The CSV worker, given a record it
    has normalised, replaces the array of every multi-value field by the
    empty array. *)
Theorem normalising_a_processed_record (r : record) :
  (forall d, ExcelWorker.normalise_fields r = Ret d ->
             ExcelWorker.normalise_fields d = Ret d) /\
  (forall field,
     field ∈ CsvWorker.multiValueFields -> truthy (field_of r field) = true ->
     CsvWorker.normalise_fields r !! field
     = Some (VArr (map VStr (CsvWorker.parseMultiValueField (field_of r field)))) /\
     CsvWorker.normalise_fields (CsvWorker.normalise_fields r) !! field = Some (VArr [])).
Proof.
  split.
  - intros d Hn. destruct (renormalise r d Hn) as (Hsame & (d' & Hd')).
    rewrite Hd'. f_equal. apply Hsame. exact Hd'.
  - intros field Hin Ht. split.
    + rewrite csv_normalise_lookup, (bool_decide_eq_true_2 _ Hin), Ht. reflexivity.
    + rewrite csv_normalise_lookup.
      rewrite (bool_decide_eq_true_2 _ Hin). cbn [andb].
      assert (Hl : CsvWorker.normalise_fields r !! field
                   = Some (VArr (map VStr (CsvWorker.parseMultiValueField
                                             (field_of r field))))).
      { rewrite csv_normalise_lookup, (bool_decide_eq_true_2 _ Hin), Ht. reflexivity. }
      unfold field_of at 1 2. rewrite Hl. cbn [default truthy]. reflexivity.
Qed.

(** ** The statistics and the records of a job *)

Lemma collect_stats_lookup (d : gmap (list N) value) (sm : gmap (list N) Stats) field :
  collect_stats d sm !! field
  = match d !! field with
    | Some (VArr values) =>
        Some (update_stats values (default empty_stats (sm !! field)))
    | _ => sm !! field
    end.
Proof.
  unfold collect_stats.
  apply (map_fold_weak_ind
           (fun (acc : gmap (list N) Stats) (m : gmap (list N) value) =>
              acc !! field
              = match m !! field with
                | Some (VArr values) =>
                    Some (update_stats values (default empty_stats (sm !! field)))
                | _ => sm !! field
                end)).
  - rewrite lookup_empty. reflexivity.
  - intros i x m acc Hi IH.
    destruct (decide (i = field)) as [-> | Hne].
    + rewrite lookup_insert_eq. rewrite Hi in IH.
      destruct x; try exact IH.
      rewrite lookup_insert_eq, IH. reflexivity.
    + rewrite (lookup_insert_ne m) by exact Hne.
      destruct x; try exact IH.
      rewrite lookup_insert_ne by exact Hne. exact IH.
Qed.

Lemma fold_collect_lookup field ps : forall sm,
  fold_left (fun sm p => collect_stats (data p) sm) ps sm !! field
  = match field_arrays field ps with
    | [] => sm !! field
    | arrs => Some (fold_left (fun s vs => update_stats vs s) arrs
                      (default empty_stats (sm !! field)))
    end.
Proof.
  induction ps as [ | p ps IH]; intros sm; cbn [fold_left field_arrays omap];
    [reflexivity | ].
  rewrite IH, collect_stats_lookup.
  change (field_arrays field (p :: ps))
    with (match (match data p !! field with
                 | Some (VArr values) => Some values
                 | _ => None
                 end) with
          | Some vs => vs :: field_arrays field ps
          | None => field_arrays field ps
          end).
  destruct (data p !! field) as [[ | | | | | values | ] | ]; try reflexivity.
  cbn [default fold_left]. destruct (field_arrays field ps); reflexivity.
Qed.

Lemma fold_update_total arrs : forall s,
  totalValues (fold_left (fun s vs => update_stats vs s) arrs s)
  = (totalValues s + list_sum (map length arrs))%nat.
Proof.
  induction arrs as [ | a arrs IH]; intros s; simpl; [lia | ].
  rewrite IH. simpl. lia.
Qed.

Lemma fold_update_max arrs : forall s,
  maxValuesInField (fold_left (fun s vs => update_stats vs s) arrs s)
  = Nat.max (maxValuesInField s) (list_max (map length arrs)).
Proof.
  induction arrs as [ | a arrs IH]; intros s; simpl; [lia | ].
  rewrite IH. simpl. lia.
Qed.

Lemma fold_update_unique arrs : forall s,
  uniqueValues (fold_left (fun s vs => update_stats vs s) arrs s)
  = fold_left set_add (concat arrs) (uniqueValues s).
Proof.
  induction arrs as [ | a arrs IH]; intros s; cbn [fold_left concat]; [reflexivity | ].
  rewrite IH. cbn [update_stats uniqueValues]. rewrite fold_left_app. reflexivity.
Qed.

Lemma fold_update_stats arrs :
  fold_left (fun s vs => update_stats vs s) arrs empty_stats = stats_of arrs.
Proof.
  pose proof (fold_update_total arrs empty_stats) as Ht.
  pose proof (fold_update_max arrs empty_stats) as Hm.
  pose proof (fold_update_unique arrs empty_stats) as Hu.
  destruct (fold_left (fun s vs => update_stats vs s) arrs empty_stats) as [t u m].
  cbn in Ht, Hm, Hu. unfold stats_of. f_equal; assumption.
Qed.

Lemma summary_of_lookup field ps :
  summary_of ps !! field
  = match field_arrays field ps with
    | [] => None
    | arrs => Some (stats_of arrs)
    end.
Proof.
  unfold summary_of. rewrite fold_collect_lookup, lookup_empty. cbn [default].
  destruct (field_arrays field ps) eqn:E; [reflexivity | ].
  rewrite fold_update_stats. reflexivity.
Qed.

Lemma value_eqb_refl : forall v, value_eqb v v = true.
Proof.
  fix IH 1. intros [ | | b | n | s | items | repr]; cbn [value_eqb]; try reflexivity.
  - destruct b; reflexivity.
  - apply Z.eqb_refl.
  - apply bool_decide_eq_true_2. reflexivity.
  - induction items as [ | x items IHitems]; [reflexivity | ].
    rewrite (IH x). exact IHitems.
  - apply bool_decide_eq_true_2. reflexivity.
Qed.

Lemma value_eqb_eq : forall a b, value_eqb a b = true -> a = b.
Proof.
  fix IH 1. intros [ | | x | x | x | xs | x] [ | | y | y | y | ys | y];
    cbn [value_eqb]; intros H; try discriminate; try reflexivity.
  - apply Bool.eqb_prop in H. congruence.
  - apply Z.eqb_eq in H. congruence.
  - apply bool_decide_eq_true_1 in H. congruence.
  - f_equal. revert ys H. induction xs as [ | x xs IHxs]; intros [ | y ys] H;
      try discriminate; [reflexivity | ].
    apply andb_true_iff in H. destruct H as [Hx Hxs].
    f_equal; [apply IH; exact Hx | apply IHxs; exact Hxs].
  - apply bool_decide_eq_true_1 in H. congruence.
Qed.

Lemma existsb_value_eqb v l : existsb (value_eqb v) l = true <-> v ∈ l.
Proof.
  rewrite existsb_exists, list_elem_of_In. split.
  - intros (x & Hin & Hx). apply value_eqb_eq in Hx. subst. exact Hin.
  - intros Hin. exists v. split; [exact Hin | apply value_eqb_refl].
Qed.

Lemma set_add_spec l v :
  NoDup l ->
  NoDup (set_add l v) /\
  (forall x, x ∈ set_add l v <-> x ∈ l \/ x = v) /\
  (length (set_add l v) <= S (length l))%nat.
Proof.
  intros Hnd. unfold set_add. destruct (existsb (value_eqb v) l) eqn:E.
  - apply existsb_value_eqb in E. split; [exact Hnd | ]. split; [ | lia].
    intros x. split; [tauto | ]. intros [H | ->]; assumption.
  - assert (Hv : v ∉ l).
    { intros Hin. apply existsb_value_eqb in Hin. congruence. }
    split. { apply NoDup_app. split; [exact Hnd | ]. split.
             - intros x Hx Hx'. apply list_elem_of_singleton in Hx'. subst. contradiction.
             - apply NoDup_singleton. }
    split. { intros x. rewrite elem_of_app, list_elem_of_singleton. tauto. }
    rewrite length_app. cbn. lia.
Qed.

Lemma fold_set_add_spec vs : forall l,
  NoDup l ->
  NoDup (fold_left set_add vs l) /\
  (forall x, x ∈ fold_left set_add vs l <-> x ∈ l \/ x ∈ vs) /\
  (length (fold_left set_add vs l) <= length l + length vs)%nat.
Proof.
  induction vs as [ | v vs IH]; intros l Hnd; cbn [fold_left].
  - split; [exact Hnd | ]. split; [ | cbn; lia].
    intros x. rewrite elem_of_nil. tauto.
  - destruct (set_add_spec l v Hnd) as (Hnd' & Hin' & Hlen').
    destruct (IH _ Hnd') as (Hnd'' & Hin'' & Hlen'').
    split; [exact Hnd'' | ]. split; [ | cbn [length]; lia].
    intros x. rewrite Hin'', Hin', elem_of_cons. tauto.
Qed.

Lemma list_max_le_sum l : (list_max l <= list_sum l)%nat.
Proof. induction l as [ | a l IH]; simpl; lia. Qed.

Lemma stats_of_consistent arrs :
  NoDup (uniqueValues (stats_of arrs)) /\
  (forall v, v ∈ uniqueValues (stats_of arrs) <-> exists vs, vs ∈ arrs /\ v ∈ vs) /\
  (length (uniqueValues (stats_of arrs)) <= totalValues (stats_of arrs))%nat /\
  (maxValuesInField (stats_of arrs) <= totalValues (stats_of arrs))%nat /\
  Forall (fun vs => (length vs <= maxValuesInField (stats_of arrs))%nat) arrs.
Proof.
  unfold stats_of. cbn [uniqueValues totalValues maxValuesInField].
  destruct (fold_set_add_spec (concat arrs) [] (NoDup_nil_2 (A:=value))) as (Hnd & Hin & Hlen).
  split; [exact Hnd | ]. split.
  { intros v. rewrite Hin, elem_of_nil, list_elem_of_In, in_concat.
    split.
    - intros [[] | (vs & H1 & H2)]. exists vs. rewrite !list_elem_of_In. tauto.
    - intros (vs & H1 & H2). right. exists vs. rewrite <- !list_elem_of_In. tauto. }
  split.
  { cbn [length] in Hlen. rewrite length_concat in Hlen. lia. }
  split; [apply list_max_le_sum | ].
  apply List.Forall_forall. intros vs Hvs.
  pose proof (list_max_le (map length arrs) (list_max (map length arrs))) as [H _].
  specialize (H (Nat.le_refl _)). rewrite List.Forall_forall in H.
  apply H. apply List.in_map. exact Hvs.
Qed.

Section HandlerRecords.

Variable processRecord : record -> Z -> M processed_record.
Variable pure : record -> result processed_record.

Hypothesis processRecord_quiet : forall r jobId st,
  quiet st (snd (processRecord r jobId st)).
Hypothesis processRecord_pure : forall r jobId st p,
  fst (processRecord r jobId st) = Ret p -> pure r = Ret p.

(** One turn of the loop, by what it does to the records and the
    summary. *)
Lemma record_step_records jobId r st :
  exists out st2, record_step processRecord jobId r st = (out, st2) /\
    match fst (processRecord r jobId st) with
    | Ret pr =>
        records (results st2) = records (results st) ++ [pr] /\
        summary (results st2) = collect_stats (data pr) (summary (results st))
    | Throw _ =>
        records (results st2) = records (results st) /\
        summary (results st2) = summary (results st)
    end.
Proof.
  unfold record_step. unfold bind at 1.
  destruct (attempt_record_spec processRecord processRecord_quiet jobId r st)
    as (out1 & st1 & Hrun & _ & _ & _ & _ & _ & _ & _ & _ & _ & Hres).
  rewrite Hrun.
  assert (H1 : match fst (processRecord r jobId st) with
               | Ret pr =>
                   records (results st1) = records (results st) ++ [pr] /\
                   summary (results st1) = collect_stats (data pr) (summary (results st))
               | Throw _ =>
                   records (results st1) = records (results st) /\
                   summary (results st1) = summary (results st)
               end).
  { destruct (fst (processRecord r jobId st)).
    - destruct Hres as (? & ? & _). split; assumption.
    - destruct Hres as (? & ? & _). split; assumption. }
  destruct out1 as [[] | e].
  - destruct (report_progress_spec st1) as (out2 & st2 & Hrep & R1 & _).
    rewrite Hrep. exists out2, st2. split; [reflexivity | ]. rewrite R1. exact H1.
  - exists (Throw e), st1. split; [reflexivity | exact H1].
Qed.

(** The records a loop adds are the results of a subsequence of the
    records it was given, in their order. *)
Lemma loop_records jobId recs : forall st,
  exists ps done,
    records (results (snd (for_of recs (record_step processRecord jobId) st)))
    = records (results st) ++ ps /\
    summary (results (snd (for_of recs (record_step processRecord jobId) st)))
    = fold_left (fun sm p => collect_stats (data p) sm) ps (summary (results st)) /\
    done `sublist_of` recs /\
    Forall2 (fun x p => pure x = Ret p) done ps.
Proof.
  induction recs as [ | r recs IH]; intros st.
  - exists [], []. cbn [for_of ret snd fold_left]. rewrite app_nil_r.
    repeat split; constructor.
  - rewrite for_of_cons.
    destruct (record_step_records jobId r st) as (out & st2 & Hstep & Hres).
    rewrite Hstep.
    destruct out as [[] | e].
    + destruct (IH st2) as (ps & done & Hrec & Hsum & Hsub & Hall).
      rewrite Hrec, Hsum.
      destruct (fst (processRecord r jobId st)) as [p | e] eqn:Hp.
      * destruct Hres as [-> ->]. exists (p :: ps), (r :: done).
        cbn [fold_left]. rewrite <- app_assoc. cbn [app].
        split; [reflexivity | ]. split; [reflexivity | ].
        split; [apply sublist_skip; exact Hsub | ].
        constructor; [eapply processRecord_pure; exact Hp | exact Hall].
      * destruct Hres as [-> ->]. exists ps, done.
        split; [reflexivity | ]. split; [reflexivity | ].
        split; [apply sublist_cons; exact Hsub | exact Hall].
    + cbn [snd].
      destruct (fst (processRecord r jobId st)) as [p | e'] eqn:Hp.
      * destruct Hres as [-> ->]. exists [p], [r]. cbn [fold_left].
        split; [reflexivity | ]. split; [reflexivity | ].
        split; [apply sublist_skip, sublist_nil_l | ].
        constructor; [eapply processRecord_pure; exact Hp | constructor].
      * destruct Hres as [-> ->]. exists [], []. cbn [fold_left].
        rewrite app_nil_r.
        split; [reflexivity | ]. split; [reflexivity | ].
        split; [apply sublist_nil_l | constructor].
Qed.

Hypothesis processRecord_clean : forall r jobId st,
  clean_tape (io_faults (world st)) ->
  fst (processRecord r jobId st) = pure r /\
  clean_tape (io_faults (world (snd (processRecord r jobId st)))).


End HandlerRecords.


Lemma processor_pure k r jobId st p :
  fst (processor_of k r jobId st) = Ret p -> processed_of k r = Ret p.
Proof.
  destruct (processor_of k r jobId st) as [out st'] eqn:Hrun. cbn [fst]. intros ->.
  destruct k; cbn [processor_of processed_of] in *.
  - rewrite (csv_processRecord_ret _ _ _ _ _ Hrun). reflexivity.
  - destruct (excel_processRecord_ret _ _ _ _ _ Hrun) as [Hs Hn]. rewrite Hn. cbn [rbind].
    destruct p as [sc d]. cbn in Hs. subst sc. reflexivity.
Qed.


(** What the handler returns, by the loop it has run. *)
Lemma returned_results k w r :
  fst (run_handler (handler_of k) w) = Ret r ->
  exists recs std,
    parse_stage k w = Ret recs /\
    results std = set_total (length recs) initial_results /\
    io_faults (world std) = io_faults w /\
    handler_faults (world std) = handler_faults w /\
    progress_faults (world std) = progress_faults w /\
    r = results (snd (for_of recs (record_step (processor_of k) (Bull.id (job w))) std)) /\
    total r = length recs /\
    length (records r) = processed r.
Proof.
  intros Hret.
  destruct (worker_run k w) as (out & st & Hrun & _ & Hspec).
  rewrite Hrun in Hret. cbn [fst] in Hret. subst out.
  destruct (parse_stage k w) as [recs | e].
  - destruct Hspec as (cs & _ & _ & _ & Htot & Hlen & _ & _ & _ & _ & _
                       & (std & H1 & H2 & H3 & H4 & H5) & (Hr & _)).
    exists recs, std. rewrite Hr. repeat split; assumption.
  - destruct Hspec as (Hout & _). discriminate.
Qed.

Lemma returned_records k w r :
  fst (run_handler (handler_of k) w) = Ret r ->
  exists recs done,
    parse_stage k w = Ret recs /\
    summary r = summary_of (records r) /\
    done `sublist_of` recs /\
    Forall2 (fun x p => processed_of k x = Ret p) done (records r).
Proof.
  intros Hret.
  destruct (returned_results k w r Hret) as (recs & std & Hp & Hres & _ & _ & _ & Hr & _).
  destruct (loop_records (processor_of k) (processed_of k) (processor_quiet k)
              (processor_pure k) (Bull.id (job w)) recs std)
    as (ps & done & Hrec & Hsum & Hsub & Hall).
  rewrite <- Hr, Hres in Hrec, Hsum. cbn [records summary set_total initial_results app] in Hrec, Hsum.
  exists recs, done. rewrite Hrec. repeat split; assumption.
Qed.

(** X6: In the result of a completed job, the summary of a field
    is built from the arrays the processed records hold in that field, in
    their order: their total length, their distinct values by first
    appearance and the length of the longest; a field that is an array in
    no record has no entry. *)
Theorem completed_job_summary (k : worker) (w : World) (r : Results) :
  fst (run_handler (handler_of k) w) = Ret r ->
  forall field,
    summary r !! field
    = match field_arrays field (records r) with
      | [] => None
      | arrays => Some (stats_of arrays)
      end.
Proof.
  intros Hret field. destruct (returned_records k w r Hret) as (recs & done & _ & Hsum & _).
  rewrite Hsum. apply summary_of_lookup.
Qed.

Lemma field_arrays_elem field ps vs :
  vs ∈ field_arrays field ps <-> exists p, p ∈ ps /\ data p !! field = Some (VArr vs).
Proof.
  unfold field_arrays. rewrite list_elem_of_omap. split.
  - intros (p & Hp & H). exists p. split; [exact Hp | ].
    destruct (data p !! field) as [[ | | | | | values | ] | ]; try discriminate.
    congruence.
  - intros (p & Hp & H). exists p. split; [exact Hp | ]. rewrite H. reflexivity.
Qed.

(** X7: In every entry of the summary of a completed job the
    distinct values are without repetition and are exactly the values
    found in the arrays of the field, they are no more than [totalValues],
    and [maxValuesInField] bounds the length of each array and is at most
    [totalValues]. *)
Theorem summary_entries_are_consistent (k : worker) (w : World) (r : Results)
    (field : jsstring) (s : Stats) :
  fst (run_handler (handler_of k) w) = Ret r ->
  summary r !! field = Some s ->
  NoDup (uniqueValues s) /\
  (forall v, v ∈ uniqueValues s <->
     exists p vs, p ∈ records r /\ data p !! field = Some (VArr vs) /\ v ∈ vs) /\
  (length (uniqueValues s) <= totalValues s)%nat /\
  (maxValuesInField s <= totalValues s)%nat /\
  (forall p vs, p ∈ records r -> data p !! field = Some (VArr vs) ->
     (length vs <= maxValuesInField s)%nat).
Proof.
  intros Hret Hs. destruct (returned_records k w r Hret) as (recs & done & _ & Hsum & _).
  rewrite Hsum, summary_of_lookup in Hs.
  destruct (field_arrays field (records r)) as [ | a arrs] eqn:E; [discriminate | ].
  injection Hs as <-. rewrite <- E.
  destruct (stats_of_consistent (field_arrays field (records r)))
    as (Hnd & Hin & Hlen & Hmax & Hall).
  split; [exact Hnd | ]. split.
  { intros v. rewrite Hin. split.
    - intros (vs & Hvs & Hv). apply field_arrays_elem in Hvs. destruct Hvs as (p & Hp & Hd).
      exists p, vs. repeat split; assumption.
    - intros (p & vs & Hp & Hd & Hv). exists vs. split; [ | exact Hv].
      apply field_arrays_elem. exists p. split; assumption. }
  split; [exact Hlen | ]. split; [exact Hmax | ].
  intros p vs Hp Hd. rewrite List.Forall_forall in Hall. apply Hall.
  apply list_elem_of_In. apply field_arrays_elem. exists p. split; assumption.
Qed.

Lemma fill_record_no_array headers cells : forall index acc,
  holds_no_array acc ->
  holds_no_array (ExcelWorker.fill_record headers index cells acc).
Proof.
  induction cells as [ | [c | ] cells IH]; intros index acc Hacc;
    cbn [ExcelWorker.fill_record]; [exact Hacc | | apply IH; exact Hacc].
  apply IH. unfold ExcelWorker.assign.
  destruct (bool_decide (ExcelWorker.header_key headers index = str "__proto__"));
    [exact Hacc | ].
  intros field v Hl.
  destruct (decide (ExcelWorker.header_key headers index = field)) as [<- | Hne].
  - rewrite lookup_insert_eq in Hl. injection Hl as <-.
    destruct c as [[ | b | n | t | repr] | runs | text]; cbn; try reflexivity.
    destruct (non_empty text); reflexivity.
  - rewrite lookup_insert_ne in Hl by exact Hne. eapply Hacc. exact Hl.
Qed.

Lemma parsed_records_hold_no_array k w recs :
  parse_stage k w = Ret recs -> Forall holds_no_array recs.
Proof.
  rewrite parse_stage_outcome. destruct k; cbn [outcome_of].
  - unfold csv_outcome.
    destruct (files w !! Bull.filePath (Bull.data (job w))) as [f | ]; [ | discriminate].
    destruct (as_csv f) as [rows | e]; [ | discriminate].
    intros H. injection H as <-. apply List.Forall_forall. intros x Hx.
    apply List.in_map_iff in Hx. destruct Hx as (row & <- & _).
    intros field v Hl. rewrite lookup_fmap in Hl.
    destruct (row !! field); cbn in Hl; [ | discriminate]. injection Hl as <-. reflexivity.
  - unfold excel_outcome.
    destruct (files w !! Bull.filePath (Bull.data (job w))) as [f | ]; [ | discriminate].
    destruct (as_xlsx f) as [[ws | ] | e]; try discriminate.
    destruct (0 <? length (ExcelWorker.missingColumns (ExcelWorker.header_row ws)))%nat;
      [discriminate | ].
    intros H. injection H as <-. apply List.Forall_forall. intros x Hx.
    apply List.in_map_iff in Hx. destruct Hx as (cells & <- & _).
    apply fill_record_no_array. intros field v Hl. rewrite lookup_empty in Hl. discriminate.
Qed.

Lemma processed_arrays k x p field vs :
  holds_no_array x -> processed_of k x = Ret p ->
  data p !! field = Some (VArr vs) -> field ∈ multi_fields k.
Proof.
  intros Hx Hp Hd. destruct k; cbn [processed_of multi_fields] in *.
  - injection Hp as <-. cbn [data] in Hd. rewrite csv_normalise_lookup in Hd.
    destruct (decide (field ∈ CsvWorker.multiValueFields)) as [Hin | Hnin]; [exact Hin | ].
    rewrite (bool_decide_eq_false_2 _ Hnin) in Hd. cbn [andb] in Hd.
    apply Hx in Hd. discriminate.
  - destruct (ExcelWorker.normalise_fields x) as [d | e] eqn:Hn; cbn [rbind] in Hp;
      [ | discriminate].
    injection Hp as <-. cbn [data] in Hd.
    pose proof (excel_normalise_lookup x d Hn field) as Hl.
    destruct (decide (field ∈ ExcelWorker.multiValueFields)) as [Hin | Hnin]; [exact Hin | ].
    rewrite (bool_decide_eq_false_2 _ Hnin) in Hl. cbn [andb] in Hl.
    rewrite Hl in Hd. apply Hx in Hd. discriminate.
Qed.

(** X8: The summary of a completed job has entries for
    multi-value fields of its worker only. *)
Theorem summary_fields_are_multi_value_fields (k : worker) (w : World) (r : Results)
    (field : jsstring) (s : Stats) :
  fst (run_handler (handler_of k) w) = Ret r ->
  summary r !! field = Some s ->
  field ∈ multi_fields k.
Proof.
  intros Hret Hs.
  destruct (returned_records k w r Hret) as (recs & done & Hparse & Hsum & Hsub & Hall).
  rewrite Hsum, summary_of_lookup in Hs.
  destruct (field_arrays field (records r)) as [ | vs arrs] eqn:E; [discriminate | ].
  assert (Hvs : vs ∈ field_arrays field (records r)) by (rewrite E; apply list_elem_of_here).
  apply field_arrays_elem in Hvs. destruct Hvs as (p & Hp & Hd).
  apply list_elem_of_lookup in Hp. destruct Hp as (i & Hi).
  destruct (Forall2_lookup_r _ _ _ _ _ Hall Hi) as (x & Hx & Hpx).
  apply (processed_arrays k x p field vs); [ | exact Hpx | exact Hd].
  pose proof (parsed_records_hold_no_array k w recs Hparse) as Hno.
  rewrite List.Forall_forall in Hno. apply Hno. apply list_elem_of_In.
  eapply sublist_subseteq; [exact Hsub | ]. eapply list_elem_of_lookup_2. exact Hx.
Qed.


(** X10: The [records] of the result of a completed job are the
    results of [processRecord] on a subsequence of the parsed records, in
    file order; there are [processed] of them and each has [success]
    true. *)
Theorem completed_job_records (k : worker) (w : World) (r : Results) :
  fst (run_handler (handler_of k) w) = Ret r ->
  exists recs done,
    parse_stage k w = Ret recs /\
    done `sublist_of` recs /\
    Forall2 (fun x p => processed_of k x = Ret p) done (records r) /\
    length (records r) = processed r /\
    Forall (fun p => success p = true) (records r).
Proof.
  intros Hret.
  destruct (returned_records k w r Hret) as (recs & done & Hparse & _ & Hsub & Hall).
  exists recs, done. split; [exact Hparse | ]. split; [exact Hsub | ].
  split; [exact Hall | ]. split.
  - destruct (returned_results k w r Hret) as (? & ? & _ & _ & _ & _ & _ & _ & _ & Hlen).
    exact Hlen.
  - apply List.Forall_forall. intros p Hp. apply list_elem_of_In, list_elem_of_lookup in Hp.
    destruct Hp as (i & Hi).
    destruct (Forall2_lookup_r _ _ _ _ _ Hall Hi) as (x & _ & Hpx).
    destruct k; cbn [processed_of] in Hpx.
    + injection Hpx as <-. reflexivity.
    + destruct (ExcelWorker.normalise_fields x); cbn [rbind] in Hpx; [ | discriminate].
      injection Hpx as <-. reflexivity.
Qed.

(** ** The records [parseExcel] returns *)

Lemma fill_record_other headers cells key : forall index acc,
  (forall j c, cells !! j = Some (Some c) ->
     ExcelWorker.header_key headers (index + j) <> key) ->
  ExcelWorker.fill_record headers index cells acc !! key = acc !! key.
Proof.
  induction cells as [ | [c | ] cells IH]; intros index acc Hkey;
    cbn [ExcelWorker.fill_record]; [reflexivity | | ].
  - rewrite IH.
    + unfold ExcelWorker.assign.
      destruct (bool_decide (ExcelWorker.header_key headers index = str "__proto__"));
        [reflexivity | ].
      apply lookup_insert_ne. specialize (Hkey O c eq_refl).
      rewrite Nat.add_0_r in Hkey. exact Hkey.
    + intros j c' Hj. replace (S index + j)%nat with (index + S j)%nat by lia.
      apply (Hkey (S j) c'). exact Hj.
  - apply IH. intros j c' Hj. replace (S index + j)%nat with (index + S j)%nat by lia.
    apply (Hkey (S j) c'). exact Hj.
Qed.

Lemma fill_record_proto headers cells : forall index acc,
  ExcelWorker.fill_record headers index cells acc !! str "__proto__"
  = acc !! str "__proto__".
Proof.
  induction cells as [ | [c | ] cells IH]; intros index acc;
    cbn [ExcelWorker.fill_record]; [reflexivity | | apply IH].
  rewrite IH. unfold ExcelWorker.assign.
  destruct (decide (ExcelWorker.header_key headers index = str "__proto__")) as [E | NE].
  - rewrite (bool_decide_eq_true_2 _ E). reflexivity.
  - rewrite (bool_decide_eq_false_2 _ NE). apply lookup_insert_ne. exact NE.
Qed.

Lemma fill_record_last headers cells : forall index acc j c,
  cells !! j = Some (Some c) ->
  ExcelWorker.header_key headers (index + j) <> str "__proto__" ->
  (forall j' c', (j < j')%nat -> cells !! j' = Some (Some c') ->
     ExcelWorker.header_key headers (index + j')
     <> ExcelWorker.header_key headers (index + j)) ->
  ExcelWorker.fill_record headers index cells acc
  !! ExcelWorker.header_key headers (index + j)
  = Some (ExcelWorker.cell_value c).
Proof.
  induction cells as [ | o cells IH]; intros index acc j c Hj Hown Hlast; [discriminate | ].
  destruct j as [ | j].
  - cbn in Hj. injection Hj as ->. cbn [ExcelWorker.fill_record].
    rewrite Nat.add_0_r in *. rewrite fill_record_other.
    + unfold ExcelWorker.assign. rewrite (bool_decide_eq_false_2 _ Hown).
      apply lookup_insert_eq.
    + intros j' c' Hj'. replace (S index + j')%nat with (index + S j')%nat by lia.
      apply (Hlast (S j') c'); [lia | exact Hj'].
  - cbn in Hj. replace (index + S j)%nat with (S index + j)%nat by lia.
    assert (Hlast' : forall j' c', (j < j')%nat -> cells !! j' = Some (Some c') ->
              ExcelWorker.header_key headers (S index + j')
              <> ExcelWorker.header_key headers (S index + j)).
    { intros j' c' Hlt Hj'. replace (S index + j')%nat with (index + S j')%nat by lia.
      replace (S index + j)%nat with (index + S j)%nat by lia.
      apply (Hlast (S j') c'); [lia | exact Hj']. }
    replace (index + S j)%nat with (S index + j)%nat in Hown by lia.
    destruct o as [c0 | ]; cbn [ExcelWorker.fill_record]; apply IH; assumption.
Qed.

(** X11: When the header row holds the four required columns,
    [parseExcel] returns one record per row other than row 1, in their
    order.  A record holds the value of a cell under the header of its
    column where that header is not [__proto__] and no later cell of the
    row has the same header, and nothing under any other key; under the
    key [__proto__] a record holds nothing, whatever the row; cells
    beyond the header row are stored under the key [undefined]. *)
Theorem excel_rows_become_records (w : World) (f : File)
    (ws : list (Z * list (option cell))) :
  files w !! Bull.filePath (Bull.data (job w)) = Some f ->
  as_xlsx f = Ret (Some ws) ->
  ExcelWorker.missingColumns (ExcelWorker.header_row ws) = [] ->
  let headers := ExcelWorker.header_row ws in
  exists recs,
    parse_stage Excel w = Ret recs /\
    Forall2
      (fun cells r =>
         (forall j c,
            cells !! j = Some (Some c) ->
            ExcelWorker.header_key headers j <> str "__proto__" ->
            (forall j' c', (j < j')%nat -> cells !! j' = Some (Some c') ->
               ExcelWorker.header_key headers j' <> ExcelWorker.header_key headers j) ->
            r !! ExcelWorker.header_key headers j = Some (ExcelWorker.cell_value c)) /\
         (forall key,
            (forall j c, cells !! j = Some (Some c) ->
               ExcelWorker.header_key headers j <> key) ->
            r !! key = None) /\
         r !! str "__proto__" = None)
      (ExcelWorker.data_rows ws) recs /\
    (forall j h, headers !! j = Some (Some (CPlain (SStr h))) ->
       ExcelWorker.header_key headers j = h) /\
    (forall j, (length headers <= j)%nat ->
       ExcelWorker.header_key headers j = str "undefined") /\
    (forall col, In col ExcelWorker.requiredColumns ->
       exists j, headers !! j = Some (Some (CPlain (SStr col)))).
Proof.
  intros Hfile Hxlsx Hmiss headers.
  exists (map (fun cells => ExcelWorker.fill_record headers 0 cells ∅)
              (ExcelWorker.data_rows ws)).
  split.
  { rewrite parse_stage_outcome. cbn [outcome_of]. unfold excel_outcome.
    rewrite Hfile, Hxlsx, Hmiss. reflexivity. }
  split.
  { apply Forall2_fmap_r. apply Forall_Forall2_diag. apply List.Forall_forall.
    intros cells _. split; [ | split].
    - intros j c Hj Hown Hlast.
      apply (fill_record_last headers cells 0 ∅ j c Hj); [exact Hown | exact Hlast].
    - intros key Hkey. rewrite fill_record_other; [apply lookup_empty | exact Hkey].
    - rewrite fill_record_proto. apply lookup_empty. }
  split.
  { intros j h Hj. unfold ExcelWorker.header_key. rewrite Hj. reflexivity. }
  split.
  { intros j Hj. unfold ExcelWorker.header_key.
    rewrite (lookup_ge_None_2 headers j Hj). reflexivity. }
  intros col Hcol.
  assert (Hinc : ExcelWorker.headers_include headers col = true).
  { destruct (ExcelWorker.headers_include headers col) eqn:E; [reflexivity | exfalso].
    assert (Hin : In col (ExcelWorker.missingColumns headers)).
    { unfold ExcelWorker.missingColumns. apply List.filter_In. rewrite E. auto. }
    fold headers in Hmiss. rewrite Hmiss in Hin. destruct Hin. }
  unfold ExcelWorker.headers_include in Hinc. apply existsb_exists in Hinc.
  destruct Hinc as (o & Hin & Ho). apply list_elem_of_In, list_elem_of_lookup in Hin.
  destruct Hin as (j & Hj). exists j. rewrite Hj.
  destruct o as [[[ | | | s | ] | | ] | ]; cbn in Ho; try discriminate.
  apply bool_decide_eq_true_1 in Ho. subst. reflexivity.
Qed.

(** ** The answers of the API *)




Lemma chunks_concat {A} (s : nat) : forall (n : nat) (l : list A),
  (length l <= n * s)%nat ->
  concat (map (fun p => take s (drop ((p - 1) * s) l)) (seq 1 n)) = l.
Proof.
  induction n as [ | n IH]; intros l Hlen.
  - destruct l; [reflexivity | cbn in Hlen; lia].
  - cbn [seq map concat]. rewrite <- seq_shift, map_map.
    transitivity (take s l ++ drop s l); [ | apply take_drop].
    f_equal.
    rewrite <- (IH (drop s l)) by (rewrite length_drop; lia).
    f_equal. apply map_ext_in. intros p Hp. apply in_seq in Hp.
    rewrite drop_drop. do 2 f_equal.
    destruct p as [ | p]; [lia | ]. cbn [Nat.sub]. rewrite !Nat.sub_0_r. lia.
Qed.

Lemma page_nat (jobs : list Bull.Job) (p s : Z) :
  1 <= p -> 1 <= s < 2 ^ 53 -> Z.of_nat (length jobs) < 2 ^ 53 ->
  fst (Api.paginate jobs (Number.of_int p) (Number.of_int s))
  = take (Z.to_nat s) (drop ((Z.to_nat p - 1) * Z.to_nat s) jobs).
Proof.
  intros Hp Hs Hn. rewrite page_take_drop by assumption. do 2 f_equal. nia.
Qed.

(** A page size that is [Infinity] leaves every page empty. *)
Lemma infinite_page_bounds n p :
  1 <= p -> 0 <= n < 2 ^ 53 ->
  let start := Number.mul (Number.sub (Number.of_int p) (Number.of_int 1))
                          (S754_infinity false) in
  Api.relative_index n (Number.add start (S754_infinity false))
  = Api.relative_index n start.
Proof.
  intros Hp Hn start.
  assert (Hpos : forall x, above (2 ^ 53 - 1) x \/ (exists v, holds x v) ->
            Api.relative_index n
              (Number.add (Number.mul x (S754_infinity false)) (S754_infinity false))
            = Api.relative_index n (Number.mul x (S754_infinity false))).
  { intros x [[-> | (V & (M & E & (-> & _) & _) & _)] | (v & M & E & (-> & _) & _)];
      reflexivity. }
  destruct (Z.eq_dec p 1) as [-> | Hp1]; [reflexivity | ].
  subst start. apply Hpos.
  destruct (Z_lt_le_dec p (2 ^ 53)) as [Hlt | Hge].
  - right. rewrite sub_ints by lia. eexists. apply of_int_holds. lia.
  - left. apply sub_one_above, of_int_above, Hge.
Qed.

Lemma pages_of_infinity n :
  0 <= n < 2 ^ 53 ->
  Number.ceil (Number.div (Number.of_int n) (S754_infinity false)) = S754_zero false.
Proof.
  intros Hn. destruct (Z.eq_dec n 0) as [-> | Hn0]; [reflexivity | ].
  destruct (of_int_holds n ltac:(lia)) as (M & E & (-> & _) & _). reflexivity.
Qed.

(** X14: For a page size [s] with [1 <= s < 2^53] and a listing of
    fewer than [2^53] jobs, the pages 1 to [ceil(n / s)] hold every job
    exactly once, in order; a page [p >= 1] holds [min(s, n - (p-1)*s)]
    jobs, none when that is negative.  With a page size that is read as
    [Infinity], every page [p >= 1] is empty and [totalPages] is 0. *)
Theorem pages_partition (jobs : list Bull.Job) (s : Z) :
  1 <= s < 2 ^ 53 -> Z.of_nat (length jobs) < 2 ^ 53 ->
  let n := Z.of_nat (length jobs) in
  let pages := (n + s - 1) / s in
  concat (map (fun p => fst (Api.paginate jobs (Number.of_int (Z.of_nat p))
                                          (Number.of_int s)))
              (seq 1 (Z.to_nat pages)))
  = jobs /\
  (forall p, 1 <= p ->
     Z.of_nat (length (fst (Api.paginate jobs (Number.of_int p) (Number.of_int s))))
     = Z.max 0 (Z.min s (n - (p - 1) * s))) /\
  (forall p, 1 <= p ->
     Api.paginate jobs (Number.of_int p) (S754_infinity false)
     = ([], {| Api.page := Number.of_int p; Api.pageSize := S754_infinity false;
               Api.totalJobs := length jobs; Api.totalPages := S754_zero false |})).
Proof.
  intros Hs Hn n pages. split; [ | split].
  - transitivity (concat (map (fun p => take (Z.to_nat s)
                                          (drop ((p - 1) * Z.to_nat s) jobs))
                              (seq 1 (Z.to_nat pages)))).
    + f_equal. apply map_ext_in. intros p Hp. apply in_seq in Hp.
      rewrite page_nat by lia. rewrite Nat2Z.id. reflexivity.
    + apply chunks_concat.
      pose proof (ceil_division n s ltac:(lia) ltac:(lia)) as Hc. fold pages in Hc.
      assert (0 <= pages) by (apply Z.div_pos; lia). nia.
  - intros p Hp. rewrite page_nat by lia.
    rewrite length_take, length_drop. fold n. nia.
  - intros p Hp. unfold Api.paginate. f_equal.
    + unfold Api.slice. rewrite infinite_page_bounds by lia.
      rewrite Z.sub_diag. apply take_0.
    + f_equal. apply pages_of_infinity. lia.
Qed.

(** The bounds of page 1 for a negative page size. *)
Lemma negative_size_bounds n s :
  s < 0 -> 0 <= n -> n < 2 ^ 53 \/ - 2 ^ 53 < s ->
  let start := Number.mul (Number.sub (Number.of_int 1) (Number.of_int 1))
                          (Number.of_int s) in
  Api.relative_index n start = 0 /\
  Api.relative_index n (Number.add start (Number.of_int s)) = Z.max (n + s) 0.
Proof.
  intros Hs Hn Hsmall start. subst start.
  change (Number.sub (Number.of_int 1) (Number.of_int 1)) with (S754_zero false).
  replace s with (- - s) at 1 2 3 by lia. rewrite of_int_opp by lia.
  destruct (Z_lt_le_dec (- s) (2 ^ 53)) as [Hlt | Hge].
  - pose proof (of_int_holds (- s) ltac:(lia)) as Hh.
    pose proof (relative_index_opp_holds n _ (- s) Hh ltac:(lia)) as Hr.
    destruct Hh as (M & E & (Hx & _) & _). rewrite Hx in *.
    split; [reflexivity | ].
    change (Number.add (Number.mul (S754_zero false)
                          (SFopp (S754_finite false (Z.to_pos M) E)))
                       (SFopp (S754_finite false (Z.to_pos M) E)))
      with (SFopp (S754_finite false (Z.to_pos M) E)).
    rewrite Hr. f_equal. lia.
  - pose proof (of_int_above (- s) Hge) as Ha.
    pose proof (relative_index_opp_above n _ (2 ^ 53) Ha ltac:(lia)) as Hr.
    replace (Z.max (n + s) 0) with 0 by lia.
    destruct Ha as [Hx | (V & (M & E & (Hx & _) & _) & _)]; rewrite Hx in *.
    + split; reflexivity.
    + split; [reflexivity | ].
      change (Number.add (Number.mul (S754_zero false)
                            (SFopp (S754_finite false (Z.to_pos M) E)))
                         (SFopp (S754_finite false (Z.to_pos M) E)))
        with (SFopp (S754_finite false (Z.to_pos M) E)).
      exact Hr.
Qed.

(** X21: A negative page size [s] is served: page 1 of a listing
    of [n] jobs then holds the first [n + s] jobs, that is all but the
    last [-s], and none when [n + s] is negative; this for [n] below
    [2^53], as the length of every array is, and also for every [s] above
    [-2^53]. *)
Theorem negative_page_size_drops_the_tail (jobs : list Bull.Job) (s : Z) :
  s < 0 -> Z.of_nat (length jobs) < 2 ^ 53 \/ - 2 ^ 53 < s ->
  let pg := Number.of_int 1 in
  let sz := Number.of_int s in
  fst (Api.paginate jobs pg sz) = take (Z.to_nat (Z.of_nat (length jobs) + s)) jobs /\
  Z.of_nat (length (fst (Api.paginate jobs pg sz)))
  = Z.max 0 (Z.of_nat (length jobs) + s) /\
  (forall qs,
     Api.list_jobs {| Api.q_worker := Some (Api.QString (str "csv"));
                      Api.q_status := Some (Api.QString (str "waiting"));
                      Api.q_page := S754_nan; Api.q_pageSize := sz |} qs
     = Api.json
         (Api.JobsPage (str "csv") (str "waiting")
            (snd (Api.paginate (Api.waitingJobs (Api.csvQueue qs)) pg sz))
            (fst (Api.paginate (Api.waitingJobs (Api.csvQueue qs)) pg sz)))).
Proof.
  intros Hs Hn pg sz.
  assert (Hpage : fst (Api.paginate jobs pg sz)
                  = take (Z.to_nat (Z.of_nat (length jobs) + s)) jobs).
  { unfold Api.paginate, Api.slice. cbn [fst]. subst pg sz.
    destruct (negative_size_bounds (Z.of_nat (length jobs)) s Hs ltac:(lia) Hn)
      as [-> ->].
    rewrite Z.sub_0_r. change (Z.to_nat 0) with O. cbn [drop].
    f_equal. lia. }
  split; [exact Hpage | ]. split.
  - rewrite Hpage, length_take. lia.
  - intros qs. unfold Api.list_jobs.
    cbn [Api.q_worker Api.q_status Api.q_page Api.q_pageSize].
    unfold Api.number_or. subst sz. rewrite of_int_negative_truthy by lia.
    change (Number.falsy S754_nan) with true. cbv iota.
    change (Api.status_or_active (Some (Api.QString (str "waiting"))))
      with (Api.QString (str "waiting")).
    change (negb (Api.query_truthy (Some (Api.QString (str "csv"))))) with false. cbv iota.
    change (Api.getQueueByWorkerType (Some (Api.QString (str "csv"))))
      with (Ret (Some {| Api.queue := Api.CsvQueue; Api.type := str "csv" |})).
    cbv iota. cbn [Api.queue Api.get_queue].
    change (Api.jobs_by_status (Api.csvQueue qs) (str "waiting"))
      with (Some (Api.waitingJobs (Api.csvQueue qs))).
    cbv iota. cbn [Api.query_text]. fold pg.
    destruct (Api.paginate (Api.waitingJobs (Api.csvQueue qs)) _ _). reflexivity.
Qed.

(** ** The status of a job *)

Lemma str_inj a b : str a = str b -> a = b.
Proof.
  unfold str. intros H.
  rewrite <- (string_of_list_ascii_of_string a), <- (string_of_list_ascii_of_string b).
  f_equal. revert H. generalize (list_ascii_of_string a) (list_ascii_of_string b).
  induction l as [ | x l IH]; intros [ | y l'] H; try discriminate; [reflexivity | ].
  cbn in H. injection H as Hxy Hl. f_equal; [ | apply IH; exact Hl].
  rewrite <- (ascii_N_embedding x), <- (ascii_N_embedding y). congruence.
Qed.

Lemma int_to_string_inj a b : int_to_string a = int_to_string b -> a = b.
Proof.
  unfold int_to_string. intros H. apply str_inj in H.
  apply DecimalZ.to_int_inj.
  assert (Hn : forall z, Z.to_int z <> Decimal.Pos Decimal.Nil
                         /\ Z.to_int z <> Decimal.Neg Decimal.Nil).
  { intros [ | p | p]; cbn; split; try discriminate;
      intros E; injection E as E; exact (Unsigned.to_uint_nonnil p E). }
  destruct (Hn a) as [Ha1 Ha2]. destruct (Hn b) as [Hb1 Hb2].
  pose proof (NilZero.isi (Z.to_int a) Ha1 Ha2) as Ia.
  pose proof (NilZero.isi (Z.to_int b) Hb1 Hb2) as Ib.
  rewrite H in Ia. congruence.
Qed.


Lemma find_app_none {A} (p : A -> bool) l1 l2 :
  find p l1 = None -> find p (l1 ++ l2) = find p l2.
Proof.
  induction l1 as [ | x l1 IH]; cbn; [reflexivity | ].
  destruct (p x); [discriminate | exact IH].
Qed.

Lemma find_none_forall {A} (p : A -> bool) l :
  Forall (fun x => p x = false) l -> find p l = None.
Proof.
  induction 1 as [ | x l Hx _ IH]; cbn; [reflexivity | ]. rewrite Hx. exact IH.
Qed.

Lemma fresh_ids_add q d now :
  fresh_ids q ->
  fresh_ids (Api.queue_add q (Api.new_job q d now)) /\
  JobStatus.getJob (Api.queue_add q (Api.new_job q d now)) (int_to_string (Api.next_id q))
  = Some (Api.new_job q d now).
Proof.
  intros Hfresh. unfold fresh_ids, JobStatus.all_jobs in *.
  cbn [Api.queue_add Api.waitingJobs Api.activeJobs Api.completedJobs Api.failedJobs
       Api.delayedJobs Api.next_id].
  rewrite !List.Forall_app in Hfresh. destruct Hfresh as (Hw & Ha & Hc & Hf & Hd).
  split.
  - rewrite !List.Forall_app. 
    assert (Hweak : forall l, Forall (fun j => Bull.id j < Api.next_id q) l ->
                              Forall (fun j => Bull.id j < Api.next_id q + 1) l).
    { intros l Hl. eapply List.Forall_impl; [ | exact Hl]. cbn. intros; lia. }
    repeat split; auto. constructor; [cbn; lia | constructor].
  - unfold JobStatus.getJob, JobStatus.all_jobs.
    cbn [Api.queue_add Api.waitingJobs Api.activeJobs Api.completedJobs Api.failedJobs
         Api.delayedJobs].
    rewrite <- !app_assoc. rewrite find_app_none.
    + cbn [app find Api.new_job Bull.id]. rewrite bool_decide_eq_true_2 by reflexivity.
      reflexivity.
    + apply find_none_forall. eapply List.Forall_impl; [ | exact Hw].
      cbn. intros j Hj. apply bool_decide_eq_false_2. intros E.
      apply int_to_string_inj in E. lia.
Qed.

(** X17: After an upload answered with a job id, where the ids
    of the jobs of each queue are below the id of its next job, asking
    for that id with the reported file type finds the job: waiting,
    without result, progress 0, with the stored path and the original
    name; and the ids of both queues are still below their next ids. *)
Theorem uploaded_job_is_found (f : Api.upload_file) (qs : Api.Queues)
    (id : Z) (name type : jsstring) :
  Api.content (fst (Api.upload (Some f) qs)) = Api.Queued id name type ->
  fresh_ids (Api.csvQueue qs) -> fresh_ids (Api.excelQueue qs) ->
  let qs' := snd (Api.upload (Some f) qs) in
  (exists r,
     JobStatus.get_job (Some (Api.QString type)) (int_to_string id) qs'
     = JobStatus.Report r /\
     JobStatus.jobId r = id /\
     JobStatus.state r = Bull.Waiting /\
     JobStatus.queueType r = type /\
     Bull.filePath (JobStatus.data r) = Api.path f /\
     Bull.originalName (JobStatus.data r) = Api.originalname f /\
     Bull.fileType (JobStatus.data r) = type /\
     JobStatus.result r = None /\
     JobStatus.progress r = Number.of_int 0) /\
  name = Api.originalname f /\
  fresh_ids (Api.csvQueue qs') /\ fresh_ids (Api.excelQueue qs').
Proof.
  intros Hresp Hcsv Hexcel qs'. subst qs'. unfold Api.upload in *.
  destruct (Api.fileFilter f); cbn [negb] in *; [ | discriminate].
  destruct (Api.fileSizeLimit <=? Api.size f); [discriminate | ].
  unfold Api.upload_handler in *.
  assert (Hqi : forall qi, Api.getQueueForFile (Api.originalname f) = Ret qi ->
            qi = {| Api.queue := Api.CsvQueue; Api.type := str "csv" |}
            \/ qi = {| Api.queue := Api.ExcelQueue; Api.type := str "excel" |}).
  { intros qi. unfold Api.getQueueForFile.
    destruct (bool_decide _); [intros E; injection E as <-; auto | ].
    destruct (_ || _); [intros E; injection E as <-; auto | discriminate]. }
  destruct (Api.getQueueForFile (Api.originalname f)) as [qi | e]; [ | discriminate].
  cbn [fst snd Api.content Api.json] in *. injection Hresp as <- <- <-.
  destruct (Hqi qi eq_refl) as [-> | ->]; cbn [Api.queue Api.type Api.get_queue Api.set_queue
    Api.csvQueue Api.excelQueue] in *.
  - destruct (fresh_ids_add (Api.csvQueue qs)
                {| Bull.filePath := Api.path f; Bull.originalName := Api.originalname f;
                   Bull.fileType := str "csv"; Bull.timestamp := Api.clock qs |}
                (Api.clock qs) Hcsv) as [Hfresh Hget].
    split; [ | split; [reflexivity | split; assumption]].
    eexists. split.
    + unfold JobStatus.get_job.
      change (Api.query_truthy (Some (Api.QString (str "csv")))) with true.
      change (Api.getQueueByWorkerType (Some (Api.QString (str "csv"))))
        with (Ret (Some {| Api.queue := Api.CsvQueue; Api.type := str "csv" |})).
      cbv iota beta. cbn [Api.queue Api.type Api.get_queue Api.csvQueue].
      cbn [Api.new_job Bull.id] in Hget |- *. rewrite Hget. reflexivity.
    + cbn. repeat split.
  - destruct (fresh_ids_add (Api.excelQueue qs)
                {| Bull.filePath := Api.path f; Bull.originalName := Api.originalname f;
                   Bull.fileType := str "excel"; Bull.timestamp := Api.clock qs |}
                (Api.clock qs) Hexcel) as [Hfresh Hget].
    split; [ | split; [reflexivity | split; assumption]].
    eexists. split.
    + unfold JobStatus.get_job.
      change (Api.query_truthy (Some (Api.QString (str "excel")))) with true.
      change (Api.getQueueByWorkerType (Some (Api.QString (str "excel"))))
        with (Ret (Some {| Api.queue := Api.ExcelQueue; Api.type := str "excel" |})).
      cbv iota beta. cbn [Api.queue Api.type Api.get_queue Api.excelQueue].
      cbn [Api.new_job Bull.id] in Hget |- *. rewrite Hget. reflexivity.
    + cbn. repeat split.
Qed.


(** ** The error of the progress formula *)

Lemma canon_same x M1 E1 M2 E2 :
  canon x M1 E1 -> canon x M2 E2 -> M1 = M2 /\ E1 = E2.
Proof.
  intros (-> & HM1 & HE1) (H & HM2 & HE2). injection H as HM HE.
  assert (0 < 2 ^ 52) by (apply pow2_pos; lia).
  split; [ | exact HE]. apply Z2Pos.inj in HM; lia.
Qed.

(** The relative error of one rounding is at most [2^-53]. *)
Lemma rounding_error A B E x M' E' :
  0 < B -> rounds_at A B E x -> canon x M' E' ->
  (2 ^ 53 - 1) * A <= 2 ^ 53 * (fval M' E' * B) <= (2 ^ 53 + 1) * A.
Proof.
  intros HB Hr Hc.
  destruct (rounds_at_canon A B E x HB Hr) as (M2 & E2 & Hc2 & Hv & _).
  destruct (canon_same _ _ _ _ _ Hc Hc2) as [-> ->]. rewrite Hv.
  destruct Hr as (HE & HA & _).
  assert (Hu : 0 < 2 ^ (E + 1074)) by (apply pow2_pos; lia).
  set (u := 2 ^ (E + 1074)) in *. set (D := B * u) in *.
  assert (HD : 0 < D) by (unfold D; nia).
  assert (H52 : 0 < 2 ^ 52) by (apply pow2_pos; lia).
  assert (HA0 : 0 <= A) by nia.
  pose proof (rne_bounds A D HD HA0) as Hb.
  set (m := rne A D) in *. unfold fval. fold u.
  replace (m * u * B) with (m * D) by (unfold D; ring).
  change (2 ^ 53) with (2 * 2 ^ 52). 
  set (c := 2 ^ 52) in *. nia.
Qed.

(** X18: For up to [2^45] records, the progress reported after
    [k] of [t] records is the integer percentage [floor(100 k / t)] or one
    less, never more. *)
Theorem progress_is_within_one_of_the_percentage (k t : Z) :
  1 <= k <= t -> t <= 2 ^ 45 ->
  exists z, progress_percent k t = Number.of_int z /\
            100 * k / t - 1 <= z <= 100 * k / t.
Proof.
  intros Hk Ht.
  assert (Ht53 : t < 2 ^ 53) by (assert (2 ^ 45 < 2 ^ 53) by (apply Z.pow_lt_mono_r; lia); lia).
  destruct (progress_percent_value k t Hk Ht53) as (M & E & Hc & _ & Hp).
  destruct (quotient100_spec k t ltac:(lia) ltac:(lia)) as (Md & Ed & E1 & Hcd & _ & Hr1).
  destruct (div_ints k t ltac:(lia) ltac:(lia)) as (E2 & _ & Hr2).
  assert (HW : 0 < 2 ^ 1074) by (apply pow2_pos; lia).
  pose proof (rounding_error _ _ _ _ _ _ HW Hr1 Hc) as Hb1.
  assert (Ht0 : 0 < t) by lia.
  pose proof (rounding_error _ _ _ _ _ _ Ht0 Hr2 Hcd) as Hb2.
  set (W := 2 ^ 1074) in *. set (p := fval M E) in *. set (q := fval Md Ed) in *.
  exists (p / W). split; [exact Hp | ].
  assert (Hb1' : (2 ^ 53 - 1) * (100 * q) <= 2 ^ 53 * p <= (2 ^ 53 + 1) * (100 * q)).
  { destruct Hb1 as [Hl Hu]. split.
    - apply (Z.mul_le_mono_pos_r _ _ W HW).
      replace ((2 ^ 53 - 1) * (100 * q) * W) with ((2 ^ 53 - 1) * (q * (100 * W))) by ring.
      replace (2 ^ 53 * p * W) with (2 ^ 53 * (p * W)) by ring. exact Hl.
    - apply (Z.mul_le_mono_pos_r _ _ W HW).
      replace ((2 ^ 53 + 1) * (100 * q) * W) with ((2 ^ 53 + 1) * (q * (100 * W))) by ring.
      replace (2 ^ 53 * p * W) with (2 ^ 53 * (p * W)) by ring. exact Hu. }
  assert (Hq0 : 0 <= q).
  { destruct Hcd as (_ & HM & _). unfold q, fval.
    assert (0 < 2 ^ 52) by (apply pow2_pos; lia).
    assert (0 <= 2 ^ (Ed + 1074)) by (apply Z.pow_nonneg; lia). nia. }
  set (F := 100 * k / t).
  assert (HF : F * t <= 100 * k < (F + 1) * t).
  { unfold F. pose proof (Z.div_mod (100 * k) t ltac:(lia)).
    pose proof (Z.mod_pos_bound (100 * k) t ltac:(lia)). nia. }
  assert (HF100 : 0 <= F <= 100).
  { unfold F. split; [apply Z.div_pos; lia | ].
    apply Z.div_le_upper_bound; lia. }
  assert (Hc53 : 2 ^ 53 = 9007199254740992) by reflexivity.
  assert (Hc45 : 2 ^ 45 = 35184372088832) by reflexivity.
  rewrite Hc53 in *. rewrite Hc45 in *.
  (* the two roundings together *)
  assert (Hup : 9007199254740992 * 9007199254740992 * (p * t)
                <= 9007199254740993 * 9007199254740993 * (100 * k * W)).
  { transitivity (9007199254740992 * (9007199254740993 * (100 * q) * t)).
    - assert (0 <= t) by lia. nia.
    - nia. }
  assert (Hlow : 9007199254740991 * 9007199254740991 * (100 * k * W)
                 <= 9007199254740992 * 9007199254740992 * (p * t)).
  { transitivity (9007199254740992 * (9007199254740991 * (100 * q) * t)).
    - nia.
    - assert (0 <= t) by lia. nia. }
  split.
  - destruct (Z.eq_dec F 0) as [-> | HF0].
    { assert (0 <= p / W); [ | lia]. apply Z.div_pos; [ | lia].
      destruct Hb1' as [Hb _]. nia. }
    assert (Hgoal : (F - 1) * W <= p).
    2: { apply Z.div_le_lower_bound; [lia | ]. rewrite Z.mul_comm. exact Hgoal. }
    assert (H1 : 9007199254740992 * 9007199254740992 * ((F - 1) * W * t)
                 <= 9007199254740992 * 9007199254740992 * (p * t)).
    { etransitivity; [ | exact Hlow].
      transitivity (9007199254740991 * 9007199254740991 * (F * t * W)).
      - assert (9007199254740992 * 9007199254740992 * (F - 1)
                <= 9007199254740991 * 9007199254740991 * F) by lia.
        assert (0 <= t * W) by nia.
        replace (9007199254740992 * 9007199254740992 * ((F - 1) * W * t))
          with (9007199254740992 * 9007199254740992 * (F - 1) * (t * W)) by ring.
        replace (9007199254740991 * 9007199254740991 * (F * t * W))
          with (9007199254740991 * 9007199254740991 * F * (t * W)) by ring.
        apply Z.mul_le_mono_nonneg_r; assumption.
      - apply Z.mul_le_mono_nonneg_l; [lia | ].
        apply Z.mul_le_mono_nonneg_r; lia. }
    apply Z.mul_le_mono_pos_l in H1; [ | lia].
    apply Z.mul_le_mono_pos_r in H1; lia.
  - assert (Hgoal : p < (F + 1) * W).
    2: { assert (p / W < F + 1); [ | lia].
         apply Z.div_lt_upper_bound; [lia | ]. rewrite Z.mul_comm. exact Hgoal. }
    assert (H1 : 9007199254740992 * 9007199254740992 * (p * t)
                 < 9007199254740992 * 9007199254740992 * ((F + 1) * W * t)).
    { eapply Z.le_lt_trans; [exact Hup | ].
      apply Z.le_lt_trans with (9007199254740993 * 9007199254740993 * (((F + 1) * t - 1) * W)).
      - apply Z.mul_le_mono_nonneg_l; [lia | ].
        apply Z.mul_le_mono_nonneg_r; lia.
      - assert (9007199254740993 * 9007199254740993 * ((F + 1) * t - 1)
                < 9007199254740992 * 9007199254740992 * ((F + 1) * t)) by nia.
        replace (9007199254740993 * 9007199254740993 * (((F + 1) * t - 1) * W))
          with (9007199254740993 * 9007199254740993 * ((F + 1) * t - 1) * W) by ring.
        replace (9007199254740992 * 9007199254740992 * ((F + 1) * W * t))
          with (9007199254740992 * 9007199254740992 * ((F + 1) * t) * W) by ring.
        apply Z.mul_lt_mono_pos_r; assumption. }
    apply Z.mul_lt_mono_pos_l in H1; [ | lia].
    apply Z.mul_lt_mono_pos_r in H1; lia.
Qed.

(** ** The extension of a stored file *)

Lemma ext_scan_app st i l1 l2 :
  Api.ext_scan st i (l1 ++ l2)
  = Api.ext_scan (Api.ext_scan st i l1) (i - Z.of_nat (length l1)) l2.
Proof.
  revert st i. induction l1 as [ | c l1 IH]; intros st i; cbn [app Api.ext_scan length].
  - f_equal. lia.
  - rewrite IH. f_equal. lia.
Qed.

Lemma ext_scan_stopped st i l :
  Api.stopped st = true -> Api.ext_scan st i l = st.
Proof.
  intros Hs. revert i. induction l as [ | c l IH]; intros i; cbn [Api.ext_scan]; [reflexivity | ].
  unfold Api.ext_step. rewrite Hs. apply IH.
Qed.

Lemma ext_step_plain st i c :
  is_plain c = true -> Api.stopped st = false -> 0 <= i ->
  Api.ext_step st i c
  = {| Api.startDot := Api.startDot st; Api.startPart := Api.startPart st;
       Api.end_ := if Api.end_ st =? -1 then i + 1 else Api.end_ st;
       Api.matchedSlash := if Api.end_ st =? -1 then false else Api.matchedSlash st;
       Api.preDotState := if Api.startDot st =? -1 then Api.preDotState st else -1;
       Api.stopped := false |}.
Proof.
  intros Hc Hs Hi. unfold is_plain in Hc. apply andb_true_iff in Hc.
  destruct Hc as [H46 H47]. apply negb_true_iff in H46, H47.
  unfold Api.ext_step. rewrite Hs, H47, H46. reflexivity.
Qed.

Lemma ext_scan_plain l : forall st i,
  plain l -> l <> [] -> Api.stopped st = false -> Z.of_nat (length l) <= i + 1 ->
  Api.ext_scan st i l
  = {| Api.startDot := Api.startDot st; Api.startPart := Api.startPart st;
       Api.end_ := if Api.end_ st =? -1 then i + 1 else Api.end_ st;
       Api.matchedSlash := if Api.end_ st =? -1 then false else Api.matchedSlash st;
       Api.preDotState := if Api.startDot st =? -1 then Api.preDotState st else -1;
       Api.stopped := false |}.
Proof.
  induction l as [ | c l IH]; intros st i Hp Hne Hs Hi; [contradiction | ].
  cbn [Api.ext_scan]. unfold plain in Hp. cbn [forallb] in Hp.
  apply andb_true_iff in Hp. destruct Hp as [Hc Hl]. cbn [length] in Hi.
  rewrite (ext_step_plain st i c Hc Hs) by lia.
  destruct l as [ | c' l']; [reflexivity | ].
  rewrite IH; [ | exact Hl | discriminate | reflexivity | cbn [length] in *; lia].
  cbn [Api.startDot Api.startPart Api.end_ Api.matchedSlash Api.preDotState].
  destruct (Z.eqb_spec (Api.end_ st) (-1)) as [E | E].
  - destruct (Z.eqb_spec (i + 1) (-1)); [lia | ].
    destruct (Api.startDot st =? -1); reflexivity.
  - destruct (Z.eqb_spec (Api.end_ st) (-1)); [contradiction | ].
    destruct (Api.startDot st =? -1); reflexivity.
Qed.

Section ExtnameShape.

Variable path : jsstring.

Lemma scanned_step a c b st :
  path = (a ++ [c]) ++ b ->
  scanned path (a ++ [c]) b st ->
  scanned path a (c :: b) (Api.ext_step st (Z.of_nat (length a)) c).
Proof.
  intros Hpath (J1 & J). unfold Api.ext_step.
  destruct (Api.stopped st) eqn:Hs; [split; [exact J1 | congruence] | ].
  destruct (J eq_refl) as (J4 & J3 & J2). clear J.
  rewrite length_app in J2. cbn [length] in J2.
  set (i := Z.of_nat (length a)) in *.
  assert (Hdrop : drop (Z.to_nat i) path = c :: b).
  { rewrite Hpath, <- app_assoc. unfold i. rewrite Nat2Z.id.
    rewrite drop_app_length. reflexivity. }
  destruct (N.eqb_spec c 47) as [E47 | E47].
  { destruct (Api.matchedSlash st) eqn:Hm; cbn [negb].
    - split; [exact J1 | ]. intros _. split; [intros _; apply J4; reflexivity | ].
      split; [exact J3 | ].
      intros _ Hend. exfalso. apply Hend. apply J4. reflexivity.
    - split; [exact J1 | ]. cbn. congruence. }
  assert (He : (if Api.end_ st =? -1 then i + 1 else Api.end_ st) <> -1).
  { destruct (Z.eqb_spec (Api.end_ st) (-1)); [unfold i; lia | assumption]. }
  assert (Hm : (if Api.end_ st =? -1 then false else Api.matchedSlash st) = true -> False).
  { destruct (Z.eqb_spec (Api.end_ st) (-1)); [discriminate | ]. intros H. auto. }
  assert (Hrest : Api.startDot st = -1 ->
            Api.substring path i (if Api.end_ st =? -1 then i + 1 else Api.end_ st)
            = c :: take (Z.to_nat ((if Api.end_ st =? -1 then i + 1 else Api.end_ st) - i - 1)) b
            /\ plain (take (Z.to_nat ((if Api.end_ st =? -1 then i + 1 else Api.end_ st)
                                      - i - 1)) b)).
  { intros Hsd. unfold Api.substring. rewrite Hdrop.
    destruct (Z.eqb_spec (Api.end_ st) (-1)) as [E | E].
    - replace (Z.to_nat (i + 1 - i)) with 1%nat by lia.
      replace (Z.to_nat (i + 1 - i - 1)) with 0%nat by lia. split; reflexivity.
    - destruct (J2 Hsd E) as [Hle Hpl].
      replace (Z.to_nat (Api.end_ st - i)) with (S (Z.to_nat (Api.end_ st - i - 1)))
        by (unfold i in *; lia).
      split; [reflexivity | ].
      replace (Api.end_ st - i - 1) with (Api.end_ st - Z.of_nat (length a + 1))
        by (unfold i; lia). exact Hpl. }
  destruct (N.eqb_spec c 46) as [E46 | E46].
  - destruct (Z.eqb_spec (Api.startDot st) (-1)) as [Hsd | Hsd].
    + split.
      * cbn [Api.startDot Api.end_]. intros _. destruct (Hrest Hsd) as [Hsub Hpl].
        eexists. split; [rewrite Hsub, E46; reflexivity | exact Hpl].
      * cbn [Api.startDot Api.end_ Api.matchedSlash Api.stopped]. intros _.
        split; [intros H; destruct (Hm H) | ]. split; [intros H; contradiction | ].
        intros H. unfold i in H. lia.
    + split.
      * cbn [Api.startDot Api.end_]. intros _.
        destruct (Z.eqb_spec (Api.end_ st) (-1)) as [E | E]; [destruct (Hsd (J3 E)) | ].
        exact (J1 Hsd).
      * cbn [Api.startDot Api.end_ Api.matchedSlash Api.stopped]. intros _.
        split; [intros H; destruct (Hm H) | ]. split; [intros H; contradiction | ].
        intros H. contradiction.
  - split.
    + cbn [Api.startDot Api.end_]. intros Hsd.
      destruct (Z.eqb_spec (Api.end_ st) (-1)) as [E | E]; [destruct (Hsd (J3 E)) | ].
      exact (J1 Hsd).
    + cbn [Api.startDot Api.end_ Api.matchedSlash Api.stopped]. intros _.
      split; [intros H; destruct (Hm H) | ]. split; [intros H; contradiction | ].
      intros Hsd _. destruct (Hrest Hsd) as [Hsub Hpl].
      assert (Hle : i + 1 <= (if Api.end_ st =? -1 then i + 1 else Api.end_ st)).
      { destruct (Z.eqb_spec (Api.end_ st) (-1)) as [E | E]; [lia | ].
        destruct (J2 Hsd E) as [Hle _]. unfold i. lia. }
      split; [lia | ]. fold i.
      replace (Z.to_nat ((if Api.end_ st =? -1 then i + 1 else Api.end_ st) - i))
        with (S (Z.to_nat ((if Api.end_ st =? -1 then i + 1 else Api.end_ st) - i - 1)))
        by lia.
      rewrite firstn_cons. unfold plain in *. cbn [forallb]. rewrite Hpl.
      unfold is_plain. apply N.eqb_neq in E46, E47. rewrite E46, E47. reflexivity.
Qed.

Lemma scanned_all : forall a b st,
  path = a ++ b -> scanned path a b st ->
  scanned path [] path (Api.ext_scan st (Z.of_nat (length a) - 1) (rev a)).
Proof.
  induction a as [ | c a IH] using rev_ind; intros b st Hpath Hinv.
  - cbn. cbn in Hpath. subst b. exact Hinv.
  - rewrite rev_app_distr. cbn [rev app Api.ext_scan].
    rewrite length_app. cbn [length].
    replace (Z.of_nat (length a + 1) - 1) with (Z.of_nat (length a)) by lia.
    apply (IH (c :: b)).
    + rewrite Hpath, <- app_assoc. reflexivity.
    + apply scanned_step; assumption.
Qed.

Lemma extname_shape :
  Api.extname path = [] \/
  exists rest, Api.extname path = 46%N :: rest /\ plain rest.
Proof.
  unfold Api.extname.
  pose proof (scanned_all path [] Api.ext_init (eq_sym (app_nil_r path))) as H.
  match type of H with ?P -> _ => assert (Hinit : P) end.
  { split; [intros H0; exfalso; apply H0; reflexivity | ]. intros _.
    split; [reflexivity | ]. split; [reflexivity | ]. intros _ H0. exfalso. apply H0. reflexivity. }
  specialize (H Hinit). destruct H as [J1 _].
  set (st := Api.ext_scan Api.ext_init (Z.of_nat (length path) - 1) (rev path)) in *.
  destruct (Z.eqb_spec (Api.startDot st) (-1)) as [E | E]; [left; reflexivity | ].
  cbn [orb].
  match goal with |- (if ?c then _ else _) = _ \/ _ => destruct c end;
    [left; reflexivity | right].
  exact (J1 E).
Qed.

End ExtnameShape.

Lemma plain_rev l : plain l -> plain (rev l).
Proof.
  unfold plain. rewrite !forallb_forall. intros H c Hc. apply H. apply in_rev. exact Hc.
Qed.

Lemma plain_app l1 l2 : plain l1 -> plain l2 -> plain (l1 ++ l2).
Proof. unfold plain. rewrite forallb_app. intros -> ->. reflexivity. Qed.

(** The extension of [dir/base.ext]. *)
Lemma extname_of_base (up body e : jsstring) :
  plain body -> body <> [] ->
  (e = [] \/ exists rest, e = 46%N :: rest /\ plain rest) ->
  Api.extname (up ++ 47%N :: body ++ e) = e.
Proof.
  intros Hbody Hne He. unfold Api.extname.
  set (p := up ++ 47%N :: body ++ e).
  assert (Hlen : Z.of_nat (length p)
                 = Z.of_nat (length up) + 1 + Z.of_nat (length body) + Z.of_nat (length e)).
  { unfold p. rewrite length_app. cbn [length]. rewrite length_app. lia. }
  assert (Hrev : rev p = rev e ++ rev body ++ 47%N :: rev up).
  { unfold p. rewrite rev_app_distr. cbn [rev]. rewrite rev_app_distr, <- !app_assoc.
    reflexivity. }
  assert (Hbl : 0 < Z.of_nat (length body)) by (destruct body; [contradiction | cbn; lia]).
  rewrite Hrev. rewrite ext_scan_app, length_rev.
  rewrite (ext_scan_app _ _ (rev body)), length_rev.
  cbn [Api.ext_scan].
  destruct He as [-> | (rest & -> & Hrest)].
  - cbn [rev Api.ext_scan length].
    rewrite (ext_scan_plain (rev body));
      [ | apply plain_rev; exact Hbody
        | intros H; apply Hne; rewrite <- (rev_involutive body), H; reflexivity
        | reflexivity | rewrite length_rev; cbn [length] in Hlen; lia].
    cbn [Api.ext_init Api.startDot Api.end_ Api.matchedSlash Api.preDotState Api.startPart].
    unfold Api.ext_step at 1.
    cbn [Api.stopped Api.matchedSlash negb Api.startDot Api.end_ Api.preDotState Api.startPart].
    change (47 =? 47)%N with true. cbv iota.
    rewrite ext_scan_stopped by reflexivity. reflexivity.
  - cbn [rev]. rewrite ext_scan_app, length_rev. cbn [Api.ext_scan length].
    set (n := Z.of_nat (length p)) in *. cbn [length] in Hlen.
    assert (Hst1 : Api.ext_step
                     (Api.ext_scan Api.ext_init (n - 1) (rev rest))
                     (n - 1 - Z.of_nat (length rest)) 46%N
                   = {| Api.startDot := n - 1 - Z.of_nat (length rest);
                        Api.startPart := 0; Api.end_ := n;
                        Api.matchedSlash := false; Api.preDotState := 0;
                        Api.stopped := false |}).
    { destruct rest as [ | c rest'].
      - cbn [rev Api.ext_scan length]. unfold Api.ext_step. cbn.
        f_equal; lia.
      - rewrite (ext_scan_plain (rev (c :: rest')));
          [ | apply plain_rev; exact Hrest
            | intros H; apply (f_equal (@length N)) in H; rewrite length_rev in H;
              discriminate
            | reflexivity | rewrite length_rev; lia].
        unfold Api.ext_step.
        cbn [Api.ext_init Api.stopped Api.matchedSlash Api.startDot Api.end_
             Api.preDotState Api.startPart].
        change (46 =? 47)%N with false. change (46 =? 46)%N with true.
        change (-1 =? -1) with true. cbv iota.
        destruct (Z.eqb_spec (n - 1 + 1) (-1)); [lia | ].
        f_equal; lia. }
    rewrite Hst1.
    rewrite (ext_scan_plain (rev body));
      [ | apply plain_rev; exact Hbody
        | intros H; apply Hne; rewrite <- (rev_involutive body), H; reflexivity
        | reflexivity | rewrite length_rev; lia].
    cbn [Api.startDot Api.end_ Api.matchedSlash Api.preDotState Api.startPart].
    assert (Hn1 : (n =? -1) = false) by (apply Z.eqb_neq; lia).
    assert (Hsd : (n - 1 - Z.of_nat (length rest) =? -1) = false) by (apply Z.eqb_neq; lia).
    rewrite Hn1, Hsd.
    match goal with |- context [Api.ext_step ?s ?i 47%N] =>
      replace (Api.ext_step s i 47%N)
        with {| Api.startDot := Api.startDot s; Api.startPart := i + 1;
                Api.end_ := Api.end_ s; Api.matchedSlash := false;
                Api.preDotState := Api.preDotState s; Api.stopped := true |}
        by reflexivity
    end.
    rewrite ext_scan_stopped by reflexivity.
    cbn [Api.startDot Api.end_ Api.preDotState Api.startPart].
    rewrite Hn1, Hsd. cbn [orb andb]. change (-1 =? 0) with false. change (-1 =? 1) with false.
    cbn [orb andb]. unfold Api.substring.
    replace (Z.to_nat (n - 1 - Z.of_nat (length rest)))
      with (length (up ++ 47%N :: body)) by (rewrite length_app; cbn [length]; lia).
    replace (Z.to_nat (n - (n - 1 - Z.of_nat (length rest))))
      with (length (46%N :: rest)) by (cbn [length]; lia).
    unfold p. replace (up ++ 47%N :: body ++ 46%N :: rest)
      with ((up ++ 47%N :: body) ++ 46%N :: rest) by (rewrite <- app_assoc; reflexivity).
    rewrite drop_app_length. apply firstn_all.
Qed.

Lemma string_of_uint_plain d : plain (str (NilEmpty.string_of_uint d)).
Proof. induction d; cbn; try reflexivity; exact IHd. Qed.

Lemma int_to_string_plain z : plain (int_to_string z) /\ int_to_string z <> [].
Proof.
  unfold int_to_string.
  assert (Hu : forall p, plain (str (NilZero.string_of_uint (Pos.to_uint p)))
                         /\ str (NilZero.string_of_uint (Pos.to_uint p)) <> []).
  { intros p. pose proof (Unsigned.to_uint_nonnil p) as Hn.
    pose proof (string_of_uint_plain (Pos.to_uint p)) as Hp.
    destruct (Pos.to_uint p) eqn:E; try contradiction;
      (split; [exact Hp | discriminate]). }
  destruct z as [ | p | p]; cbn [Z.to_int NilZero.string_of_int].
  - split; [reflexivity | discriminate].
  - apply Hu.
  - destruct (Hu p) as [Hp _]. split; [ | discriminate].
    unfold plain, str in *. cbn. exact Hp.
Qed.

(** X19: The path under which an upload is stored has the
    extension of the original name, so it is classified as the original
    name is; an extension is empty or a dot followed by code units that
    are neither dots nor slashes. *)
Theorem stored_file_keeps_its_extension (now random : Z) (originalname : jsstring) :
  Api.extname (Storage.path now random originalname) = Api.extname originalname /\
  Api.getQueueForFile (Storage.path now random originalname)
  = Api.getQueueForFile originalname /\
  (Api.extname originalname = [] \/
   exists rest, Api.extname originalname = 46%N :: rest /\ plain rest).
Proof.
  assert (Hext : Api.extname (Storage.path now random originalname)
                 = Api.extname originalname).
  { unfold Storage.path, Storage.filename, Storage.destination.
    change (str "uploads/") with (str "uploads" ++ [47%N]).
    rewrite <- !app_assoc. cbn [app].
    rewrite (app_assoc (int_to_string now)), (app_assoc (int_to_string now ++ str "-")).
    apply extname_of_base.
    - destruct (int_to_string_plain now) as [H1 _].
      destruct (int_to_string_plain random) as [H2 _].
      apply plain_app; [apply plain_app; [exact H1 | reflexivity] | exact H2].
    - destruct (int_to_string_plain now) as [_ H1]. intros H.
      apply app_eq_nil in H. destruct H as [H _].
      apply app_eq_nil in H. destruct H as [H _]. contradiction.
    - apply extname_shape. }
  split; [exact Hext | ]. split; [ | apply extname_shape].
  unfold Api.getQueueForFile. rewrite Hext. reflexivity.
Qed.

(* ================================================================== *)
(** * The theorems at sample inputs *)
(* ================================================================== *)





Lemma non_string_values_witness :
  truthy (VNum 5) = true /\ is_array (VNum 5) = false /\ is_string (VNum 5) = false /\
  CsvWorker.parseMultiValueField (VNum 5) = [].
Proof.
  split; [reflexivity | ]. split; [reflexivity | ]. split; [reflexivity | ].
  destruct (non_string_values (VNum 5) eq_refl eq_refl eq_refl) as (_ & _ & Hcsv).
  exact Hcsv.
Defined.

Lemma upload_classification_witness :
  toLowerCase (Api.extname (Api.originalname txt_upload)) <> str ".csv" /\
  toLowerCase (Api.extname (Api.originalname txt_upload)) <> str ".xlsx" /\
  toLowerCase (Api.extname (Api.originalname txt_upload)) <> str ".xls" /\
  Api.size txt_upload < Api.fileSizeLimit /\
  Api.getQueueForFile (Api.originalname txt_upload) = Throw Api.unsupported_file_type /\
  Api.status (fst (Api.upload (Some txt_upload) no_queues)) = 500 /\
  Api.fileFilter brim_upload = true /\
  Api.fileSizeLimit <= Api.size brim_upload /\
  Api.status (fst (Api.upload (Some brim_upload) no_queues)) = 400.
Proof.
  assert (N1 : toLowerCase (Api.extname (Api.originalname txt_upload)) <> str ".csv")
    by (vm_compute; discriminate).
  assert (N2 : toLowerCase (Api.extname (Api.originalname txt_upload)) <> str ".xlsx")
    by (vm_compute; discriminate).
  assert (N3 : toLowerCase (Api.extname (Api.originalname txt_upload)) <> str ".xls")
    by (vm_compute; discriminate).
  assert (Hsize : Api.size txt_upload < Api.fileSizeLimit) by (vm_compute; reflexivity).
  assert (M1 : toLowerCase (Api.extname (Api.originalname brim_upload)) <> str ".csv")
    by (vm_compute; discriminate).
  assert (M2 : toLowerCase (Api.extname (Api.originalname brim_upload)) <> str ".xlsx")
    by (vm_compute; discriminate).
  assert (M3 : toLowerCase (Api.extname (Api.originalname brim_upload)) <> str ".xls")
    by (vm_compute; discriminate).
  assert (Hff : Api.fileFilter brim_upload = true) by (vm_compute; reflexivity).
  assert (Hbrim : Api.fileSizeLimit <= Api.size brim_upload) by (vm_compute; discriminate).
  split; [exact N1 | ]. split; [exact N2 | ]. split; [exact N3 | ]. split; [exact Hsize | ].
  destruct (upload_classification txt_upload no_queues) as (_ & _ & Hrest).
  destruct (Hrest N1 N2 N3) as (Hthrow & _ & Hupload & _).
  split; [exact Hthrow | ]. destruct (Hupload Hsize) as (Hstatus & _).
  split; [exact Hstatus | ]. split; [exact Hff | ]. split; [exact Hbrim | ].
  destruct (upload_classification brim_upload no_queues) as (_ & _ & Hbrest).
  destruct (Hbrest M1 M2 M3) as (_ & _ & _ & Hlarge).
  rewrite (Hlarge Hff Hbrim). reflexivity.
Defined.


Lemma jobs_page_is_a_slice_witness :
  1 <= 2 /\ 1 <= 10 /\ 10 < 2 ^ 53 /\ Z.of_nat (length jobs25) < 2 ^ 53 /\
  map Bull.id (fst (Api.paginate jobs25 (Number.of_int 2) (Number.of_int 10)))
  = [10; 11; 12; 13; 14; 15; 16; 17; 18; 19] /\
  Api.totalPages (snd (Api.paginate jobs25 (Number.of_int 2) (Number.of_int 10)))
  = Number.of_int 3.
Proof.
  assert (H1 : 1 <= 2) by lia. assert (H2 : 1 <= 10) by lia.
  assert (H3 : 10 < 2 ^ 53) by lia.
  assert (H4 : Z.of_nat (length jobs25) < 2 ^ 53) by (vm_compute; reflexivity).
  split; [exact H1 | ]. split; [exact H2 | ]. split; [exact H3 | ]. split; [exact H4 | ].
  destruct (jobs_page_is_a_slice jobs25 2 10 H1 H2 H3 H4) as (Hpos & _ & Hpages & _).
  split.
  - rewrite Hpos. vm_compute. reflexivity.
  - rewrite Hpages. reflexivity.
Defined.

Lemma csv_processed_fields_witness :
  CsvWorker.processRecord tagged_record 7 idle_state
  = (Ret tagged_processed, snd (CsvWorker.processRecord tagged_record 7 idle_state)) /\
  data tagged_processed !! str "Tags"
  = Some (VArr (map VStr (CsvWorker.parseMultiValueField (VStr (str "red, blue"))))).
Proof.
  assert (H : CsvWorker.processRecord tagged_record 7 idle_state
              = (Ret tagged_processed,
                 snd (CsvWorker.processRecord tagged_record 7 idle_state)))
    by (vm_compute; reflexivity).
  split; [exact H | ].
  destruct (csv_processed_fields tagged_record 7 idle_state _ tagged_processed H)
    as (_ & Hl & _).
  rewrite Hl. vm_compute. reflexivity.
Defined.

Lemma excel_processed_fields_witness :
  ExcelWorker.processRecord tagged_record 7 idle_state
  = (Ret tagged_processed, snd (ExcelWorker.processRecord tagged_record 7 idle_state)) /\
  data tagged_processed !! str "Attributes" = tagged_record !! str "Attributes".
Proof.
  assert (H : ExcelWorker.processRecord tagged_record 7 idle_state
              = (Ret tagged_processed,
                 snd (ExcelWorker.processRecord tagged_record 7 idle_state)))
    by (vm_compute; reflexivity).
  split; [exact H | ].
  destruct (excel_processed_fields tagged_record 7 idle_state _ tagged_processed H)
    as (_ & _ & Hl).
  exact Hl.
Defined.

Lemma excel_normaliser_errors_witness :
  existsb is_nullish [VStr (str " a "); VNum 5] = false /\
  ExcelWorker.parseMultiValueField (VArr [VStr (str " a "); VNum 5])
  = Ret (List.filter non_empty (map (fun x => trim (to_text x)) [VStr (str " a "); VNum 5])).
Proof.
  assert (H : existsb is_nullish [VStr (str " a "); VNum 5] = false) by reflexivity.
  split; [exact H | ].
  destruct (excel_normaliser_errors VNull) as (_ & Harr).
  exact (Harr _ H).
Defined.

Lemma tokens_round_trip_witness :
  Forall (fun t => non_empty t = true /\ trim t = t /\ no_separator t = true)
         [str "red"; str "blue"] /\
  is_quote (hd 0%N (join (str ",") [str "red"; str "blue"])) = false /\
  CsvWorker.parseMultiValueField (VStr (join (str ",") [str "red"; str "blue"]))
  = [str "red"; str "blue"].
Proof.
  assert (H1 : Forall (fun t => non_empty t = true /\ trim t = t /\ no_separator t = true)
                 [str "red"; str "blue"]).
  { repeat constructor. }
  assert (H2 : is_quote (hd 0%N (join (str ",") [str "red"; str "blue"])) = false)
    by reflexivity.
  split; [exact H1 | ]. split; [exact H2 | ].
  destruct (tokens_round_trip [str "red"; str "blue"] H1 H2) as [Hcsv _]. exact Hcsv.
Defined.

Lemma string_tokens_hold_no_separator_witness :
  ExcelWorker.parseMultiValueField (VStr (str "a,b|c")) = Ret [str "a"; str "b"; str "c"] /\
  Forall (fun tok => no_separator tok = true) [str "a"; str "b"; str "c"].
Proof.
  assert (H : ExcelWorker.parseMultiValueField (VStr (str "a,b|c"))
              = Ret [str "a"; str "b"; str "c"]) by (vm_compute; reflexivity).
  split; [exact H | ].
  destruct (string_tokens_hold_no_separator (str "a,b|c")) as (_ & Hx & _).
  exact (Hx _ H).
Defined.

Lemma completed_job_summary_witness :
  fst (run_handler (handler_of Csv) (two_row_world [])) = Ret two_row_results /\
  summary two_row_results !! str "Tags"
  = match field_arrays (str "Tags") (records two_row_results) with
    | [] => None
    | arrays => Some (stats_of arrays)
    end.
Proof.
  assert (H : fst (run_handler (handler_of Csv) (two_row_world [])) = Ret two_row_results)
    by (vm_compute; reflexivity).
  split; [exact H | ].
  exact (completed_job_summary Csv (two_row_world []) two_row_results H (str "Tags")).
Defined.

Lemma summary_entries_are_consistent_witness :
  fst (run_handler (handler_of Csv) (two_row_world [])) = Ret two_row_results /\
  summary two_row_results !! str "Tags" = Some tags_stats /\
  NoDup (uniqueValues tags_stats).
Proof.
  assert (H : fst (run_handler (handler_of Csv) (two_row_world [])) = Ret two_row_results)
    by (vm_compute; reflexivity).
  assert (Hs : summary two_row_results !! str "Tags" = Some tags_stats)
    by (vm_compute; reflexivity).
  split; [exact H | ]. split; [exact Hs | ].
  destruct (summary_entries_are_consistent Csv (two_row_world []) two_row_results
              (str "Tags") tags_stats H Hs) as (Hnd & _).
  exact Hnd.
Defined.

Lemma summary_fields_are_multi_value_fields_witness :
  fst (run_handler (handler_of Csv) (two_row_world [])) = Ret two_row_results /\
  summary two_row_results !! str "Tags" = Some tags_stats /\
  str "Tags" ∈ multi_fields Csv.
Proof.
  assert (H : fst (run_handler (handler_of Csv) (two_row_world [])) = Ret two_row_results)
    by (vm_compute; reflexivity).
  assert (Hs : summary two_row_results !! str "Tags" = Some tags_stats)
    by (vm_compute; reflexivity).
  split; [exact H | ]. split; [exact Hs | ].
  exact (summary_fields_are_multi_value_fields Csv (two_row_world []) two_row_results
           (str "Tags") tags_stats H Hs).
Defined.

Lemma completed_job_records_witness :
  fst (run_handler (handler_of Csv) (two_row_world [])) = Ret two_row_results /\
  length (records two_row_results) = processed two_row_results.
Proof.
  assert (H : fst (run_handler (handler_of Csv) (two_row_world [])) = Ret two_row_results)
    by (vm_compute; reflexivity).
  split; [exact H | ].
  destruct (completed_job_records Csv (two_row_world []) two_row_results H)
    as (recs & done & _ & _ & _ & Hlen & _).
  exact Hlen.
Defined.


Lemma excel_rows_become_records_witness :
  files priced_world !! Bull.filePath (Bull.data (job priced_world)) = Some priced_file /\
  as_xlsx priced_file = Ret (Some priced_sheet) /\
  ExcelWorker.missingColumns (ExcelWorker.header_row priced_sheet) = [] /\
  (exists recs, parse_stage Excel priced_world = Ret recs) /\
  files proto_world !! Bull.filePath (Bull.data (job proto_world)) = Some proto_file /\
  as_xlsx proto_file = Ret (Some proto_sheet) /\
  ExcelWorker.missingColumns (ExcelWorker.header_row proto_sheet) = [] /\
  exists r, parse_stage Excel proto_world = Ret [r] /\ r !! str "__proto__" = None.
Proof.
  assert (H1 : files priced_world !! Bull.filePath (Bull.data (job priced_world))
               = Some priced_file) by (vm_compute; reflexivity).
  assert (H2 : as_xlsx priced_file = Ret (Some priced_sheet)) by reflexivity.
  assert (H3 : ExcelWorker.missingColumns (ExcelWorker.header_row priced_sheet) = [])
    by (vm_compute; reflexivity).
  assert (P1 : files proto_world !! Bull.filePath (Bull.data (job proto_world))
               = Some proto_file) by (vm_compute; reflexivity).
  assert (P2 : as_xlsx proto_file = Ret (Some proto_sheet)) by reflexivity.
  assert (P3 : ExcelWorker.missingColumns (ExcelWorker.header_row proto_sheet) = [])
    by (vm_compute; reflexivity).
  split; [exact H1 | ]. split; [exact H2 | ]. split; [exact H3 | ].
  split.
  { destruct (excel_rows_become_records priced_world priced_file priced_sheet H1 H2 H3)
      as (recs & Hparse & _).
    exists recs. exact Hparse. }
  split; [exact P1 | ]. split; [exact P2 | ]. split; [exact P3 | ].
  destruct (excel_rows_become_records proto_world proto_file proto_sheet P1 P2 P3)
    as (recs & Hparse & Hall & _).
  destruct recs as [ | r [ | r' recs]];
    try (apply Forall2_length in Hall; vm_compute in Hall; discriminate).
  exists r. split; [exact Hparse | ].
  apply Forall2_cons_1 in Hall. destruct Hall as [(_ & _ & Hproto) _]. exact Hproto.
Defined.



Lemma pages_partition_witness :
  1 <= 10 < 2 ^ 53 /\ Z.of_nat (length jobs25) < 2 ^ 53 /\
  concat (map (fun p => fst (Api.paginate jobs25 (Number.of_int (Z.of_nat p))
                                          (Number.of_int 10)))
              (seq 1 (Z.to_nat ((Z.of_nat (length jobs25) + 10 - 1) / 10))))
  = jobs25 /\
  fst (Api.paginate jobs25 (Number.of_int 1) (S754_infinity false)) = [].
Proof.
  assert (H : 1 <= 10 < 2 ^ 53) by lia.
  assert (Hn : Z.of_nat (length jobs25) < 2 ^ 53) by (vm_compute; reflexivity).
  split; [exact H | ]. split; [exact Hn | ].
  destruct (pages_partition jobs25 10 H Hn) as (Hall & _ & Hinf).
  split; [exact Hall | ]. rewrite (Hinf 1 ltac:(lia)). reflexivity.
Defined.


Lemma uploaded_job_is_found_witness :
  Api.content (fst (Api.upload (Some csv_upload) no_queues))
  = Api.Queued 1 (str "data.csv") (str "csv") /\
  fresh_ids (Api.csvQueue no_queues) /\ fresh_ids (Api.excelQueue no_queues) /\
  exists r,
    JobStatus.get_job (Some (Api.QString (str "csv"))) (int_to_string 1)
                      (snd (Api.upload (Some csv_upload) no_queues))
    = JobStatus.Report r /\
    JobStatus.state r = Bull.Waiting.
Proof.
  assert (H : Api.content (fst (Api.upload (Some csv_upload) no_queues))
              = Api.Queued 1 (str "data.csv") (str "csv")) by (vm_compute; reflexivity).
  assert (H1 : fresh_ids (Api.csvQueue no_queues)) by constructor.
  assert (H2 : fresh_ids (Api.excelQueue no_queues)) by constructor.
  split; [exact H | ]. split; [exact H1 | ]. split; [exact H2 | ].
  destruct (uploaded_job_is_found csv_upload no_queues 1 (str "data.csv") (str "csv")
              H H1 H2) as ((r & Hget & _ & Hstate & _) & _).
  exists r. split; [exact Hget | exact Hstate].
Defined.

Lemma progress_is_within_one_of_the_percentage_witness :
  1 <= 29 <= 100 /\ 100 <= 2 ^ 45 /\
  exists z, progress_percent 29 100 = Number.of_int z /\
            100 * 29 / 100 - 1 <= z <= 100 * 29 / 100.
Proof.
  assert (H1 : 1 <= 29 <= 100) by lia.
  assert (H2 : 100 <= 2 ^ 45) by (vm_compute; discriminate).
  split; [exact H1 | ]. split; [exact H2 | ].
  exact (progress_is_within_one_of_the_percentage 29 100 H1 H2).
Defined.


Lemma stored_file_keeps_its_extension_witness :
  Api.extname (Storage.path 1700000000000 42 (str "report.final.CSV")) = str ".CSV" /\
  Api.getQueueForFile (Storage.path 1700000000000 42 (str "report.final.CSV"))
  = Api.getQueueForFile (str "report.final.CSV").
Proof.
  destruct (stored_file_keeps_its_extension 1700000000000 42 (str "report.final.CSV"))
    as (Hext & Hq & _).
  split; [rewrite Hext; vm_compute; reflexivity | exact Hq].
Defined.

Lemma normalising_a_processed_record_witness :
  ExcelWorker.normalise_fields tagged_record = Ret (data tagged_processed) /\
  ExcelWorker.normalise_fields (data tagged_processed) = Ret (data tagged_processed) /\
  str "Tags" ∈ CsvWorker.multiValueFields /\
  truthy (field_of tagged_record (str "Tags")) = true /\
  CsvWorker.normalise_fields (CsvWorker.normalise_fields tagged_record) !! str "Tags"
  = Some (VArr []).
Proof.
  assert (H : ExcelWorker.normalise_fields tagged_record = Ret (data tagged_processed))
    by (vm_compute; reflexivity).
  assert (H1 : str "Tags" ∈ CsvWorker.multiValueFields) by apply list_elem_of_here.
  assert (H2 : truthy (field_of tagged_record (str "Tags")) = true)
    by (vm_compute; reflexivity).
  destruct (normalising_a_processed_record tagged_record) as (Hexcel & Hcsv).
  split; [exact H | ]. split; [exact (Hexcel _ H) | ].
  split; [exact H1 | ]. split; [exact H2 | ].
  destruct (Hcsv (str "Tags") H1 H2) as (_ & Hagain). exact Hagain.
Defined.

Lemma negative_page_size_drops_the_tail_witness :
  -5 < 0 /\ (Z.of_nat (length jobs25) < 2 ^ 53 \/ - 2 ^ 53 < -5) /\
  map Bull.id (fst (Api.paginate jobs25 (Number.of_int 1) (Number.of_int (-5))))
  = map Z.of_nat (seq 0 20).
Proof.
  assert (H : -5 < 0) by lia.
  assert (Hn : Z.of_nat (length jobs25) < 2 ^ 53 \/ - 2 ^ 53 < -5)
    by (left; vm_compute; reflexivity).
  split; [exact H | ]. split; [exact Hn | ].
  destruct (negative_page_size_drops_the_tail jobs25 (-5) H Hn) as (Hpage & _).
  rewrite Hpage. vm_compute. reflexivity.
Defined.
